(** * truck-load-watch: the watch loop of [watcher.py], embedded and verified

    The watcher polls a listing page, parses the offered loads, accepts the
    ones that match the operator's rules while a daily quota lasts, records
    them in MongoDB and notifies the operator.

    The embedding follows [watcher.py] function by function.  Python values
    are modelled as follows.
    - [str] is [string], the bytes of its UTF-8 form, so that the literals
      of the source stand here as they stand there.  The built-ins that go
      by the character database ([str.lower], [str.isspace], [\d], [int])
      are modelled on ASCII text, where 'A'..'Z' are the capital letters,
      '0'..'9' the digits and ten control characters and the space the white
      space; the properties that rest on them are stated for text that
      [Py.ascii_text] accepts.
    - [int] is [Z]; [int(s)] is that of CPython 3.11, with its limit on the
      number of digits.
    - [datetime] is a [Z]: microseconds since the epoch, UTC.  The store
      keeps a date to the millisecond and an [int] in 64 bits.
    - the database, the session's cookie jar and the log of store and network
      operations are the fields of [World]; a function of the watcher is a
      computation of the monad [M], which threads the world and may raise. *)

From Stdlib Require Import ZArith List String Ascii Bool Lia.
From Stdlib Require Import Sorting.Sorted Sorting.Permutation.
From Stdlib Require DecimalString.
Import ListNotations.

Local Open Scope string_scope.
Local Open Scope list_scope.
Local Open Scope Z_scope.

(** ** Python built-ins on strings *)

Module Py.

Definition nl : string := String "010" EmptyString.

(** A character of ASCII, and text made of such. *)
Definition is_ascii (c : ascii) : bool := (N_of_ascii c <? 128)%N.

Fixpoint ascii_text (s : string) : bool :=
  match s with
  | EmptyString => true
  | String c s' => is_ascii c && ascii_text s'
  end.

(** [\d], and the digits of [int], among the characters of ASCII. *)
Definition is_digit (c : ascii) : bool :=
  let n := N_of_ascii c in (48 <=? n)%N && (n <=? 57)%N.

Definition digit_val (c : ascii) : Z := Z.of_N (N_of_ascii c) - 48.

(** [str.isspace] on one ASCII character: tab, newline, vertical tab, form
    feed, carriage return, the four separators 0x1c..0x1f and the space. *)
Definition is_space (c : ascii) : bool :=
  let n := N_of_ascii c in
  ((9 <=? n)%N && (n <=? 13)%N) || ((28 <=? n)%N && (n <=? 32)%N).

(** [c.lower()] for a character of ASCII. *)
Definition lower_char (c : ascii) : ascii :=
  let n := N_of_ascii c in
  if (65 <=? n)%N && (n <=? 90)%N then ascii_of_N (n + 32) else c.

(** [s.lower()], for ASCII text *)
Fixpoint lower (s : string) : string :=
  match s with
  | EmptyString => EmptyString
  | String c s' => String (lower_char c) (lower s')
  end.

(** [s.startswith(p)] *)
Fixpoint startswith (p s : string) : bool :=
  match p, s with
  | EmptyString, _ => true
  | String a p', String b s' => Ascii.eqb a b && startswith p' s'
  | String _ _, EmptyString => false
  end.

(** [p in s] for two strings *)
Fixpoint contains (p s : string) : bool :=
  startswith p s ||
  match s with
  | EmptyString => false
  | String _ s' => contains p s'
  end.

Definition is_empty (s : string) : bool :=
  match s with EmptyString => true | _ => false end.

Fixpoint all_digits (s : string) : bool :=
  match s with
  | EmptyString => true
  | String c s' => is_digit c && all_digits s'
  end.

(** The longest run of digits at the head of [s], and what follows it. *)
Fixpoint span_digits (s : string) : string * string :=
  match s with
  | EmptyString => (EmptyString, EmptyString)
  | String c s' =>
      if is_digit c
      then let (d, r) := span_digits s' in (String c d, r)
      else (EmptyString, s)
  end.

Fixpoint lstrip (s : string) : string :=
  match s with
  | EmptyString => EmptyString
  | String c s' => if is_space c then lstrip s' else s
  end.

Fixpoint rstrip (s : string) : string :=
  match s with
  | EmptyString => EmptyString
  | String c s' =>
      let r := rstrip s' in
      if is_space c && is_empty r then EmptyString else String c r
  end.

(** [s.strip()], for ASCII text *)
Definition strip (s : string) : string := lstrip (rstrip s).

(** The digits of an [int] literal: a digit, then digits each optionally
    preceded by one underscore.  [seen] tells that the previous character was
    a digit. *)
Fixpoint int_digits (acc : Z) (seen : bool) (s : string) : option Z :=
  match s with
  | EmptyString => if seen then Some acc else None
  | String c s' =>
      if is_digit c then int_digits (10 * acc + digit_val c) true s'
      else if Ascii.eqb c "_" && seen then
        match s' with
        | String c' _ => if is_digit c' then int_digits acc false s' else None
        | EmptyString => None
        end
      else None
  end.

(** The white space [int] passes over at both ends of an ASCII string:
    that of C's [isspace], which leaves out the separators 0x1c..0x1f that
    [str.strip] takes off. *)
Definition is_c_space (c : ascii) : bool :=
  let n := N_of_ascii c in
  ((9 <=? n)%N && (n <=? 13)%N) || (n =? 32)%N.

Fixpoint int_lstrip (s : string) : string :=
  match s with
  | EmptyString => EmptyString
  | String c s' => if is_c_space c then int_lstrip s' else s
  end.

Fixpoint int_rstrip (s : string) : string :=
  match s with
  | EmptyString => EmptyString
  | String c s' =>
      let r := int_rstrip s' in
      if is_c_space c && is_empty r then EmptyString else String c r
  end.

(** [sys.get_int_max_str_digits()], as CPython sets it: [int] refuses a
    string with more digits. *)
Definition MAX_STR_DIGITS : Z := 4300.

Fixpoint digit_count (s : string) : Z :=
  match s with
  | EmptyString => 0
  | String c s' => (if is_digit c then 1 else 0) + digit_count s'
  end.

(** [int(s)], for ASCII text: [None] stands for [ValueError]. *)
Definition int (s : string) : option Z :=
  match int_lstrip (int_rstrip s) with
  | EmptyString => None
  | String c d =>
      if MAX_STR_DIGITS <? digit_count (String c d) then None
      else if Ascii.eqb c "-" then option_map Z.opp (int_digits 0 false d)
      else if Ascii.eqb c "+" then int_digits 0 false d
      else int_digits 0 false (String c d)
  end.

(** [s.split(sep)] for a non-empty [sep]: [acc] holds the piece being read
    and [skip] counts the characters of a separator still to pass. *)
Fixpoint split_go (sep : string) (acc : string) (skip : nat) (s : string)
  : list string :=
  match s with
  | EmptyString => [acc]
  | String c s' =>
      match skip with
      | S k => split_go sep acc k s'
      | O =>
          if startswith sep s
          then acc :: split_go sep EmptyString (Nat.pred (String.length sep)) s'
          else split_go sep (acc ++ String c EmptyString) O s'
      end
  end.

Definition split (sep s : string) : list string :=
  split_go sep EmptyString O s.

(** [str(n)] for an [int] *)
Definition str_of_int (n : Z) : string :=
  DecimalString.NilZero.string_of_int (Z.to_int n).

End Py.

(** ** Values of the program *)

Inductive Exn : Type :=
| TypeError | AttributeError | IndexError | ValueError | OverflowError
| RequestException.

(** A value of the hidden-field map posted back to the market. *)
Inductive Value : Type :=
| VNone
| VBool (b : bool)
| VStr (s : string)
| VInt (n : Z).

(** A [dict] with [str] keys, in insertion order. *)
Definition Dict (V : Type) : Type := list (string * V).

(** [d[k] = v] *)
Fixpoint dict_set {V : Type} (k : string) (v : V) (d : Dict V) : Dict V :=
  match d with
  | [] => [(k, v)]
  | (k', v') :: d' =>
      if String.eqb k k' then (k, v) :: d' else (k', v') :: dict_set k v d'
  end.

(** [d.update(other)] *)
Definition dict_update {V : Type} (d other : Dict V) : Dict V :=
  fold_left (fun acc kv => dict_set (fst kv) (snd kv) acc) other d.

Definition Cookies : Type := Dict string.

(** A document of [db.loads]. *)
Record LoadDoc : Type := {
  dsm : Z;
  action_id : string;
  origin_loc : string;
  origin_dt : string;
  dest_loc : string;
  dest_dt : string;
  consignee : string;
  weight : Z;
  exc_ship_mode : string;
  status : string;
  dt : Z
}.

(** The document [{"key": "logic"}] of [db.settings]. *)
Record Logic : Type := {
  destinations : list string;
  consignees : list string;
  ship_modes : list string
}.

(** The document [{"key": "cookies"}] of [db.cache]. *)
Record CacheDoc : Type := {
  cookies : Cookies;
  cache_dt : Z
}.

(** The database: the [enabled] field of the status document, the
    [threshold] field of the load-threshold document, the logic document,
    the cookie cache and the collection of accepted loads. *)
Record Db : Type := {
  settings_status : option bool;
  settings_threshold : option Z;
  settings_logic : option Logic;
  cache : option CacheDoc;
  loads : list LoadDoc
}.

(** Every operation on the store and every HTTP request, as it happens. *)
Inductive Event : Type :=
| FindSettings (key : string)
| InsertStatus
| FindCache
| UpdateCache (doc : CacheDoc)
| FindAccepted (today : Z)
| FindLoad (dsm : Z)
| InsertLoad (doc : LoadDoc)
| PostLogin
| GetOffers
| PostAccept (data : Dict Value)
| PostMessage (text : string).

(** The process: the database [db], the cookie jar of the session [S] and
    the operations performed so far. *)
Record World : Type := {
  db : Db;
  session : Cookies;
  trace : list Event
}.

(** A wall-clock time of day. *)
Record Time : Type := { hour : Z; minute : Z; second : Z }.

(** The answer to [GET CPRespondToOffers.jsp]: [r.ok], and what lines
    175-220 read off [r.content], the hidden-field map [accept_data] and the
    rows [data] of non-empty cell lists. *)
Record Response : Type := {
  ok : bool;
  form_fields : Dict Value;
  rows : list (list string)
}.

(** What one call of [check_loads] reads from outside the process: the
    clock, and the replies of the market and of the message sink ([None]
    when the request raises instead of answering).  [utc_insert n] is the
    reading of [datetime.utcnow()] for the load taken when [new_loads] is
    [n]. *)
Record Tick : Type := {
  now_eastern : Time;
  utc_quota : Z;
  utc_session : Z;
  utc_login : Z;
  utc_insert : Z -> Z;
  login_reply : option Cookies;
  offers_reply : option Response;
  accept_reply : option bool;
  message_reply : option bool
}.

(** ** The monad of the watcher: state and exceptions *)

Definition M (A : Type) : Type := World -> World * (Exn + A).

Definition ret {A : Type} (a : A) : M A := fun w => (w, inr a).

Definition raise {A : Type} (e : Exn) : M A := fun w => (w, inl e).

Definition bind {A B : Type} (m : M A) (f : A -> M B) : M B :=
  fun w =>
    match m w with
    | (w', inr a) => f a w'
    | (w', inl e) => (w', inl e)
    end.

Notation "x <- m ;; k" := (bind m (fun x => k))
  (at level 61, m at next level, right associativity).
Notation "m ;; k" := (bind m (fun _ => k))
  (at level 61, right associativity).

Definition get : M World := fun w => (w, inr w).

Definition emit (ev : Event) : M unit :=
  fun w => ({| db := db w; session := session w; trace := trace w ++ [ev] |}, inr tt).

Definition set_db (d : Db) : M unit :=
  fun w => ({| db := d; session := session w; trace := trace w |}, inr tt).

Definition set_session (c : Cookies) : M unit :=
  fun w => ({| db := db w; session := c; trace := trace w |}, inr tt).

(** [for x in l: a = body(a, x)] *)
Fixpoint for_each {A B : Type} (body : A -> B -> M A) (a : A) (l : list B) : M A :=
  match l with
  | [] => ret a
  | x :: l' => a' <- body a x ;; for_each body a' l'
  end.

(** [for x in l: x = f(x)]: the elements rewritten one by one, left to
    right, until one raises *)
Fixpoint map_m {A B : Type} (f : A -> M B) (l : list A) : M (list B) :=
  match l with
  | [] => ret []
  | x :: l' => y <- f x ;; ys <- map_m f l' ;; ret (y :: ys)
  end.

(** [l[i]] *)
Definition item {A : Type} (i : nat) (l : list A) : M A :=
  match nth_error l i with
  | Some x => ret x
  | None => raise IndexError
  end.

(** An HTTP request: it is sent, then it answers or raises. *)
Definition http {A : Type} (ev : Event) (reply : option A) : M A :=
  emit ev ;;
  match reply with
  | Some r => ret r
  | None => raise RequestException
  end.

(** ** The store driver *)

Definition HOUR : Z := 3600 * 1000000.
Definition DAY : Z := 24 * HOUR.

(** [datetime.combine(t, datetime.min.time())]: midnight of the day of [t] *)
Definition midnight (t : Z) : Z := t - t mod DAY.

Definition accepted_since (today : Z) (l : LoadDoc) : bool :=
  String.eqb (status l) "accept" && (today <=? dt l).

(** [db.loads.find({"status": "accept", "dt": {"$gte": today}})] *)
Definition find_accepted (today : Z) : M (list LoadDoc) :=
  emit (FindAccepted today) ;;
  w <- get ;;
  ret (filter (accepted_since today) (loads (db w))).

(** BSON holds an [int] in 64 bits at most: the driver raises
    [OverflowError] where it encodes a larger one, before anything is sent
    to the store. *)
Definition fits_int64 (n : Z) : bool := (- 2 ^ 63 <=? n) && (n <? 2 ^ 63).

(** BSON holds a date as milliseconds: the microseconds below are cut. *)
Definition to_millis (t : Z) : Z := 1000 * (t / 1000).

(** [db.loads.find_one({"dsm": dsm})] *)
Definition find_load (n : Z) : M (option LoadDoc) :=
  if fits_int64 n then
    emit (FindLoad n) ;;
    w <- get ;;
    ret (find (fun l => dsm l =? n) (loads (db w)))
  else raise OverflowError.

(** The document [doc] as the store holds it. *)
Definition as_stored (doc : LoadDoc) : LoadDoc :=
  {| dsm := dsm doc;
     action_id := action_id doc;
     origin_loc := origin_loc doc;
     origin_dt := origin_dt doc;
     dest_loc := dest_loc doc;
     dest_dt := dest_dt doc;
     consignee := consignee doc;
     weight := weight doc;
     exc_ship_mode := exc_ship_mode doc;
     status := status doc;
     dt := to_millis (dt doc) |}.

(** The store takes the document [doc]. *)
Definition put_load (doc : LoadDoc) : M unit :=
  emit (InsertLoad doc) ;;
  w <- get ;;
  set_db {| settings_status := settings_status (db w);
            settings_threshold := settings_threshold (db w);
            settings_logic := settings_logic (db w);
            cache := cache (db w);
            loads := loads (db w) ++ [doc] |}.

(** [db.loads.insert_one(doc)] *)
Definition insert_load (doc : LoadDoc) : M unit :=
  if fits_int64 (dsm doc) && fits_int64 (weight doc)
  then put_load (as_stored doc)
  else raise OverflowError.

(** [db.settings.insert_one({"key": "status", "enabled": True})] *)
Definition insert_status : M unit :=
  emit InsertStatus ;;
  w <- get ;;
  set_db {| settings_status := Some true;
            settings_threshold := settings_threshold (db w);
            settings_logic := settings_logic (db w);
            cache := cache (db w);
            loads := loads (db w) |}.

(** [db.cache.update_one({"key": "cookies"}, {"$set": doc}, upsert=True)]:
    the date is kept to the millisecond. *)
Definition update_cache (doc : CacheDoc) : M unit :=
  let kept := {| cookies := cookies doc; cache_dt := to_millis (cache_dt doc) |} in
  emit (UpdateCache kept) ;;
  w <- get ;;
  set_db {| settings_status := settings_status (db w);
            settings_threshold := settings_threshold (db w);
            settings_logic := settings_logic (db w);
            cache := Some kept;
            loads := loads (db w) |}.

(** ** [watcher.py] *)

(** [WEIGHT_RE = re.compile(r"(\d+) lbs")] matched at the head of [s]: the
    digits of group 1.  The run of digits is taken whole: a shorter run is
    followed by a digit, never by the space. *)
Definition WEIGHT_RE_match (s : string) : option string :=
  let (d, r) := Py.span_digits s in
  if negb (Py.is_empty d) && Py.startswith " lbs" r then Some d else None.

(** [re.search(WEIGHT_RE, s)]: the leftmost match, as its group 1. *)
Fixpoint WEIGHT_RE_search (s : string) : option string :=
  match WEIGHT_RE_match s with
  | Some d => Some d
  | None =>
      match s with
      | EmptyString => None
      | String _ s' => WEIGHT_RE_search s'
      end
  end.

(** [db.cache.find_one({"key": "cookies"})] *)
Definition find_cache : M (option CacheDoc) :=
  emit FindCache ;;
  w <- get ;;
  ret (cache (db w)).

(** [login()]: the response sets cookies in the session, and the session's
    cookies are cached with the time of the login. *)
Definition login (tk : Tick) : M unit :=
  set_cookie <- http PostLogin (login_reply tk) ;;
  w <- get ;;
  set_session (dict_update (session w) set_cookie) ;;
  w <- get ;;
  update_cache {| cookies := session w;
                  cache_dt := utc_login tk |}.

(** [check_session()].  The test [(now - dt).total_seconds() / 3600 > 1]
    holds exactly when the difference, in microseconds, exceeds [HOUR]. *)
Definition check_session (tk : Tick) : M unit :=
  cache_doc <- find_cache ;;
  match cache_doc with
  | None => login tk
  | Some doc =>
      if utc_session tk - cache_dt doc >? HOUR
      then login tk
      else
        w <- get ;;
        match session w with
        | [] => set_session (dict_update (session w) (cookies doc))
        | _ :: _ => ret tt
        end
  end.

(** [accept_load(accept_data)]: a response that is not OK is logged. *)
Definition accept_load (tk : Tick) (accept_data : Dict Value) : M unit :=
  r_ok <- http (PostAccept
                  (dict_set "submit.y" (VInt 13)
                     (dict_set "submit.x" (VInt 30)
                        (dict_set "biddingLocationId" (VInt 227871)
                           (dict_set "postedByUserId" VNone accept_data)))))
               (accept_reply tk) ;;
  ret tt.

(** [check_accepted_load_threshold()]: the threshold less the loads
    accepted since midnight UTC; [threshold["threshold"]] raises [TypeError]
    when [find_one] found no document. *)
Definition check_accepted_load_threshold (tk : Tick) : M Z :=
  emit (FindSettings "load-threshold") ;;
  w <- get ;;
  let threshold := settings_threshold (db w) in
  let today := midnight (utc_quota tk) in
  accepted_loads <- find_accepted today ;;
  let accepted_loads_cnt := Z.of_nat (List.length accepted_loads) in
  match threshold with
  | None => raise TypeError
  | Some t => ret (t - accepted_loads_cnt)
  end.

(** A row once [entry[5] = weight] has run: the cells as they were read,
    and the number that now stands at index 5. *)
Record Entry : Type := {
  cells : list string;
  entry_weight : Z
}.

(** Lines 224-226, for one row. *)
Definition parse_weight (entry : list string) : M Entry :=
  cell5 <- item 5 entry ;;
  match WEIGHT_RE_search cell5 with
  | None => raise AttributeError
  | Some group1 =>
      match Py.int group1 with
      | None => raise ValueError
      | Some n => ret {| cells := entry; entry_weight := n |}
      end
  end.

(** [sorted(l, key=key)]: stable, ascending. *)
Fixpoint insert_by {A : Type} (key : A -> Z) (x : A) (l : list A) : list A :=
  match l with
  | [] => [x]
  | y :: l' => if key x <=? key y then x :: l else y :: insert_by key x l'
  end.

Definition sorted {A : Type} (key : A -> Z) (l : list A) : list A :=
  fold_right (insert_by key) [] l.

(** The rule check of lines 250-263. *)
Definition matches (logic : Logic) (dest consig mode : string) : bool :=
  existsb (fun d => Py.contains (Py.lower d) (Py.lower dest)) (destinations logic)
  && existsb (fun c => Py.contains (Py.lower c) (Py.lower consig)) (consignees logic)
  && existsb (fun s => Py.contains (Py.lower s) (Py.lower mode)) (ship_modes logic).

(** The literal of line 232, byte for byte. *)
Definition GREETING : string :=
  "Hey ðŸ‘‹ I just accepted these loads for ya ðŸ˜ƒ" ++ Py.nl ++ Py.nl.

(** The paragraph of the message for one load, lines 271-279. *)
Definition load_text (d : LoadDoc) : string :=
  "Origin Loc: `" ++ origin_loc d ++ "`" ++ Py.nl ++
  "Origin Date: `" ++ origin_dt d ++ "`" ++ Py.nl ++
  "Dest Loc: `" ++ dest_loc d ++ "`" ++ Py.nl ++
  "Dest Date: `" ++ dest_dt d ++ "`" ++ Py.nl ++
  "Consignee: `" ++ consignee d ++ "`" ++ Py.nl ++
  "Weight: `" ++ Py.str_of_int (weight d) ++ "`" ++ Py.nl ++
  "Exc Ship Mode: `" ++ exc_ship_mode d ++ "`" ++ Py.nl ++ Py.nl.

(** The variables the selection loop updates. *)
Record Selection : Type := {
  text : string;
  new_loads : Z;
  action_ids : list string
}.

(** The body of the loop of lines 235-296, for one entry. *)
Definition select_entry (tk : Tick) (remaining_loads : Z) (logic : option Logic)
    (sel : Selection) (entry : Entry) : M Selection :=
  cell0 <- item 0 (cells entry) ;;
  match Py.int cell0 with
  | None => raise ValueError
  | Some n =>
      known <- find_load n ;;
      match known with
      | Some _ => ret sel
      | None =>
          cell1 <- item 1 (cells entry) ;;
          let origin := Py.split " P:" cell1 in
          cell2 <- item 2 (cells entry) ;;
          let dest := Py.split " D:" cell2 in
          o_loc <- item 0 origin ;;
          o_dt <- item 1 origin ;;
          d_loc <- item 0 dest ;;
          d_dt <- item 1 dest ;;
          consig <- item 4 (cells entry) ;;
          mode <- item 6 (cells entry) ;;
          aid <- item 8 (cells entry) ;;
          match logic with
          | None => raise TypeError
          | Some rules =>
              if matches rules d_loc consig mode then
                if new_loads sel <? remaining_loads then
                  let doc := {| dsm := n;
                                action_id := aid;
                                origin_loc := o_loc;
                                origin_dt := o_dt;
                                dest_loc := d_loc;
                                dest_dt := d_dt;
                                consignee := consig;
                                weight := entry_weight entry;
                                exc_ship_mode := mode;
                                status := "accept";
                                dt := utc_insert tk (new_loads sel) |} in
                  insert_load doc ;;
                  ret {| text := text sel ++ load_text doc;
                         new_loads := new_loads sel + 1;
                         action_ids := action_ids sel ++ [aid] |}
                else ret sel
              else ret sel
          end
      end
  end.

(** Lines 298-316: one request for all the loads taken, one message. *)
Definition submit (tk : Tick) (accept_data : Dict Value) (sel : Selection) : M unit :=
  match new_loads sel =? 0, action_ids sel with
  | false, _ :: _ =>
      accept_load tk
        (fold_left (fun d aid => dict_set aid (VStr "accept") d)
           (action_ids sel) accept_data) ;;
      r_ok <- http (PostMessage (text sel)) (message_reply tk) ;;
      ret tt
  | _, _ => ret tt
  end.

(** Lines 222-316: what [check_loads] does with the rows it has read. *)
Definition take_loads (tk : Tick) (remaining_loads : Z)
    (accept_data : Dict Value) (data : list (list string)) : M unit :=
  match data with
  | [] => ret tt
  | _ :: _ =>
      parsed <- map_m parse_weight data ;;
      let data := sorted entry_weight parsed in
      emit (FindSettings "logic") ;;
      w <- get ;;
      let logic := settings_logic (db w) in
      sel <- for_each (select_entry tk remaining_loads logic)
               {| text := GREETING; new_loads := 0; action_ids := [] |} data ;;
      submit tk accept_data sel
  end.

(** Lines 164-316: the quota gate and all that follows it. *)
Definition watch (tk : Tick) : M (option string) :=
  remaining_loads <- check_accepted_load_threshold tk ;;
  if remaining_loads <=? 0 then ret (Some "Done")
  else
    check_session tk ;;
    r <- http GetOffers (offers_reply tk) ;;
    if negb (ok r) then ret None
    else take_loads tk remaining_loads (form_fields r) (rows r) ;; ret None.

(** [check_loads()]: the value returned is a [str] or [None]. *)
Definition check_loads (tk : Tick) : M (option string) :=
  if (hour (now_eastern tk) <? 6) || (hour (now_eastern tk) >? 18)
  then ret (Some "Outside of hours")
  else
    emit (FindSettings "status") ;;
    w <- get ;;
    match settings_status (db w) with
    | Some enabled =>
        if negb enabled then ret (Some "Disabled") else watch tk
    | None => insert_status ;; watch tk
    end.

(** The state of the process after some turns of [while True]: asleep
    between two calls, or ended by the exception that left [check_loads].
    [calls] counts the calls of [check_loads] made. *)
Inductive Process : Type :=
| Sleeping (w : World) (calls : nat)
| Ended (w : World) (e : Exn) (calls : nat).

(** The loop of lines 321-323, over the ticks of a run. *)
Fixpoint main_loop (ticks : list Tick) (w : World) (calls : nat) : Process :=
  match ticks with
  | [] => Sleeping w calls
  | tk :: later =>
      match check_loads tk w with
      | (w', inr _) => main_loop later w' (S calls)
      | (w', inl e) => Ended w' e (S calls)
      end
  end.

(** Calls of [check_loads] one after the other on the same store, whatever
    became of each: the world each call leaves is the one the next finds. *)
Fixpoint cycles (ticks : list Tick) (w : World) : World :=
  match ticks with
  | [] => w
  | tk :: later => cycles later (fst (check_loads tk w))
  end.

(** ** Notions the properties are stated with *)

(** Two characters are the same letter when they are equal, or when one is
    a capital of 'A'..'Z' and the other its small letter, 32 further on. *)
Definition same_letter (a b : ascii) : Prop :=
  let x := N_of_ascii a in
  let y := N_of_ascii b in
  x = y
  \/ ((65 <= x <= 90)%N /\ y = (x + 32)%N)
  \/ ((65 <= y <= 90)%N /\ x = (y + 32)%N).

(** Two texts read the same when case is ignored. *)
Inductive same_text : string -> string -> Prop :=
| same_empty : same_text EmptyString EmptyString
| same_char (a b : ascii) (p q : string) :
    same_letter a b -> same_text p q -> same_text (String a p) (String b q).

(** [p] occurs in [s] when case is ignored. *)
Definition ci_substring (p s : string) : Prop :=
  exists a m b : string, s = (a ++ m ++ b)%string /\ same_text p m.

(** Every pattern of the rules is ASCII text. *)
Definition ascii_rules (rules : Logic) : Prop :=
  Forall (fun p => Py.ascii_text p = true)
    (destinations rules ++ consignees rules ++ ship_modes rules).

(** [d] is a run of the digits '0'..'9', one at least. *)
Definition decimal (d : string) : Prop :=
  d <> EmptyString
  /\ Forall (fun c => (48 <= N_of_ascii c <= 57)%N) (list_ascii_of_string d).

(** [txt] holds a run of digits followed by one space and [lbs]. *)
Definition has_weight (txt : string) : Prop :=
  exists a d r : string, txt = (a ++ d ++ " lbs" ++ r)%string /\ decimal d.

(** The run of digits [d], one space and [lbs] stand in [txt] after [a],
    and nowhere before. *)
Definition leftmost_weight (txt a d r : string) : Prop :=
  txt = (a ++ d ++ " lbs" ++ r)%string /\ decimal d
  /\ forall a' d' r' : string,
       txt = (a' ++ d' ++ " lbs" ++ r')%string -> decimal d' ->
       (String.length a <= String.length a')%nat.

(** The number that a run of decimal digits writes. *)
Definition digits_value (d : string) : Z :=
  fold_left (fun acc c => 10 * acc + (Z.of_N (N_of_ascii c) - 48))
    (list_ascii_of_string d) 0.

(** The pattern the specification names, [(\d+)\s*lbs], matched at the head
    of [s]: any run of white space may part the digits from [lbs]. *)
Definition spec_WEIGHT_match (s : string) : option string :=
  let (d, r) := Py.span_digits s in
  if negb (Py.is_empty d) && Py.startswith "lbs" (Py.lstrip r) then Some d else None.

Fixpoint spec_WEIGHT_search (s : string) : option string :=
  match spec_WEIGHT_match s with
  | Some d => Some d
  | None =>
      match s with
      | EmptyString => None
      | String _ s' => spec_WEIGHT_search s'
      end
  end.

(** The window the specification names: a time of day is outside it before
    06:00 and after 18:00. *)
Definition spec_outside_hours (t : Time) : bool :=
  let s := (hour t * 60 + minute t) * 60 + second t in
  (s <? 6 * 3600) || (18 * 3600 <? s).

(** The loads accepted since the midnight [today], as the quota counts them. *)
Definition accepted_count (today : Z) (w : World) : Z :=
  Z.of_nat (List.length (filter (accepted_since today) (loads (db w)))).

(** The loads accepted within the day that starts at [today]. *)
Definition accepted_on_day (today : Z) (w : World) : Z :=
  Z.of_nat (List.length
    (filter (fun l => accepted_since today l && (dt l <? today + DAY))
       (loads (db w)))).

(** The documents of [db.loads] that carry the id [n]. *)
Definition records_of (n : Z) (w : World) : list LoadDoc :=
  filter (fun l => dsm l =? n) (loads (db w)).

(** The login requests among the operations [tr]. *)
Fixpoint logins (tr : list Event) : nat :=
  match tr with
  | [] => O
  | PostLogin :: tr' => S (logins tr')
  | _ :: tr' => logins tr'
  end.

(** The ids looked up in [db.loads], in the order of the lookups. *)
Fixpoint looked_up (tr : list Event) : list Z :=
  match tr with
  | [] => []
  | FindLoad n :: tr' => n :: looked_up tr'
  | _ :: tr' => looked_up tr'
  end.

(** The cached cookies are missing or more than an hour old. *)
Definition stale (tk : Tick) (w : World) : bool :=
  match cache (db w) with
  | None => true
  | Some doc => utc_session tk - cache_dt doc >? HOUR
  end.

(** The id of an entry, when its first cell reads as an [int]. *)
Definition entry_id (e : Entry) : option Z :=
  match nth_error (cells e) 0 with
  | Some c => Py.int c
  | None => None
  end.

(** Every call of [check_loads] over [ticks] returns. *)
Fixpoint all_return (ticks : list Tick) (w : World) : Prop :=
  match ticks with
  | [] => True
  | tk :: later =>
      match check_loads tk w with
      | (w', inr _) => all_return later w'
      | (_, inl _) => False
      end
  end.

(** Hoare triples of the monad: from a world in [P], [m] returns [a] in a
    world of [Q a], or raises in a world of [E]. *)
Definition hoare {A : Type} (P : World -> Prop) (m : M A)
    (Q : A -> World -> Prop) (E : World -> Prop) : Prop :=
  forall w, P w ->
    match m w with
    | (w', inr a) => Q a w'
    | (w', inl _) => E w'
    end.

(** [m] moves the world along the relation [R], whether it returns or
    raises. *)
Definition along {A : Type} (R : World -> World -> Prop) (m : M A) : Prop :=
  forall w, R w (fst (m w)).

(** What a call may do to the world: the threshold and the rules stay, the
    loads and the operations performed are added to. *)
Definition grows (w w' : World) : Prop :=
  settings_threshold (db w') = settings_threshold (db w)
  /\ settings_logic (db w') = settings_logic (db w)
  /\ (exists new, loads (db w') = loads (db w) ++ new)
  /\ (exists evs, trace w' = trace w ++ evs).

(** A load whose id is on record stays on record as it is, once and no
    more. *)
Definition keeps_records (n : Z) (w w' : World) : Prop :=
  records_of n w <> [] -> records_of n w' = records_of n w.

(** The world once [ev] is performed, and once [doc] is inserted. *)
Definition logged (ev : Event) (w : World) : World := fst (emit ev w).

Definition stored (doc : LoadDoc) (w : World) : World := fst (put_load doc w).

Definition calls_made (p : Process) : nat :=
  match p with Sleeping _ n => n | Ended _ _ n => n end.

Definition ended_by (p : Process) : option Exn :=
  match p with Sleeping _ _ => None | Ended _ e _ => Some e end.

(** ** A market, a store and a few ticks to run the watcher on *)

Definition demo_rules : Logic :=
  {| destinations := ["greensboro"; "charlotte"];
     consignees := ["coilplus"];
     ship_modes := ["coil"] |}.

Definition demo_db (enabled : option bool) (threshold : option Z) : Db :=
  {| settings_status := enabled;
     settings_threshold := threshold;
     settings_logic := Some demo_rules;
     cache := None;
     loads := [] |}.

Definition demo_world (enabled : option bool) (threshold : option Z) : World :=
  {| db := demo_db enabled threshold; session := []; trace := [] |}.

(** A row of the listing: id, origin, destination, pieces, consignee,
    weight, ship mode, equipment, action token. *)
Definition demo_row (id weight_text : string) : list string :=
  [id; "Pittsburgh PA P:01/02 08:00"; "Greensboro NC D:01/03 09:30"; "12";
   "CoilPlus Inc"; weight_text; "Coil Flatbed"; "48 ft";
   ("action" ++ id)%string].

(** Noon UTC of 2023-11-14, in microseconds. *)
Definition demo_noon : Z := 1699963200000000.

Definition demo_tick (h m : Z) (data : list (list string)) : Tick :=
  {| now_eastern := {| hour := h; minute := m; second := 0 |};
     utc_quota := demo_noon;
     utc_session := demo_noon + 1;
     utc_login := demo_noon + 2;
     utc_insert := fun n => demo_noon + 3 + n;
     login_reply := Some [("JSESSIONID", "0A1B2C")];
     offers_reply :=
       Some {| ok := true;
               form_fields := [("initialized", VBool true); ("refreshLoads", VBool false)];
               rows := data |};
     accept_reply := Some true;
     message_reply := Some true |}.

(** The number of documents in [db.loads]. *)
Definition load_count (w : World) : Z := Z.of_nat (List.length (loads (db w))).

(** A call that leaves the quota's data as they are. *)
Definition same_quota (w w' : World) : Prop :=
  loads (db w') = loads (db w)
  /\ settings_threshold (db w') = settings_threshold (db w).

(** The invariant of the selection loop, for a call that found [c0] loads
    accepted since [today] among [n0] documents and computed [remaining]:
    the loads taken so far are within [remaining], and every document added
    is one of them. *)
Definition within (today thr c0 n0 remaining : Z) (sel : Selection) (w : World)
  : Prop :=
  settings_threshold (db w) = Some thr
  /\ 0 <= new_loads sel <= remaining
  /\ accepted_count today w <= c0 + new_loads sel
  /\ load_count w = n0 + new_loads sel.

(** What holds when that call is over, however it ends. *)
Definition bounded (today thr c0 n0 remaining : Z) (w : World) : Prop :=
  settings_threshold (db w) = Some thr
  /\ accepted_count today w <= c0 + remaining
  /\ n0 <= load_count w <= n0 + remaining.

(** The order [sorted] puts a list in. *)
Definition ascending {A : Type} (key : A -> Z) (a b : A) : Prop := key a <= key b.

(** The store once load 7001 has been taken. *)
Definition demo_taken : World :=
  fst (check_loads (demo_tick 9 0 [demo_row "7001" "100 lbs"])
         (demo_world (Some true) (Some 5))).

(** Load 7001 as the listing shows it later, cut short after the weight. *)
Definition demo_short_row : list string :=
  ["7001"; "Pittsburgh PA"; "Greensboro NC"; "12"; "CoilPlus Inc"; "100 lbs"].

(** ** More built-ins on strings *)

Module PyText.

(** [s.split()]: the runs of characters that are not white space, in order.
    [cur] holds the run being read. *)
Fixpoint words_go (cur s : string) : list string :=
  match s with
  | EmptyString => if Py.is_empty cur then [] else [cur]
  | String c s' =>
      if Py.is_space c
      then if Py.is_empty cur
           then words_go EmptyString s'
           else cur :: words_go EmptyString s'
      else words_go (cur ++ String c EmptyString) s'
  end.

Definition words (s : string) : list string := words_go EmptyString s.

(** [sep.join(l)] *)
Fixpoint join (sep : string) (l : list string) : string :=
  match l with
  | [] => EmptyString
  | x :: l' =>
      match l' with
      | [] => x
      | _ :: _ => x ++ sep ++ join sep l'
      end
  end.

(** [s.replace(c, "")] for a string [c] of one character *)
Fixpoint delete_char (c : ascii) (s : string) : string :=
  match s with
  | EmptyString => EmptyString
  | String a s' =>
      if Ascii.eqb a c then delete_char c s' else String a (delete_char c s')
  end.

(** No character of [s] is white space. *)
Fixpoint no_space (s : string) : bool :=
  match s with
  | EmptyString => true
  | String c s' => negb (Py.is_space c) && no_space s'
  end.

End PyText.

(** ** The listing page, as [BeautifulSoup] hands it to lines 176-220 *)

(** An [<input>]: its [name] and [value] attributes, [None] when missing. *)
Record InputEl : Type := {
  input_name : option string;
  input_value : option string
}.

(** A tag among the children of a [<tr>]: [attrs.get("class")], the inputs
    [find_all("input")] finds in it, and [get_text()]. *)
Record TagEl : Type := {
  tag_class : option (list string);
  tag_inputs : list InputEl;
  tag_text : string
}.

(** A child of a [<tr>]: a string of the document, which has no [attrs], or
    a tag. *)
Inductive Node : Type :=
| Text (s : string)
| Tag (e : TagEl).

(** Lines 211-214: the text of a cell, stripped, its newlines deleted, its
    words joined by single spaces. *)
Definition cell_text (raw : string) : string :=
  let text := PyText.delete_char "010" (Py.strip raw) in
  PyText.join " "
    (map Py.strip
       (filter (fun t => negb (Py.is_empty (Py.strip t))) (PyText.words text))).

(** The truth value of a [str] or [None]. *)
Definition truthy (o : option string) : bool :=
  match o with
  | Some s => negb (Py.is_empty s)
  | None => false
  end.

(** Lines 196-216, for one child that is a tag: the cell it adds to the
    row, if any. *)
Definition data_cell (e : TagEl) : option string :=
  match tag_class e with
  | Some (c :: cs) =>
      if existsb (fun c' => Py.contains "data" c') (c :: cs) then
        let action :=
          match tag_inputs e with
          | i :: _ =>
              match input_value i with
              | Some v => if String.eqb v "accept" then input_name i else None
              | None => None
              end
          | [] => None
          end in
        if truthy action then action
        else
          let text := cell_text (tag_text e) in
          if Py.is_empty text then None else Some text
      else None
  | Some [] => None
  | None => None
  end.

(** Lines 194-216: the cells of one [<tr>]. *)
Definition data_row (tr : list Node) : list string :=
  flat_map (fun e =>
              match e with
              | Text _ => []
              | Tag t => match data_cell t with Some c => [c] | None => [] end
              end) tr.

(** Lines 192-220: the rows of the listing; a [<tr>] without cells gives
    none. *)
Definition extract_rows (elems : list (list Node)) : list (list string) :=
  filter (fun row => match row with [] => false | _ :: _ => true end)
    (map data_row elems).

(** One of the classes of the tag [t] holds the text "data". *)
Definition has_data_class (t : TagEl) : Prop :=
  exists (cs : list string) (cls a b : string),
    tag_class t = Some cs /\ In cls cs /\ cls = (a ++ "data" ++ b)%string.

(** The first input of the tag [t] has the value "accept" and the name
    [nm], which is not empty. *)
Definition offers_action (t : TagEl) (nm : string) : Prop :=
  exists (i : InputEl) (rest : list InputEl),
    tag_inputs t = i :: rest /\ input_value i = Some "accept"
    /\ input_name i = Some nm /\ nm <> EmptyString.

(** The cell that the tag [t] is read as: the name of its action, or else
    its text in normal form when that is not empty. *)
Definition cell_of (t : TagEl) (c : string) : Prop :=
  offers_action t c
  \/ ((forall nm, ~ offers_action t nm)
      /\ c = cell_text (tag_text t) /\ c <> EmptyString).

(** The hidden-field map as lines 179-190 build it: its keys are the
    [name]s of the inputs, [None] for an input without one. *)
Definition Fields : Type := list (option string * Value).

Definition key_eqb (a b : option string) : bool :=
  match a, b with
  | Some x, Some y => String.eqb x y
  | None, None => true
  | _, _ => false
  end.

(** [accept_data[name] = value] *)
Fixpoint fields_set (k : option string) (v : Value) (d : Fields) : Fields :=
  match d with
  | [] => [(k, v)]
  | (k', v') :: d' =>
      if key_eqb k k' then (k, v) :: d' else (k', v') :: fields_set k v d'
  end.

(** [accept_data.get(name)] *)
Fixpoint fields_get (k : option string) (d : Fields) : option Value :=
  match d with
  | [] => None
  | (k', v') :: d' => if key_eqb k k' then Some v' else fields_get k d'
  end.

(** Lines 185-188: "true" and "false" become booleans. *)
Definition coerce (value : option string) : Value :=
  match value with
  | None => VNone
  | Some v =>
      if String.eqb v "true" then VBool true
      else if String.eqb v "false" then VBool false
      else VStr v
  end.

(** Lines 179-190, over the inputs of each form. *)
Definition extract_fields (form_elems : list (list InputEl)) : Fields :=
  fold_left
    (fun acc form =>
       fold_left
         (fun acc' i => fields_set (input_name i) (coerce (input_value i)) acc')
         form acc)
    form_elems [].

(** [d.get(k)] on a [dict] with [str] keys *)
Fixpoint dict_get {V : Type} (k : string) (d : Dict V) : option V :=
  match d with
  | [] => None
  | (k', v') :: d' => if String.eqb k k' then Some v' else dict_get k d'
  end.

(** ** [bot.py]: the commands of the operator *)

Module Bot.

(** [db.settings.update_one({"key": "status"}, {"$set": {"enabled": b}})]:
    without [upsert], a missing document stays missing. *)
Definition set_enabled (b : bool) (d : Db) : Db :=
  match settings_status d with
  | Some _ =>
      {| settings_status := Some b;
         settings_threshold := settings_threshold d;
         settings_logic := settings_logic d;
         cache := cache d;
         loads := loads d |}
  | None => d
  end.

(** [db.settings.update_one({"key": "logic"}, {"$set": ...})], likewise. *)
Definition set_logic (f : Logic -> Logic) (d : Db) : Db :=
  match settings_logic d with
  | Some rules =>
      {| settings_status := settings_status d;
         settings_threshold := settings_threshold d;
         settings_logic := Some (f rules);
         cache := cache d;
         loads := loads d |}
  | None => d
  end.

(** Each handler gives the store it leaves and the text it replies. *)
Definition disable (d : Db) : Db * string :=
  (set_enabled false d, "Load watching disabled ❌").

Definition enable (d : Db) : Db * string :=
  (set_enabled true d, "Load watching enabled ✅").

(** [status]: [status_doc.get] raises [AttributeError] on [None]. *)
Definition status (d : Db) : Exn + string :=
  match settings_status d with
  | None => inl AttributeError
  | Some enabled =>
      inr ("Current status: " ++
           (if enabled then "enabled ✅" else "disabled ❌"))%string
  end.

Definition updateDestinations (args : list string) (d : Db) : Db * string :=
  match args with
  | [] =>
      (d, "Please provide destinations. Example: /updateDestinations greensboro charlotte harrisburg")
  | _ :: _ =>
      (set_logic (fun rules => {| destinations := map Py.strip args;
                                  consignees := consignees rules;
                                  ship_modes := ship_modes rules |}) d,
       "Destination logic updated")
  end.

Definition updateConsignees (args : list string) (d : Db) : Db * string :=
  match args with
  | [] => (d, "Please provide consignees. Example: /updateConsignees coilplus")
  | _ :: _ =>
      (set_logic (fun rules => {| destinations := destinations rules;
                                  consignees := map Py.strip args;
                                  ship_modes := ship_modes rules |}) d,
       "Consignees logic updated")
  end.

Definition updateShipModes (args : list string) (d : Db) : Db * string :=
  match args with
  | [] => (d, "Please provide ship modes. Example: /updateShipModes coil")
  | _ :: _ =>
      (set_logic (fun rules => {| destinations := destinations rules;
                                  consignees := consignees rules;
                                  ship_modes := map Py.strip args |}) d,
       "Ship modes logic updated")
  end.

(** The commands that write to the store, and [status], which reads it. *)
Inductive Command : Type :=
| Disable
| Enable
| Status
| UpdateDestinations (args : list string)
| UpdateConsignees (args : list string)
| UpdateShipModes (args : list string).

(** The store a command leaves. *)
Definition handle (d : Db) (c : Command) : Db :=
  match c with
  | Disable => fst (disable d)
  | Enable => fst (enable d)
  | Status => d
  | UpdateDestinations args => fst (updateDestinations args d)
  | UpdateConsignees args => fst (updateConsignees args d)
  | UpdateShipModes args => fst (updateShipModes args d)
  end.

End Bot.

(** A character of ASCII that is white space: tab to carriage return, the
    four separators, the space. *)
Definition white (c : ascii) : Prop :=
  let n := N_of_ascii c in (9 <= n <= 13)%N \/ (28 <= n <= 32)%N.

(** [t] is [s] with the white space taken off at both ends. *)
Definition trimmed (s t : string) : Prop :=
  exists l r : string,
    s = (l ++ t ++ r)%string
    /\ Forall white (list_ascii_of_string l)
    /\ Forall white (list_ascii_of_string r)
    /\ (forall c t', t = String c t' -> ~ white c)
    /\ (forall t' c, t = (t' ++ String c EmptyString)%string -> ~ white c).

(** The process of the watcher on the store [d]. *)
Definition on_store (d : Db) (w : World) : World :=
  {| db := d; session := session w; trace := trace w |}.

(** The HTTP requests among the operations [tr]. *)
Fixpoint requests (tr : list Event) : list Event :=
  match tr with
  | [] => []
  | PostLogin :: tr' => PostLogin :: requests tr'
  | GetOffers :: tr' => GetOffers :: requests tr'
  | PostAccept data :: tr' => PostAccept data :: requests tr'
  | PostMessage text :: tr' => PostMessage text :: requests tr'
  | _ :: tr' => requests tr'
  end.

(** The ids in [db.loads] are all different. *)
Definition distinct_ids (w : World) : Prop := NoDup (map dsm (loads (db w))).

(** From [w] to [w'] the ids stay all different. *)
Definition keeps_distinct (w w' : World) : Prop := distinct_ids w -> distinct_ids w'.

(** [doc] is an accepted load that the rules let through. *)
Definition lets_through (rules : Logic) (doc : LoadDoc) : Prop :=
  status doc = "accept"
  /\ matches rules (dest_loc doc) (consignee doc) (exc_ship_mode doc) = true.

(** From [w] to [w'] the status document is as it was, or was missing and
    is now there, enabled. *)
Definition status_kept (w w' : World) : Prop :=
  settings_status (db w') = settings_status (db w)
  \/ (settings_status (db w) = None /\ settings_status (db w') = Some true).

(** The form data [accept_load] posts when the loads with the action
    tokens [ids] are taken. *)
Definition accept_payload (accept_data : Dict Value) (ids : list string)
  : Dict Value :=
  dict_set "submit.y" (VInt 13)
    (dict_set "submit.x" (VInt 30)
       (dict_set "biddingLocationId" (VInt 227871)
          (dict_set "postedByUserId" VNone
             (fold_left (fun d aid => dict_set aid (VStr "accept") d)
                ids accept_data)))).

(** The message that tells of the loads [new]. *)
Definition message_text (new : list LoadDoc) : string :=
  fold_left (fun t d => (t ++ load_text d)%string) new GREETING.

(** [doc] is a load the selection loop takes when it starts in [w0] under
    [logic]: accepted, let through by the rules, its id not on record in
    [w0]. *)
Definition taken_from (w0 : World) (logic : option Logic) (doc : LoadDoc) : Prop :=
  (exists rules, logic = Some rules /\ lets_through rules doc)
  /\ records_of (dsm doc) w0 = [].

(** The selection loop, started in [w0] under [logic], has recorded the
    loads [new] and sent nothing yet. *)
Definition recorded (w0 : World) (logic : option Logic) (new : list LoadDoc)
    (w : World) : Prop :=
  loads (db w) = loads (db w0) ++ new
  /\ Forall (taken_from w0 logic) new
  /\ requests (trace w) = requests (trace w0).

(** Its variables tell of the same loads. *)
Definition selected (w0 : World) (logic : option Logic) (sel : Selection)
    (w : World) : Prop :=
  exists new,
    recorded w0 logic new w
    /\ action_ids sel = map action_id new
    /\ new_loads sel = Z.of_nat (List.length new)
    /\ text sel = message_text new.

(** The accept request and the message that tell of the loads [new]. *)
Definition accept_request (accept_data : Dict Value) (new : list LoadDoc) : Event :=
  PostAccept (accept_payload accept_data (map action_id new)).

Definition message_request (new : list LoadDoc) : Event :=
  PostMessage (message_text new).

(** Requests of the session and of the fetch only. *)
Definition before_rows (reqs : list Event) : Prop :=
  Forall (fun ev => ev = PostLogin \/ ev = GetOffers) reqs.

(** From [w] to [w'] the loads are as they were and [pre] are the requests
    sent, none of them an accept request or a message. *)
Definition opened (w : World) (pre : list Event) (w' : World) : Prop :=
  loads (db w') = loads (db w)
  /\ requests (trace w') = requests (trace w) ++ pre
  /\ before_rows pre.

(** The forms posted among the operations [tr]. *)
Fixpoint posted (tr : list Event) : list (Dict Value) :=
  match tr with
  | [] => []
  | PostAccept data :: tr' => data :: posted tr'
  | _ :: tr' => posted tr'
  end.

(** A page whose form holds, besides a hidden field, the inputs of the
    rows of loads 7001 and 7002, and the tick that reads it. *)
Definition demo_inputs : list InputEl :=
  [ {| input_name := Some "initialized"; input_value := Some "true" |};
    {| input_name := Some "action7001"; input_value := Some "accept" |};
    {| input_name := Some "action7002"; input_value := Some "accept" |} ].

Definition demo_form : Dict Value :=
  [("initialized", VBool true); ("action7001", VStr "accept");
   ("action7002", VStr "accept")].

Definition demo_page_tick (h m : Z) : Tick :=
  {| now_eastern := {| hour := h; minute := m; second := 0 |};
     utc_quota := demo_noon;
     utc_session := demo_noon + 1;
     utc_login := demo_noon + 2;
     utc_insert := fun n => demo_noon + 3 + n;
     login_reply := Some [("JSESSIONID", "0A1B2C")];
     offers_reply :=
       Some {| ok := true;
               form_fields := demo_form;
               rows := [demo_row "7001" "100 lbs"; demo_row "7002" "90 lbs"] |};
     accept_reply := Some true;
     message_reply := Some true |}.

(** * Properties *)

(** ** The built-ins on examples *)

Example lower_example : Py.lower "Greensboro NC" = "greensboro nc".
Proof. reflexivity. Qed.

Example int_example :
  Py.int " 35_399_211 " = Some 35399211 /\ Py.int "-07" = Some (-7)
  /\ Py.int "12a" = None /\ Py.int "N/A" = None /\ Py.int "1__2" = None.
Proof. repeat split; reflexivity. Qed.

Example split_example :
  Py.split " P:" "Mill Rd P:01/02 08:00" = ["Mill Rd"; "01/02 08:00"]
  /\ Py.split " P:" "Mill Rd" = ["Mill Rd"]
  /\ Py.split "aa" "aaaXaa" = [EmptyString; "aX"; EmptyString].
Proof. repeat split; reflexivity. Qed.

Example search_example :
  WEIGHT_RE_search "Weight: 4200 lbs extra" = Some "4200"
  /\ WEIGHT_RE_search "12a 340 lbs" = Some "340"
  /\ WEIGHT_RE_search "4200lbs" = None
  /\ spec_WEIGHT_search "4200lbs" = Some "4200".
Proof. repeat split; reflexivity. Qed.

Example matches_example :
  matches demo_rules "Greensboro NC" "CoilPlus Inc" "Coil Flatbed" = true
  /\ matches demo_rules "Raleigh NC" "CoilPlus Inc" "Coil Flatbed" = false.
Proof. split; reflexivity. Qed.

(** ** Strings *)

Lemma append_assoc3 (a b c : string) : ((a ++ b) ++ c)%string = (a ++ b ++ c)%string.
Proof. induction a as [|x a IH]; simpl; [reflexivity | now rewrite IH]. Qed.

Lemma length_app_string (a b : string) :
  String.length (a ++ b) = (String.length a + String.length b)%nat.
Proof. induction a as [|c a IH]; simpl; [reflexivity | now rewrite IH]. Qed.

Lemma startswith_app (p r : string) : Py.startswith p (p ++ r) = true.
Proof.
  induction p as [|a p IH]; simpl; [reflexivity|].
  now rewrite Ascii.eqb_refl, IH.
Qed.

Lemma startswith_inv (p s : string) :
  Py.startswith p s = true -> exists r : string, s = (p ++ r)%string.
Proof.
  revert s; induction p as [|a p IH]; intros s H.
  - now exists s.
  - destruct s as [|b s]; simpl in H; [discriminate|].
    apply andb_true_iff in H as [Hab Hp].
    apply Ascii.eqb_eq in Hab; subst b.
    destruct (IH s Hp) as [r ->]. now exists r.
Qed.

Lemma startswith_iff (p s : string) :
  Py.startswith p s = true <-> exists r : string, s = (p ++ r)%string.
Proof.
  split; [apply startswith_inv|]. intros [r ->]. apply startswith_app.
Qed.

Lemma contains_head (p s : string) :
  Py.startswith p s = true -> Py.contains p s = true.
Proof. intros H. destruct s; simpl; now rewrite H. Qed.

Lemma contains_iff (p s : string) :
  Py.contains p s = true <-> exists a b : string, s = (a ++ p ++ b)%string.
Proof.
  split.
  - induction s as [|c s IH]; simpl; intros H.
    + rewrite orb_false_r in H. apply startswith_inv in H as [r Hr].
      now exists EmptyString, r.
    + apply orb_true_iff in H as [H|H].
      * apply startswith_inv in H as [r Hr]. now exists EmptyString, r.
      * destruct (IH H) as (a & b & ->). now exists (String c a), b.
  - intros (a & b & ->). induction a as [|c a IH]; simpl.
    + apply contains_head, startswith_app.
    + rewrite IH. apply orb_true_r.
Qed.

(** ** Case *)

Lemma lower_char_same (a b : ascii) :
  Py.lower_char a = Py.lower_char b <-> same_letter a b.
Proof.
  unfold Py.lower_char, same_letter.
  pose proof (N_ascii_bounded a) as Ba. pose proof (N_ascii_bounded b) as Bb.
  pose proof (ascii_N_embedding a) as Ea. pose proof (ascii_N_embedding b) as Eb.
  remember (N_of_ascii a) as x eqn:Hxa. remember (N_of_ascii b) as y eqn:Hyb.
  cbv zeta.
  assert (Hup : forall n, ((65 <=? n) && (n <=? 90))%N = true <-> (65 <= n <= 90)%N).
  { intros n. rewrite andb_true_iff, !N.leb_le. tauto. }
  assert (Hemb : forall n, (n < 256)%N -> N_of_ascii (ascii_of_N n) = n)
    by apply N_ascii_embedding.
  split.
  - destruct ((65 <=? x) && (x <=? 90))%N eqn:Hx, ((65 <=? y) && (y <=? 90))%N eqn:Hy;
      try apply Hup in Hx; try apply Hup in Hy; intros H.
    + apply (f_equal N_of_ascii) in H. rewrite !Hemb in H by lia. left. lia.
    + right; left. split; [exact Hx|]. rewrite Hyb, <- H. apply Hemb. lia.
    + right; right. split; [exact Hy|]. rewrite Hxa, H. apply Hemb. lia.
    + left. rewrite Hxa, Hyb. now rewrite H.
  - intros [H|[[Hx H]|[Hy H]]].
    + assert (Hab : a = b) by congruence. rewrite H, Hab. reflexivity.
    + rewrite (proj2 (Hup x) Hx).
      destruct ((65 <=? y) && (y <=? 90))%N eqn:Hy; [apply Hup in Hy; lia|].
      rewrite <- Eb. now f_equal.
    + rewrite (proj2 (Hup y) Hy).
      destruct ((65 <=? x) && (x <=? 90))%N eqn:Hx; [apply Hup in Hx; lia|].
      rewrite <- Ea. now f_equal.
Qed.

Lemma lower_same (p q : string) : Py.lower p = Py.lower q <-> same_text p q.
Proof.
  split.
  - revert q. induction p as [|a p IH]; intros [|b q] H; try discriminate H.
    + constructor.
    + cbn [Py.lower] in H. injection H as Hc Hs.
      constructor; [now apply lower_char_same | now apply IH].
  - induction 1 as [|a b p q Hab _ IH]; [reflexivity|].
    cbn [Py.lower]. apply lower_char_same in Hab. now rewrite Hab, IH.
Qed.

Lemma lower_app (a b : string) : Py.lower (a ++ b) = (Py.lower a ++ Py.lower b)%string.
Proof. induction a as [|c a IH]; cbn; [reflexivity | now rewrite IH]. Qed.

Lemma lower_split (s x y : string) :
  Py.lower s = (x ++ y)%string ->
  exists a b : string, s = (a ++ b)%string /\ Py.lower a = x /\ Py.lower b = y.
Proof.
  revert s. induction x as [|c x IH]; intros s H.
  - now exists EmptyString, s.
  - destruct s as [|c' s]; [discriminate H|].
    cbn [Py.lower String.append] in H. injection H as Hc Hs.
    destruct (IH s Hs) as (a & b & -> & Ha & Hb).
    exists (String c' a), b. cbn [Py.lower String.append]. now rewrite Hc, Ha.
Qed.

(** [p.lower() in s.lower()] holds exactly when [p] occurs in [s] with
    case ignored. *)
Lemma contains_lower (p s : string) :
  Py.contains (Py.lower p) (Py.lower s) = true <-> ci_substring p s.
Proof.
  rewrite contains_iff. unfold ci_substring. split.
  - intros (x & z & H). apply lower_split in H as (a & rest & -> & _ & H).
    apply lower_split in H as (m & b & -> & Hm & _).
    exists a, m, b. split; [reflexivity|]. now apply lower_same.
  - intros (a & m & b & -> & H). apply lower_same in H.
    exists (Py.lower a), (Py.lower b). now rewrite !lower_app, H.
Qed.

Lemma existsb_contains (pats : list string) (s : string) :
  existsb (fun p => Py.contains (Py.lower p) (Py.lower s)) pats = true
  <-> exists p, In p pats /\ ci_substring p s.
Proof.
  rewrite existsb_exists.
  split; intros (p & Hin & H); exists p; split; auto; now apply contains_lower.
Qed.


(** ** The weight pattern *)

Lemma digit_not_space (c : ascii) : Py.is_digit c = true -> Py.is_space c = false.
Proof. destruct c as [[] [] [] [] [] [] [] []]; simpl; intros H; first [discriminate H | reflexivity]. Qed.

Lemma digit_not_sign (c : ascii) :
  Py.is_digit c = true -> Ascii.eqb c "-" = false /\ Ascii.eqb c "+" = false.
Proof. destruct c as [[] [] [] [] [] [] [] []]; simpl; intros H; first [discriminate H | split; reflexivity]. Qed.

Lemma span_digits_split (s : string) :
  s = (fst (Py.span_digits s) ++ snd (Py.span_digits s))%string
  /\ Py.all_digits (fst (Py.span_digits s)) = true.
Proof.
  induction s as [|c s [IH1 IH2]]; simpl; [now split|].
  destruct (Py.is_digit c) eqn:Hc; simpl; [|now split].
  destruct (Py.span_digits s) as [d r]; simpl in *. rewrite Hc, IH2.
  split; [now rewrite <- IH1 | reflexivity].
Qed.

Lemma span_digits_app (d r : string) (c : ascii) :
  Py.all_digits d = true -> Py.is_digit c = false ->
  Py.span_digits (d ++ String c r) = (d, String c r).
Proof.
  intros Hd Hc. induction d as [|a d IH]; simpl in *.
  - now rewrite Hc.
  - apply andb_true_iff in Hd as [Ha Hd]. now rewrite Ha, (IH Hd).
Qed.

Lemma is_empty_false (d : string) : Py.is_empty d = false <-> d <> EmptyString.
Proof. destruct d; simpl; split; congruence. Qed.

(** The pattern matches at the head of [s] exactly when [s] begins with a
    non-empty run of digits that [" lbs"] follows; group 1 is that run. *)
Lemma WEIGHT_RE_match_iff (s d : string) :
  WEIGHT_RE_match s = Some d <->
  d <> EmptyString /\ Py.all_digits d = true /\
  exists r : string, s = (d ++ " lbs" ++ r)%string.
Proof.
  unfold WEIGHT_RE_match. split.
  - destruct (span_digits_split s) as [Hs Hd].
    destruct (Py.span_digits s) as [d0 r0]; cbn [fst snd] in *.
    destruct (Py.is_empty d0) eqn:He; cbn [negb andb]; [discriminate|].
    destruct (Py.startswith " lbs" r0) eqn:Hp; [|discriminate].
    intros [= <-]. apply is_empty_false in He.
    apply startswith_inv in Hp as [r ->]. eauto.
  - intros (Hne & Hd & r & ->).
    change (" lbs" ++ r)%string with (String " " ("lbs" ++ r)).
    rewrite span_digits_app by (auto; reflexivity).
    apply is_empty_false in Hne. now rewrite Hne.
Qed.

Lemma WEIGHT_RE_search_cons (c : ascii) (s : string) :
  WEIGHT_RE_search (String c s) =
  match WEIGHT_RE_match (String c s) with
  | Some d => Some d
  | None => WEIGHT_RE_search s
  end.
Proof. reflexivity. Qed.

Lemma WEIGHT_RE_search_head (s d : string) :
  WEIGHT_RE_match s = Some d -> WEIGHT_RE_search s = Some d.
Proof.
  intros H. destruct s as [|c s]; [discriminate H|].
  now rewrite WEIGHT_RE_search_cons, H.
Qed.

Lemma WEIGHT_RE_search_sound (s d : string) :
  WEIGHT_RE_search s = Some d ->
  d <> EmptyString /\ Py.all_digits d = true /\
  exists a r : string, s = (a ++ d ++ " lbs" ++ r)%string.
Proof.
  induction s as [|c s IH]; [discriminate|].
  rewrite WEIGHT_RE_search_cons.
  - destruct (WEIGHT_RE_match (String c s)) eqn:E.
    + intros [= ->]. apply WEIGHT_RE_match_iff in E as (? & ? & r & Hr).
      repeat split; auto. now exists EmptyString, r.
    + intros H. destruct (IH H) as (? & ? & a & r & ->).
      repeat split; auto. now exists (String c a), r.
Qed.

Lemma all_digits_iff (d : string) :
  Py.all_digits d = true
  <-> Forall (fun c => (48 <= N_of_ascii c <= 57)%N) (list_ascii_of_string d).
Proof.
  induction d as [|c d IH]; cbn [Py.all_digits list_ascii_of_string].
  - split; [constructor | reflexivity].
  - rewrite andb_true_iff, IH. unfold Py.is_digit. cbv zeta.
    rewrite andb_true_iff, !N.leb_le. split.
    + intros [Hc Hd]. now constructor.
    + intros H. inversion H; subst. auto.
Qed.

Lemma decimal_iff (d : string) :
  decimal d <-> d <> EmptyString /\ Py.all_digits d = true.
Proof. unfold decimal. now rewrite all_digits_iff. Qed.

Lemma WEIGHT_RE_search_complete (s : string) :
  has_weight s -> exists d : string, WEIGHT_RE_search s = Some d.
Proof.
  intros (a & d & r & -> & Hdec). apply decimal_iff in Hdec as [Hne Hd].
  assert (E : WEIGHT_RE_match (d ++ " lbs" ++ r) = Some d).
  { apply WEIGHT_RE_match_iff. repeat split; auto. now exists r. }
  revert E. generalize (d ++ " lbs" ++ r)%string. intros t E.
  induction a as [|c a [d' IH]]; cbn [String.append].
  - exists d. now apply WEIGHT_RE_search_head.
  - rewrite WEIGHT_RE_search_cons.
    destruct (WEIGHT_RE_match (String c (a ++ t))); eauto.
Qed.

Lemma WEIGHT_RE_search_none (s : string) :
  WEIGHT_RE_search s = None <-> ~ has_weight s.
Proof.
  split.
  - intros H Hw. apply WEIGHT_RE_search_complete in Hw as [d Hd]. congruence.
  - intros H. destruct (WEIGHT_RE_search s) as [d|] eqn:E; [|reflexivity].
    exfalso. apply H. apply WEIGHT_RE_search_sound in E as (Hne & Hd & a & r & ->).
    exists a, d, r. split; [reflexivity|]. now apply decimal_iff.
Qed.

(** ** The leftmost match *)

Lemma search_past (a t d : string) :
  WEIGHT_RE_match t = Some d ->
  (forall a1 a2 : string, a = (a1 ++ a2)%string -> a2 <> EmptyString ->
     WEIGHT_RE_match (a2 ++ t) = None) ->
  WEIGHT_RE_search (a ++ t) = Some d.
Proof.
  intros Hm. induction a as [|c a IH]; intros Hno.
  - now apply WEIGHT_RE_search_head.
  - cbn [String.append]. rewrite WEIGHT_RE_search_cons.
    pose proof (Hno EmptyString (String c a) eq_refl) as H0.
    cbn [String.append] in H0. rewrite H0 by discriminate.
    apply IH. intros a1 a2 -> Hne. now apply (Hno (String c a1) a2).
Qed.

Lemma leftmost_search (txt a d r : string) :
  leftmost_weight txt a d r -> WEIGHT_RE_search txt = Some d.
Proof.
  intros (-> & Hdec & Hleft). apply decimal_iff in Hdec as [Hne Hd].
  apply search_past.
  - apply WEIGHT_RE_match_iff. repeat split; auto. now exists r.
  - intros a1 a2 -> Hne2.
    destruct (WEIGHT_RE_match (a2 ++ d ++ " lbs" ++ r)) as [d'|] eqn:E; [|reflexivity].
    exfalso. apply WEIGHT_RE_match_iff in E as (Hne' & Hd' & r' & Hr').
    specialize (Hleft a1 d' r'). rewrite append_assoc3, Hr' in Hleft.
    specialize (Hleft eq_refl (proj2 (decimal_iff d') (conj Hne' Hd'))).
    rewrite length_app_string in Hleft.
    destruct a2; [contradiction | cbn in Hleft; lia].
Qed.

Lemma search_is_leftmost (s d : string) :
  WEIGHT_RE_search s = Some d -> exists a r : string, leftmost_weight s a d r.
Proof.
  induction s as [|c s IH]; [discriminate|].
  rewrite WEIGHT_RE_search_cons.
  destruct (WEIGHT_RE_match (String c s)) as [d0|] eqn:E.
  - intros [= ->]. apply WEIGHT_RE_match_iff in E as (Hne & Hd & r & Hr).
    exists EmptyString, r. split; [exact Hr|]. split; [now apply decimal_iff|].
    intros a' d' r' _ _. cbn. lia.
  - intros H. destruct (IH H) as (a & r & Hs & Hdec & Hleft).
    exists (String c a), r. split; [rewrite Hs; reflexivity|]. split; [exact Hdec|].
    intros a' d' r' Heq Hdec'. destruct a' as [|c' a'].
    + cbn [String.append] in Heq. apply decimal_iff in Hdec' as [Hne' Hd'].
      assert (Hm : WEIGHT_RE_match (String c s) = Some d').
      { apply WEIGHT_RE_match_iff. repeat split; auto. now exists r'. }
      congruence.
    + cbn [String.append] in Heq. injection Heq as _ Heq.
      cbn [String.length]. apply le_n_S. now apply (Hleft a' d' r').
Qed.

(** ** [int] on a run of digits *)

Lemma digit_not_c_space (c : ascii) : Py.is_digit c = true -> Py.is_c_space c = false.
Proof. destruct c as [[] [] [] [] [] [] [] []]; simpl; intros H; first [discriminate H | reflexivity]. Qed.

Lemma int_rstrip_digits (d : string) : Py.all_digits d = true -> Py.int_rstrip d = d.
Proof.
  induction d as [|c d IH]; simpl; [reflexivity|].
  intros H. apply andb_true_iff in H as [Hc Hd].
  now rewrite (digit_not_c_space c Hc), (IH Hd).
Qed.

Lemma digit_count_digits (d : string) :
  Py.all_digits d = true -> Py.digit_count d = Z.of_nat (String.length d).
Proof.
  induction d as [|c d IH]; [reflexivity|].
  cbn [Py.all_digits Py.digit_count String.length]. intros H.
  apply andb_true_iff in H as [Hc Hd]. rewrite Hc, (IH Hd). lia.
Qed.

Lemma int_digits_value (d : string) (acc : Z) (seen : bool) :
  Py.all_digits d = true -> seen = true \/ d <> EmptyString ->
  Py.int_digits acc seen d
  = Some (fold_left (fun a c => 10 * a + (Z.of_N (N_of_ascii c) - 48))
            (list_ascii_of_string d) acc).
Proof.
  revert acc seen. induction d as [|c d IH]; simpl; intros acc seen Hd Hs.
  - destruct Hs as [->|Hs]; [reflexivity | congruence].
  - apply andb_true_iff in Hd as [Hc Hd]. rewrite Hc. apply IH; auto.
Qed.

(** [int] reads a run of digits as the number it writes, unless the run is
    longer than the limit. *)
Lemma int_of_digits (d : string) :
  Py.all_digits d = true -> d <> EmptyString ->
  Py.int d = if Py.MAX_STR_DIGITS <? Z.of_nat (String.length d) then None
             else Some (digits_value d).
Proof.
  intros Hd Hne. unfold Py.int. rewrite (int_rstrip_digits d Hd).
  pose proof (digit_count_digits d Hd) as Hcount.
  destruct d as [|c d]; [congruence|].
  pose proof Hd as Hd'. simpl in Hd'. apply andb_true_iff in Hd' as [Hc Hd'].
  cbn [Py.int_lstrip]. rewrite (digit_not_c_space c Hc), Hcount.
  destruct (Py.MAX_STR_DIGITS <? Z.of_nat (String.length (String c d))); [reflexivity|].
  destruct (digit_not_sign c Hc) as [-> ->].
  apply (int_digits_value (String c d) 0 false Hd). right. discriminate.
Qed.

(** ** Reading the weights is pure *)

Lemma parse_weight_world (row : list string) (w : World) :
  fst (parse_weight row w) = w.
Proof.
  unfold parse_weight, bind, item.
  destruct (nth_error row 5) as [txt|]; simpl; [|reflexivity].
  destruct (WEIGHT_RE_search txt) as [g|]; simpl; [|reflexivity].
  destruct (Py.int g); reflexivity.
Qed.

Lemma parse_weights_world (data : list (list string)) (w : World) :
  fst (map_m parse_weight data w) = w.
Proof.
  induction data as [|row data IH]; simpl; [reflexivity|].
  unfold bind at 1. pose proof (parse_weight_world row w) as H.
  destruct (parse_weight row w) as [w1 [e|y]]; simpl in *; subst w1; [reflexivity|].
  unfold bind. destruct (map_m parse_weight data w) as [w2 [e|ys]]; simpl in *; now subst.
Qed.

Lemma parse_weights_raise (before after : list (list string)) (row : list string)
    (e : Exn) (w : World) :
  parse_weight row w = (w, inl e) ->
  exists e', map_m parse_weight (before ++ row :: after) w = (w, inl e').
Proof.
  intros Hrow. induction before as [|r before [e' IH]]; simpl.
  - unfold bind at 1. rewrite Hrow. eauto.
  - unfold bind at 1. pose proof (parse_weight_world r w) as H.
    destruct (parse_weight r w) as [w1 [e1|y]]; simpl in *; subst w1; [eauto|].
    unfold bind. rewrite IH. eauto.
Qed.

(** C5 (as the code has it). The weight of a row is read from its cell 5,
    ASCII text, with the pattern [(\d+) lbs]: digits, one space, [lbs].
    The text "Weight: 4200 lbs extra" gives 4200.  The weight is the number
    written by the digits of the leftmost place where the pattern stands,
    and a text that holds the pattern has such a place; a run of more
    digits than [int] takes raises [ValueError].  A text that lacks the
    pattern makes [parse_weight] raise [AttributeError], and the processing
    of the rows then raises before it touches the store: the row is not
    skipped. *)
Theorem weight_of_row (row : list string) (txt : string) (w : World) :
  nth_error row 5 = Some txt ->
  Py.ascii_text txt = true ->
  (txt = "Weight: 4200 lbs extra" ->
     parse_weight row w = (w, inr {| cells := row; entry_weight := 4200 |}))
  /\ (forall a d r,
        leftmost_weight txt a d r ->
        parse_weight row w
        = (w, if Py.MAX_STR_DIGITS <? Z.of_nat (String.length d)
              then inl ValueError
              else inr {| cells := row; entry_weight := digits_value d |}))
  /\ (has_weight txt -> exists a d r, leftmost_weight txt a d r)
  /\ (~ has_weight txt ->
      parse_weight row w = (w, inl AttributeError)
      /\ forall tk remaining accept_data before after,
           exists e, take_loads tk remaining accept_data (before ++ row :: after) w
                     = (w, inl e)).
Proof.
  intros Hcell _. unfold parse_weight, bind, item. rewrite Hcell. simpl.
  split; [|split; [|split]].
  - intros ->. reflexivity.
  - intros a d r Hleft. rewrite (leftmost_search _ _ _ _ Hleft).
    destruct Hleft as (_ & Hdec & _). apply decimal_iff in Hdec as [Hne Hd].
    rewrite (int_of_digits d Hd Hne).
    destruct (Py.MAX_STR_DIGITS <? Z.of_nat (String.length d)); reflexivity.
  - intros Hw. destruct (WEIGHT_RE_search_complete txt Hw) as [d Hd].
    destruct (search_is_leftmost txt d Hd) as (a & r & H). now exists a, d, r.
  - intros Hw. apply WEIGHT_RE_search_none in Hw.
    assert (Hrow : parse_weight row w = (w, inl AttributeError)).
    { unfold parse_weight, bind, item. rewrite Hcell. simpl. now rewrite Hw. }
    rewrite Hw. split; [reflexivity|].
    intros tk remaining accept_data before after.
    destruct (parse_weights_raise before after row _ w Hrow) as [e He].
    exists e. unfold take_loads.
    destruct (before ++ row :: after) eqn:E; [destruct before; discriminate|].
    unfold bind at 1. now rewrite He.
Qed.

(** ** Reasoning about computations of [M] *)

Section Triples.
Context {A B : Type}.

Lemma hoare_ret (P : World -> Prop) (a : A) (Q : A -> World -> Prop) (E : World -> Prop) :
  (forall w, P w -> Q a w) -> hoare P (ret a) Q E.
Proof. intros H w Hw. now apply H. Qed.

Lemma hoare_raise (P : World -> Prop) (e : Exn) (Q : A -> World -> Prop) (E : World -> Prop) :
  (forall w, P w -> E w) -> hoare P (raise e) Q E.
Proof. intros H w Hw. now apply H. Qed.

Lemma hoare_bind (P : World -> Prop) (m : M A) (f : A -> M B)
    (R : A -> World -> Prop) (Q : B -> World -> Prop) (E : World -> Prop) :
  hoare P m R E -> (forall a, hoare (R a) (f a) Q E) -> hoare P (bind m f) Q E.
Proof.
  intros Hm Hf w Hw. unfold bind. specialize (Hm w Hw).
  destruct (m w) as [w1 [e|a]]; [exact Hm|]. now apply Hf.
Qed.

Lemma hoare_weaken (P P' : World -> Prop) (m : M A)
    (Q Q' : A -> World -> Prop) (E E' : World -> Prop) :
  hoare P m Q E ->
  (forall w, P' w -> P w) -> (forall a w, Q a w -> Q' a w) -> (forall w, E w -> E' w) ->
  hoare P' m Q' E'.
Proof.
  intros H HP HQ HE w Hw. specialize (H w (HP w Hw)).
  destruct (m w) as [w1 [e|a]]; auto.
Qed.

End Triples.

Lemma hoare_for_each {A B : Type} (I : A -> World -> Prop) (E : World -> Prop)
    (body : A -> B -> M A) (l : list B) :
  (forall a x, In x l -> hoare (I a) (body a x) I E) ->
  forall a, hoare (I a) (for_each body a l) I E.
Proof.
  induction l as [|x l IH]; intros Hbody a; simpl.
  - now apply hoare_ret.
  - apply hoare_bind with (R := I).
    + apply Hbody. now left.
    + intros a'. apply IH. intros a0 y Hy. apply Hbody. now right.
Qed.

Section Along.
Variable R : World -> World -> Prop.
Hypothesis R_refl : forall w, R w w.
Hypothesis R_trans : forall w1 w2 w3, R w1 w2 -> R w2 w3 -> R w1 w3.

Lemma along_ret {A : Type} (a : A) : along R (ret a).
Proof. intros w. apply R_refl. Qed.

Lemma along_raise {A : Type} (e : Exn) : along R (@raise A e).
Proof. intros w. apply R_refl. Qed.

Lemma along_get : along R get.
Proof. intros w. apply R_refl. Qed.

Lemma along_bind {A B : Type} (m : M A) (f : A -> M B) :
  along R m -> (forall a, along R (f a)) -> along R (bind m f).
Proof.
  intros Hm Hf w. unfold bind. specialize (Hm w).
  destruct (m w) as [w1 [e|a]]; simpl in *; [exact Hm|].
  eapply R_trans; [exact Hm | apply Hf].
Qed.

Lemma along_item {A : Type} (i : nat) (l : list A) : along R (item i l).
Proof. unfold item. destruct (nth_error l i); [apply along_ret | apply along_raise]. Qed.

Lemma along_for_each {A B : Type} (body : A -> B -> M A) (l : list B) :
  (forall a x, along R (body a x)) -> forall a, along R (for_each body a l).
Proof.
  intros Hbody. induction l as [|x l IH]; intros a; simpl.
  - apply along_ret.
  - apply along_bind; [apply Hbody | exact IH].
Qed.

Lemma along_map_m {A B : Type} (f : A -> M B) (l : list A) :
  (forall x, along R (f x)) -> along R (map_m f l).
Proof.
  intros Hf. induction l as [|x l IH]; simpl.
  - apply along_ret.
  - apply along_bind; [apply Hf|]. intros y.
    apply along_bind; [exact IH|]. intros ys. apply along_ret.
Qed.

(** The primitive steps are given; the watcher follows. *)
Hypothesis R_emit : forall ev, along R (emit ev).
Hypothesis R_session : forall c, along R (set_session c).
Hypothesis R_status : along R insert_status.
Hypothesis R_cache : forall doc, along R (update_cache doc).
Hypothesis R_insert : forall doc,
  forall w, find (fun l => dsm l =? dsm doc) (loads (db w)) = None ->
            R w (fst (insert_load doc w)).

Ltac along_steps :=
  repeat first
    [ apply along_ret | apply along_raise | apply along_get | apply along_item
    | apply R_emit | apply R_session | apply R_status | apply R_cache
    | apply along_bind; [|intros ?]
    | match goal with
      | |- along _ (match ?x with _ => _ end) => destruct x
      end ].

Lemma along_http {A : Type} (ev : Event) (reply : option A) : along R (http ev reply).
Proof. unfold http. along_steps. Qed.

Lemma along_login (tk : Tick) : along R (login tk).
Proof. unfold login. apply along_bind; [apply along_http|]. intros c. along_steps. Qed.

Lemma along_check_session (tk : Tick) : along R (check_session tk).
Proof.
  unfold check_session, find_cache.
  apply along_bind; [along_steps|]. intros [doc|]; [|apply along_login].
  destruct (utc_session tk - cache_dt doc >? HOUR); [apply along_login|].
  along_steps.
Qed.

Lemma along_threshold (tk : Tick) : along R (check_accepted_load_threshold tk).
Proof. unfold check_accepted_load_threshold, find_accepted. along_steps. Qed.

Lemma along_parse_weight (row : list string) : along R (parse_weight row).
Proof. unfold parse_weight. along_steps. Qed.

Lemma along_select_entry (tk : Tick) (remaining : Z) (logic : option Logic)
    (sel : Selection) (e : Entry) :
  along R (select_entry tk remaining logic sel e).
Proof.
  intros w. unfold select_entry. unfold bind at 1. unfold item at 1.
  destruct (nth_error (cells e) 0) as [c0|]; cbn [ret raise fst]; [|apply R_refl].
  destruct (Py.int c0) as [n|]; [|apply R_refl].
  pose proof (R_emit (FindLoad n) w) as H1.
  unfold bind at 1. unfold find_load.
  destruct (fits_int64 n); [|apply R_refl]. unfold bind at 1.
  destruct (emit (FindLoad n) w) as [w1 [e1|[]]] eqn:E1; [discriminate E1|].
  cbn [fst] in H1. unfold bind at 1. unfold get, ret. cbn [fst snd].
  destruct (find (fun l => dsm l =? n) (loads (db w1))) as [d|] eqn:Hfind;
    [exact H1|].
  eapply R_trans; [exact H1|]. clear E1 H1.
  repeat (unfold bind at 1; unfold item at 1;
          match goal with
          | |- context [nth_error ?l ?i] => destruct (nth_error l i)
          end; cbn [ret raise fst]; [|apply R_refl]).
  destruct logic as [rules|]; [|apply R_refl].
  match goal with
  | |- context [matches ?r ?a ?b ?c] => destruct (matches r a b c)
  end; [|apply R_refl].
  destruct (new_loads sel <? remaining); [|apply R_refl].
  unfold bind.
  match goal with
  | |- context [insert_load ?d w1] =>
      pose proof (R_insert d w1 Hfind) as H2;
      destruct (insert_load d w1) as [w2 [e2|[]]]
  end; exact H2.
Qed.
Lemma along_submit (tk : Tick) (accept_data : Dict Value) (sel : Selection) :
  along R (submit tk accept_data sel).
Proof.
  unfold submit. destruct (new_loads sel =? 0); [apply along_ret|].
  destruct (action_ids sel); [apply along_ret|].
  unfold accept_load.
  repeat first [apply along_http | apply along_ret | apply along_bind; [|intros ?]].
Qed.

Lemma along_take_loads (tk : Tick) (remaining : Z) (accept_data : Dict Value)
    (data : list (list string)) :
  along R (take_loads tk remaining accept_data data).
Proof.
  unfold take_loads. destruct data as [|row data]; [apply along_ret|].
  apply along_bind; [apply along_map_m, along_parse_weight|]. intros parsed.
  apply along_bind; [apply R_emit|]. intros _.
  apply along_bind; [apply along_get|]. intros w1.
  apply along_bind; [|intros sel; apply along_submit].
  apply along_for_each. intros sel e. apply along_select_entry.
Qed.

Lemma along_watch (tk : Tick) : along R (watch tk).
Proof.
  unfold watch. apply along_bind; [apply along_threshold|]. intros remaining.
  destruct (remaining <=? 0); [apply along_ret|].
  apply along_bind; [apply along_check_session|]. intros _.
  apply along_bind; [apply along_http|]. intros r.
  destruct (negb (ok r)); [apply along_ret|].
  apply along_bind; [apply along_take_loads|]. intros _. apply along_ret.
Qed.

Lemma along_check_loads (tk : Tick) : along R (check_loads tk).
Proof.
  unfold check_loads.
  destruct ((hour (now_eastern tk) <? 6) || (hour (now_eastern tk) >? 18));
    [apply along_ret|].
  apply along_bind; [apply R_emit|]. intros _.
  apply along_bind; [apply along_get|]. intros w1.
  destruct (settings_status (db w1)) as [enabled|].
  - destruct (negb enabled); [apply along_ret | apply along_watch].
  - apply along_bind; [apply R_status|]. intros _. apply along_watch.
Qed.

Lemma along_cycles (ticks : list Tick) (w : World) : R w (cycles ticks w).
Proof.
  revert w. induction ticks as [|tk ticks IH]; intros w; simpl.
  - apply R_refl.
  - eapply R_trans; [apply along_check_loads | apply IH].
Qed.
End Along.

(** ** What an insertion does *)

(** The document is encoded or the call raises; encoded, it is added as the
    store holds it. *)
Lemma insert_load_world (doc : LoadDoc) (w : World) :
  fst (insert_load doc w)
  = if fits_int64 (dsm doc) && fits_int64 (weight doc)
    then stored (as_stored doc) w else w.
Proof.
  unfold insert_load, stored.
  destruct (fits_int64 (dsm doc) && fits_int64 (weight doc)); reflexivity.
Qed.

(** ** What every call leaves as it is *)

Lemma grows_refl (w : World) : grows w w.
Proof.
  repeat split; try reflexivity; exists []; now rewrite app_nil_r.
Qed.

Lemma grows_trans (w1 w2 w3 : World) : grows w1 w2 -> grows w2 w3 -> grows w1 w3.
Proof.
  intros (Ht & Hl & [n1 Hn] & [e1 He]) (Ht' & Hl' & [n2 Hn'] & [e2 He']).
  repeat split; try congruence.
  - exists (n1 ++ n2). now rewrite Hn', Hn, app_assoc.
  - exists (e1 ++ e2). now rewrite He', He, app_assoc.
Qed.

Lemma grows_emit (ev : Event) : along grows (emit ev).
Proof.
  intros w. repeat split; try reflexivity.
  - exists []. simpl. now rewrite app_nil_r.
  - now exists [ev].
Qed.

Lemma grows_session (c : Cookies) : along grows (set_session c).
Proof.
  intros w. repeat split; try reflexivity; exists []; simpl; now rewrite app_nil_r.
Qed.

Lemma grows_status : along grows insert_status.
Proof.
  intros w. repeat split; try reflexivity.
  - exists []. simpl. now rewrite app_nil_r.
  - now exists [InsertStatus].
Qed.

Lemma grows_cache (doc : CacheDoc) : along grows (update_cache doc).
Proof.
  intros w. repeat split; try reflexivity.
  - exists []. simpl. now rewrite app_nil_r.
  - eexists [_]. reflexivity.
Qed.

Lemma grows_insert (doc : LoadDoc) (w : World) :
  find (fun l => dsm l =? dsm doc) (loads (db w)) = None ->
  grows w (fst (insert_load doc w)).
Proof.
  intros _. rewrite insert_load_world.
  destruct (fits_int64 (dsm doc) && fits_int64 (weight doc)); [|apply grows_refl].
  repeat split; try reflexivity.
  - now exists [as_stored doc].
  - now exists [InsertLoad (as_stored doc)].
Qed.

Ltac grows_steps :=
  first [ exact grows_refl | exact grows_trans | exact grows_emit
        | exact grows_session | exact grows_status | exact grows_cache
        | exact grows_insert ].

Lemma watch_grows (tk : Tick) (w : World) : grows w (fst (watch tk w)).
Proof.
  apply along_watch; grows_steps.
Qed.

Lemma check_loads_grows (tk : Tick) (w : World) : grows w (fst (check_loads tk w)).
Proof.
  apply along_check_loads; grows_steps.
Qed.

(** ** The gate of the hours *)

Lemma entered_gate (tk : Tick) (w : World) :
  (hour (now_eastern tk) <? 6) || (hour (now_eastern tk) >? 18) = false ->
  exists evs,
    trace (fst (check_loads tk w)) = trace w ++ FindSettings "status" :: evs.
Proof.
  intros Hh. unfold check_loads. rewrite Hh.
  unfold bind at 1. cbn [emit]. unfold bind at 1. cbn [get].
  set (w1 := {| db := db w; session := session w;
                trace := trace w ++ [FindSettings "status"] |}).
  assert (Hgo : forall m : M (option string),
             grows w1 (fst (m w1)) ->
             exists evs, trace (fst (m w1)) = trace w ++ FindSettings "status" :: evs).
  { intros m (_ & _ & _ & [evs He]). exists evs. rewrite He. subst w1. simpl.
    now rewrite <- app_assoc. }
  destruct (settings_status (db w1)) as [enabled|].
  - destruct (negb enabled).
    + apply (Hgo (ret (Some "Disabled"))), grows_refl.
    + apply Hgo, watch_grows.
  - apply (Hgo (insert_status ;; watch tk)).
    apply along_bind; try grows_steps.
    intros _ w2. apply watch_grows.
Qed.

(** C4 (as the code has it). [check_loads] returns "Outside of hours", having
    touched neither the store nor the network, exactly when the hour of the
    clock in US/Eastern is below 6 or above 18: every time from 06:00:00 to
    18:59:59 is inside.  Inside, the call goes on to read the status
    document. *)
Theorem outside_hours_gate (tk : Tick) (w : World) :
  (check_loads tk w = (w, inr (Some "Outside of hours"))
   <-> hour (now_eastern tk) < 6 \/ 18 < hour (now_eastern tk))
  /\ (6 <= hour (now_eastern tk) <= 18 ->
      exists evs,
        trace (fst (check_loads tk w)) = trace w ++ FindSettings "status" :: evs).
Proof.
  destruct ((hour (now_eastern tk) <? 6) || (hour (now_eastern tk) >? 18)) eqn:Hh.
  - assert (Hout : hour (now_eastern tk) < 6 \/ 18 < hour (now_eastern tk)).
    { apply orb_true_iff in Hh as [H|H]; [left; now apply Z.ltb_lt | right].
      apply Z.gtb_lt in H. lia. }
    split; [|lia]. split; [now intros _|]. intros _.
    unfold check_loads. now rewrite Hh.
  - assert (Hin : 6 <= hour (now_eastern tk) <= 18).
    { apply orb_false_iff in Hh as [H1 H2]. apply Z.ltb_ge in H1.
      rewrite Z.gtb_ltb in H2. apply Z.ltb_ge in H2. lia. }
    split; [|intros _; now apply entered_gate].
    split; [|lia]. intros Heq. exfalso.
    destruct (entered_gate tk w Hh) as [evs He]. rewrite Heq in He. simpl in He.
    apply (f_equal (@List.length Event)) in He.
    rewrite length_app in He. simpl in He. lia.
Qed.

(** C4, as stated, fails at 18:30: the time is outside 06:00-18:00, yet the
    call is not skipped, it reads the status document and returns
    "Disabled". *)
Lemma half_past_six_pm_is_served :
  spec_outside_hours (now_eastern (demo_tick 18 30 [])) = true
  /\ check_loads (demo_tick 18 30 []) (demo_world (Some false) (Some 2))
     = (logged (FindSettings "status") (demo_world (Some false) (Some 2)),
        inr (Some "Disabled")).
Proof. split; reflexivity. Qed.

Lemma outside_hours_gate_witness :
  exists evs,
    trace (fst (check_loads (demo_tick 18 30 []) (demo_world (Some false) (Some 2))))
    = trace (demo_world (Some false) (Some 2)) ++ FindSettings "status" :: evs.
Proof.
  apply (proj2 (outside_hours_gate (demo_tick 18 30 [])
                  (demo_world (Some false) (Some 2)))).
  simpl. lia.
Defined.

(** ** The loop *)

Lemma main_loop_returns (ticks : list Tick) (w : World) (n : nat) :
  all_return ticks w ->
  main_loop ticks w n = Sleeping (cycles ticks w) (n + List.length ticks).
Proof.
  revert w n. induction ticks as [|tk ticks IH]; intros w n Hall; simpl in *.
  - now rewrite Nat.add_0_r.
  - destruct (check_loads tk w) as [w1 [e|r]]; [contradiction|].
    rewrite (IH w1 (S n) Hall). simpl. f_equal. lia.
Qed.

(** A fetch that is answered, not OK, ends the call without an exception. *)
Lemma refused_fetch_returns (tk : Tick) (w w1 w2 : World) (remaining : Z)
    (r : Response) :
  check_accepted_load_threshold tk w = (w1, inr remaining) ->
  0 < remaining ->
  check_session tk w1 = (w2, inr tt) ->
  offers_reply tk = Some r ->
  ok r = false ->
  watch tk w = (logged GetOffers w2, inr None).
Proof.
  intros Hq Hrem Hs Hreply Hok. unfold watch. unfold bind at 1. rewrite Hq.
  destruct (remaining <=? 0) eqn:E; [apply Z.leb_le in E; lia|].
  unfold bind at 1. rewrite Hs. unfold bind at 1. unfold http, bind, emit, logged.
  rewrite Hreply. cbn. rewrite Hok. reflexivity.
Qed.

(** Nor does a submission or a message that is answered, whatever the
    answer. *)
Lemma answered_submit_returns (tk : Tick) (accept_data : Dict Value)
    (sel : Selection) (w : World) :
  accept_reply tk <> None -> message_reply tk <> None ->
  snd (submit tk accept_data sel w) = inr tt.
Proof.
  intros Ha Hm. unfold submit. destruct (new_loads sel =? 0); [reflexivity|].
  destruct (action_ids sel); [reflexivity|].
  unfold accept_load, http, bind, emit, ret.
  destruct (accept_reply tk); [|contradiction].
  destruct (message_reply tk); [|contradiction]. reflexivity.
Qed.

(** C6 (as the code has it). [main_loop] has no handler: while every call
    of [check_loads] returns, the loop goes on, one call per tick; the first
    call that raises ends the process with that exception, and the ticks
    after it are never served.  A fetch, a submission or a message that is
    answered with a failure is no exception: the call logs it and
    returns. *)
Theorem main_loop_outcome (before later : list Tick) (tk : Tick) (w w' : World)
    (e : Exn) (n : nat) :
  all_return before w ->
  check_loads tk (cycles before w) = (w', inl e) ->
  main_loop before w n = Sleeping (cycles before w) (n + List.length before)
  /\ main_loop (before ++ tk :: later) w n = Ended w' e (n + List.length before + 1)
  /\ (forall t w0 w1 w2 remaining r,
        check_accepted_load_threshold t w0 = (w1, inr remaining) ->
        0 < remaining ->
        check_session t w1 = (w2, inr tt) ->
        offers_reply t = Some r -> ok r = false ->
        watch t w0 = (logged GetOffers w2, inr None))
  /\ (forall t accept_data sel w0,
        accept_reply t <> None -> message_reply t <> None ->
        snd (submit t accept_data sel w0) = inr tt).
Proof.
  intros Hall Hraise. split; [now apply main_loop_returns|].
  split; [|split; [exact refused_fetch_returns | exact answered_submit_returns]].
  revert w n Hall Hraise. induction before as [|t before IH]; intros w n Hall Hraise; simpl in *.
  - rewrite Hraise. f_equal. lia.
  - destruct (check_loads t w) as [w1 [e1|r]]; [contradiction|].
    simpl in Hraise. rewrite (IH w1 (S n) Hall Hraise). f_equal. lia.
Qed.

(** C6, as stated, fails: a row whose weight cell lacks the pattern makes
    the first call raise; the process ends after that one call and the tick
    that follows is never served. *)
Lemma loop_ends_on_first_exception :
  ended_by (main_loop [demo_tick 9 0 [demo_row "7001" "heavy"]; demo_tick 9 5 []]
              (demo_world (Some true) (Some 2)) 0) = Some AttributeError
  /\ calls_made (main_loop [demo_tick 9 0 [demo_row "7001" "heavy"]; demo_tick 9 5 []]
                   (demo_world (Some true) (Some 2)) 0) = 1%nat.
Proof. split; vm_compute; reflexivity. Qed.

Lemma main_loop_outcome_witness :
  main_loop ([] ++ demo_tick 9 0 [demo_row "7001" "heavy"] :: [demo_tick 9 5 []])
    (demo_world (Some true) (Some 2)) 0
  = Ended (fst (check_loads (demo_tick 9 0 [demo_row "7001" "heavy"])
                  (demo_world (Some true) (Some 2))))
      AttributeError (0 + 0 + 1).
Proof.
  apply (fun Hall Hraise =>
           proj1 (proj2 (main_loop_outcome [] [demo_tick 9 5 []]
                           (demo_tick 9 0 [demo_row "7001" "heavy"])
                           (demo_world (Some true) (Some 2)) _ _ 0 Hall Hraise))).
  - exact I.
  - vm_compute. reflexivity.
Defined.

(** ** Dictionaries *)

Lemma dict_get_set {V : Type} (k k' : string) (v : V) (d : Dict V) :
  dict_get k (dict_set k' v d) = if String.eqb k k' then Some v else dict_get k d.
Proof.
  induction d as [|[a b] d IH]; cbn [dict_set dict_get]; [reflexivity|].
  destruct (String.eqb k' a) eqn:Ea; cbn [dict_get].
  - apply String.eqb_eq in Ea. subst a. destruct (String.eqb k k'); reflexivity.
  - rewrite IH. destruct (String.eqb k a) eqn:Eka; [|reflexivity].
    apply String.eqb_eq in Eka. subst a.
    destruct (String.eqb k k') eqn:Ekk; [|reflexivity].
    apply String.eqb_eq in Ekk. subst k'. rewrite String.eqb_refl in Ea. discriminate.
Qed.

Lemma dict_get_app {V : Type} (k : string) (a b : Dict V) :
  dict_get k (a ++ b)
  = match dict_get k a with Some v => Some v | None => dict_get k b end.
Proof.
  induction a as [|[k' v'] a IH]; cbn [app dict_get]; [reflexivity|].
  destruct (String.eqb k k'); [reflexivity | exact IH].
Qed.

(** After [d.update(other)] a key reads as [other] has it, its last
    binding there, and as [d] had it when [other] has none. *)
Lemma dict_get_update {V : Type} (k : string) (d other : Dict V) :
  dict_get k (dict_update d other)
  = match dict_get k (rev other) with Some v => Some v | None => dict_get k d end.
Proof.
  unfold dict_update. revert d.
  induction other as [|[k' v'] other IH]; intros d; cbn [fold_left rev fst snd];
    [reflexivity|].
  rewrite IH, dict_get_app, dict_get_set. cbn [dict_get].
  destruct (dict_get k (rev other)); [reflexivity|].
  destruct (String.eqb k k'); reflexivity.
Qed.

(** ** The session *)

Lemma logins_app (a b : list Event) : (logins (a ++ b) = logins a + logins b)%nat.
Proof.
  induction a as [|ev a IH]; simpl; [reflexivity|].
  destruct ev; simpl; now rewrite ?IH.
Qed.

Lemma check_session_fresh (tk : Tick) (w : World) (doc : CacheDoc) :
  cache (db w) = Some doc -> (utc_session tk - cache_dt doc >? HOUR) = false ->
  check_session tk w =
  ({| db := db w;
      session := match session w with
                 | [] => dict_update [] (cookies doc)
                 | _ :: _ => session w
                 end;
      trace := trace w ++ [FindCache] |}, inr tt).
Proof.
  intros Hc Hage. unfold check_session, find_cache, bind, emit, get, ret. simpl.
  rewrite Hc, Hage. simpl. destruct (session w); reflexivity.
Qed.

Lemma login_once (tk : Tick) (w : World) :
  logins (trace (fst (login tk w))) = S (logins (trace w)).
Proof.
  unfold login, http, bind, emit, get, ret, raise, set_session, update_cache, set_db.
  simpl. destruct (login_reply tk); simpl; rewrite ?logins_app; simpl; lia.
Qed.

Lemma check_session_stale (tk : Tick) (w : World) :
  stale tk w = true ->
  logins (trace (fst (check_session tk w))) = S (logins (trace w)).
Proof.
  unfold stale, check_session, find_cache. intros Hs.
  unfold bind at 1. unfold bind at 1. cbn [emit]. unfold bind at 1. cbn [get ret db].
  destruct (cache (db w)) as [doc|].
  - rewrite Hs. rewrite login_once. cbn [trace]. rewrite logins_app. simpl. lia.
  - rewrite login_once. cbn [trace]. rewrite logins_app. simpl. lia.
Qed.

(** C7. [check_session] posts a login exactly when the cached cookies are
    missing from the store or more than one hour old.  Otherwise it reads
    the cache and does nothing else to the store or the network; a session
    that holds no cookie then reads, under every name, as the cached
    cookies do, and a session that holds cookies stays as it is.  So a
    second call within the hour of the cached cookies posts no login either,
    and a call after the hour posts exactly one. *)
Theorem check_session_logs_in_iff_stale (tk tk2 : Tick) (w : World) :
  (stale tk w = true ->
     logins (trace (fst (check_session tk w))) = S (logins (trace w)))
  /\ (stale tk w = false ->
      exists doc,
        cache (db w) = Some doc
        /\ snd (check_session tk w) = inr tt
        /\ db (fst (check_session tk w)) = db w
        /\ trace (fst (check_session tk w)) = trace w ++ [FindCache]
        /\ (session w = [] ->
            forall k, dict_get k (session (fst (check_session tk w)))
                      = dict_get k (rev (cookies doc)))
        /\ (session w <> [] -> session (fst (check_session tk w)) = session w)
        /\ logins (trace (fst (check_session tk w))) = logins (trace w))
  /\ (stale tk w = false -> stale tk2 w = false ->
      logins (trace (fst (check_session tk2 (fst (check_session tk w)))))
      = logins (trace w)).
Proof.
  assert (Hfresh : forall t w0, stale t w0 = false ->
            exists doc, cache (db w0) = Some doc
              /\ check_session t w0 =
                 ({| db := db w0;
                     session := match session w0 with
                                | [] => dict_update [] (cookies doc)
                                | _ :: _ => session w0
                                end;
                     trace := trace w0 ++ [FindCache] |}, inr tt)
              /\ logins (trace (fst (check_session t w0))) = logins (trace w0)).
  { intros t w0 Hs. unfold stale in Hs.
    destruct (cache (db w0)) as [doc|] eqn:Hc; [|discriminate].
    exists doc. split; [reflexivity|].
    rewrite (check_session_fresh t w0 doc Hc Hs). split; [reflexivity|].
    cbn [fst trace]. rewrite logins_app. simpl. lia. }
  split; [apply check_session_stale|]. split.
  - intros Hs. destruct (Hfresh tk w Hs) as (doc & Hc & Heq & Hl).
    exists doc. rewrite Heq in *. cbn [fst snd db session trace] in *.
    repeat split; auto.
    + intros He k. rewrite He, dict_get_update. cbn [dict_get].
      now destruct (dict_get k (rev (cookies doc))).
    + intros Hne. destruct (session w); [contradiction | reflexivity].
  - intros Hs Hs2. destruct (Hfresh tk w Hs) as (doc & Hc & Heq & Hl).
    assert (Hs2' : stale tk2 (fst (check_session tk w)) = false).
    { rewrite Heq. unfold stale in *. cbn [fst db]. exact Hs2. }
    destruct (Hfresh tk2 _ Hs2') as (_ & _ & _ & Hl2). now rewrite Hl2.
Qed.

Lemma check_session_logs_in_iff_stale_witness :
  logins (trace (fst (check_session (demo_tick 9 0 []) (demo_world (Some true) (Some 2)))))
  = S (logins (trace (demo_world (Some true) (Some 2)))).
Proof.
  apply (proj1 (check_session_logs_in_iff_stale (demo_tick 9 0 []) (demo_tick 9 0 [])
                  (demo_world (Some true) (Some 2)))).
  reflexivity.
Defined.

(** ** The settings *)

(** With the status document missing, the call writes it, enabled, and
    goes on to the quota. *)
Lemma missing_status_is_enabled (tk : Tick) (w : World) :
  (hour (now_eastern tk) <? 6) || (hour (now_eastern tk) >? 18) = false ->
  settings_status (db w) = None ->
  check_loads tk w = watch tk (fst (insert_status (logged (FindSettings "status") w)))
  /\ settings_status (db (fst (insert_status (logged (FindSettings "status") w))))
     = Some true.
Proof.
  intros Hh Hs. unfold check_loads. rewrite Hh.
  unfold bind, emit, get, logged. simpl. rewrite Hs. split; reflexivity.
Qed.

(** C8, on the code. With the status document and the load-threshold
    document both missing, the call writes the status document, enabled,
    and then raises [TypeError] where it reads the threshold: no threshold
    is written. *)
Theorem missing_threshold_raises (tk : Tick) (w : World) :
  (hour (now_eastern tk) <? 6) || (hour (now_eastern tk) >? 18) = false ->
  settings_status (db w) = None ->
  settings_threshold (db w) = None ->
  snd (check_loads tk w) = inl TypeError
  /\ settings_status (db (fst (check_loads tk w))) = Some true
  /\ settings_threshold (db (fst (check_loads tk w))) = None.
Proof.
  intros Hh Hs Ht.
  destruct (missing_status_is_enabled tk w Hh Hs) as [-> _].
  unfold watch, check_accepted_load_threshold, find_accepted, insert_status,
    logged, bind, emit, get, set_db, ret, raise. simpl.
  rewrite Ht. simpl. repeat split; first [reflexivity | exact Ht].
Qed.

Lemma missing_threshold_raises_witness :
  snd (check_loads (demo_tick 9 0 []) (demo_world None None)) = inl TypeError
  /\ settings_status (db (fst (check_loads (demo_tick 9 0 []) (demo_world None None))))
     = Some true
  /\ settings_threshold (db (fst (check_loads (demo_tick 9 0 []) (demo_world None None))))
     = None.
Proof.
  apply (missing_threshold_raises (demo_tick 9 0 []) (demo_world None None));
    reflexivity.
Defined.

(** ** One entry of the selection loop *)

Lemma fits_int64_iff (n : Z) : fits_int64 n = true <-> - 2 ^ 63 <= n < 2 ^ 63.
Proof. unfold fits_int64. rewrite andb_true_iff, Z.leb_le, Z.ltb_lt. tauto. Qed.

Lemma fits_int64_not (n : Z) : fits_int64 n = false <-> n < - 2 ^ 63 \/ 2 ^ 63 <= n.
Proof.
  pose proof (fits_int64_iff n) as H. destruct (fits_int64 n).
  - split; [discriminate|]. intros Hn. assert (- 2 ^ 63 <= n < 2 ^ 63) by now apply H. lia.
  - split; [|reflexivity]. intros _.
    destruct (Z.lt_ge_cases n (- 2 ^ 63)) as [Hl|Hl]; [now left|].
    destruct (Z.lt_ge_cases n (2 ^ 63)) as [Hu|Hu]; [|now right].
    assert (false = true) by (apply H; lia). discriminate.
Qed.

(** What [select_entry] can do: raise before the lookup when the id does not
    read or does not fit the store's integers; after the lookup, leave the
    selection as it is when the id is on record; otherwise raise, leave the
    selection as it is, or, with quota left, insert one document under the
    id and add it to the selection. *)
Lemma select_entry_cases (tk : Tick) (remaining : Z) (logic : option Logic)
    (sel : Selection) (e : Entry) (w : World) :
  match entry_id e with
  | None => exists ex, select_entry tk remaining logic sel e w = (w, inl ex)
  | Some n =>
      if fits_int64 n then
        match find (fun l => dsm l =? n) (loads (db w)) with
        | Some _ =>
            select_entry tk remaining logic sel e w = (logged (FindLoad n) w, inr sel)
        | None =>
            (exists ex,
                select_entry tk remaining logic sel e w = (logged (FindLoad n) w, inl ex))
            \/ select_entry tk remaining logic sel e w = (logged (FindLoad n) w, inr sel)
            \/ (new_loads sel < remaining
                /\ exists doc,
                     dsm doc = n /\ status doc = "accept"
                     /\ weight doc = entry_weight e
                     /\ dt doc = to_millis (utc_insert tk (new_loads sel))
                     /\ (exists rules, logic = Some rules
                           /\ matches rules (dest_loc doc) (consignee doc)
                                (exc_ship_mode doc) = true)
                     /\ select_entry tk remaining logic sel e w
                        = (stored doc (logged (FindLoad n) w),
                           inr {| text := (text sel ++ load_text doc)%string;
                                  new_loads := new_loads sel + 1;
                                  action_ids := action_ids sel ++ [action_id doc] |}))
        end
      else select_entry tk remaining logic sel e w = (w, inl OverflowError)
  end.
Proof.
  destruct (select_entry tk remaining logic sel e w) as [w' r] eqn:Hres.
  unfold entry_id. unfold select_entry in Hres.
  unfold bind at 1 in Hres. unfold item at 1 in Hres.
  destruct (nth_error (cells e) 0) as [c0|]; cbn [ret raise] in Hres;
    [|injection Hres as <- <-; eauto].
  destruct (Py.int c0) as [n|]; [|injection Hres as <- <-; eauto].
  unfold bind at 1 in Hres. unfold find_load in Hres.
  destruct (fits_int64 n) eqn:Hfit; [|injection Hres as <- <-; reflexivity].
  unfold bind at 1 in Hres.
  cbn [emit] in Hres. unfold bind at 1 in Hres. cbn [get ret db] in Hres.
  fold (logged (FindLoad n) w) in Hres.
  destruct (find (fun l => dsm l =? n) (loads (db w))) as [d|];
    [injection Hres as <- <-; reflexivity|].
  repeat (unfold bind at 1 in Hres; unfold item at 1 in Hres;
          match type of Hres with
          | context [nth_error ?l ?i] => destruct (nth_error l i)
          end; cbn [ret raise] in Hres;
          [|injection Hres as <- <-; left; eauto]).
  destruct logic as [rules|]; [|injection Hres as <- <-; left; eauto].
  match type of Hres with
  | context [matches ?r ?a ?b ?c] => destruct (matches r a b c) eqn:Hm
  end; [|injection Hres as <- <-; right; left; reflexivity].
  destruct (new_loads sel <? remaining) eqn:Hq;
    [|injection Hres as <- <-; right; left; reflexivity].
  unfold bind, insert_load in Hres. cbn [dsm weight] in Hres. rewrite Hfit in Hres.
  destruct (fits_int64 (entry_weight e)); cbn [andb raise] in Hres;
    [|injection Hres as <- <-; left; eauto].
  right; right. split; [now apply Z.ltb_lt|].
  match type of Hres with
  | context [put_load ?d] => exists d
  end.
  repeat split; try reflexivity.
  - exists rules. split; [reflexivity | exact Hm].
  - rewrite <- Hres. reflexivity.
Qed.

(** ** Loads on record are not taken again *)

Lemma find_none_filter {A : Type} (f : A -> bool) (l : list A) :
  find f l = None <-> filter f l = [].
Proof.
  induction l as [|x l IH]; simpl; [tauto|].
  destruct (f x); [split; discriminate | exact IH].
Qed.

Lemma keeps_records_refl (n : Z) (w : World) : keeps_records n w w.
Proof. now intros _. Qed.

Lemma keeps_records_trans (n : Z) (w1 w2 w3 : World) :
  keeps_records n w1 w2 -> keeps_records n w2 w3 -> keeps_records n w1 w3.
Proof.
  intros H12 H23 Hne. rewrite <- (H12 Hne). apply H23. now rewrite (H12 Hne).
Qed.

Lemma keeps_records_insert (n : Z) (doc : LoadDoc) (w : World) :
  find (fun l => dsm l =? dsm doc) (loads (db w)) = None ->
  keeps_records n w (fst (insert_load doc w)).
Proof.
  intros Hfind Hne. rewrite insert_load_world.
  destruct (fits_int64 (dsm doc) && fits_int64 (weight doc)); [|reflexivity].
  unfold records_of in *. cbn. rewrite filter_app. simpl.
  destruct (dsm doc =? n) eqn:E; [|apply app_nil_r].
  apply Z.eqb_eq in E. subst n. apply find_none_filter in Hfind. contradiction.
Qed.

Ltac keeps_steps n :=
  first [ exact (keeps_records_refl n) | exact (keeps_records_trans n)
        | exact (keeps_records_insert n)
        | unfold along, keeps_records; intros; reflexivity ].

Lemma check_loads_keeps_records (n : Z) (tk : Tick) (w : World) :
  keeps_records n w (fst (check_loads tk w)).
Proof. apply along_check_loads; keeps_steps n. Qed.

(** ** The quota *)

Lemma accepted_count_stored (today : Z) (doc : LoadDoc) (w : World) :
  accepted_count today w <= accepted_count today (stored doc w)
                         <= accepted_count today w + 1.
Proof.
  unfold accepted_count, stored. cbn. rewrite filter_app, length_app. simpl.
  destruct (accepted_since today doc); simpl; lia.
Qed.

Lemma load_count_stored (doc : LoadDoc) (w : World) :
  load_count (stored doc w) = load_count w + 1.
Proof. unfold load_count, stored. cbn. rewrite length_app. simpl. lia. Qed.

Lemma accepted_on_day_le (today : Z) (w : World) :
  accepted_on_day today w <= accepted_count today w.
Proof.
  unfold accepted_on_day, accepted_count. apply inj_le.
  induction (loads (db w)) as [|l ls IH]; simpl; [lia|].
  destruct (accepted_since today l); simpl; [|exact IH].
  destruct (dt l <? today + DAY); simpl; lia.
Qed.

Section Quota.
Variables (today thr c0 n0 remaining : Z).

Local Abbreviation inv := (within today thr c0 n0 remaining).
Local Abbreviation post := (bounded today thr c0 n0 remaining).

Lemma within_bounded (sel : Selection) (w : World) : inv sel w -> post w.
Proof. intros (Ht & Hn & Hc & Hl). repeat split; lia || auto. Qed.

Lemma select_entry_within (tk : Tick) (logic : option Logic)
    (sel : Selection) (e : Entry) :
  hoare (inv sel) (select_entry tk remaining logic sel e) inv post.
Proof.
  intros w Hw. pose proof (select_entry_cases tk remaining logic sel e w) as H.
  assert (Hlog : forall ev, inv sel (logged ev w)) by (intros ev; exact Hw).
  destruct (entry_id e) as [n|].
  - destruct (fits_int64 n); [|rewrite H; eapply within_bounded, Hw].
    destruct (find (fun l => dsm l =? n) (loads (db w))).
    + rewrite H. apply Hlog.
    + destruct H as [[ex ->]|[->|(Hlt & doc & _ & _ & _ & _ & _ & ->)]].
      * eapply within_bounded, Hlog.
      * apply Hlog.
      * specialize (Hlog (FindLoad n)). destruct Hlog as (Ht & Hn & Hc & Hl).
        pose proof (accepted_count_stored today doc (logged (FindLoad n) w)).
        pose proof (load_count_stored doc (logged (FindLoad n) w)).
        unfold inv, within. cbn [new_loads]. repeat split; try lia. exact Ht.
  - destruct H as [ex ->]. eapply within_bounded, Hw.
Qed.

Lemma select_loop_within (tk : Tick) (logic : option Logic) (l : list Entry)
    (sel : Selection) :
  hoare (inv sel) (for_each (select_entry tk remaining logic) sel l) inv post.
Proof.
  apply hoare_for_each. intros a x _. apply select_entry_within.
Qed.
Lemma same_quota_bounded (w w' : World) : same_quota w w' -> post w -> post w'.
Proof.
  intros [Hl Ht] (H1 & H2 & H3). unfold bounded, accepted_count, load_count in *.
  rewrite Hl, Ht. auto.
Qed.

Lemma take_loads_bounded (tk : Tick) (accept_data : Dict Value)
    (data : list (list string)) (w : World) :
  0 <= remaining ->
  settings_threshold (db w) = Some thr ->
  accepted_count today w <= c0 ->
  load_count w = n0 ->
  post (fst (take_loads tk remaining accept_data data w)).
Proof.
  intros Hrem Ht Hc Hl.
  assert (Hpost : post w) by (repeat split; lia || auto).
  unfold take_loads. destruct data as [|row data]; [exact Hpost|].
  unfold bind at 1. pose proof (parse_weights_world (row :: data) w) as Hp.
  destruct (map_m parse_weight (row :: data) w) as [w1 [e|parsed]];
    cbn [fst] in Hp; subst w1; [exact Hpost|].
  unfold bind at 1. cbn [emit]. unfold bind at 1. cbn [get].
  fold (logged (FindSettings "logic") w). unfold bind at 1.
  match goal with
  | |- context [for_each ?body ?sel0 ?l ?w1] =>
      assert (Hloop : hoare (inv sel0) (for_each body sel0 l) inv post)
        by apply select_loop_within;
      specialize (Hloop w1);
      destruct (for_each body sel0 l w1) as [w2 [e|sel]]
  end.
  - apply Hloop. unfold within, accepted_count, load_count in *. cbn.
    repeat split; lia || auto.
  - apply same_quota_bounded with (w := w2).
    + apply along_submit.
      * intros w0; split; reflexivity.
      * intros x y z [H1 H2] [H3 H4]. split; congruence.
      * intros ev w0. split; reflexivity.
    + eapply within_bounded, Hloop.
      unfold within, accepted_count, load_count in *. cbn.
      repeat split; lia || auto.
Qed.
End Quota.

Lemma same_quota_refl (w : World) : same_quota w w.
Proof. split; reflexivity. Qed.

Lemma same_quota_trans (w1 w2 w3 : World) :
  same_quota w1 w2 -> same_quota w2 w3 -> same_quota w1 w3.
Proof. intros [H1 H2] [H3 H4]. split; congruence. Qed.

Lemma threshold_result (tk : Tick) (w : World) :
  check_accepted_load_threshold tk w =
  (logged (FindAccepted (midnight (utc_quota tk)))
     (logged (FindSettings "load-threshold") w),
   match settings_threshold (db w) with
   | None => inl TypeError
   | Some t => inr (t - accepted_count (midnight (utc_quota tk)) w)
   end).
Proof.
  unfold check_accepted_load_threshold, find_accepted, bind, emit, get, ret, logged.
  cbn. destruct (settings_threshold (db w)); reflexivity.
Qed.

(** One call of [watch]: the loads accepted today stay within the
    threshold, or where they were if they were beyond it already, and at
    most [remaining] documents are added. *)
Lemma watch_quota (tk : Tick) (w : World) (thr : Z) :
  settings_threshold (db w) = Some thr ->
  let today := midnight (utc_quota tk) in
  let w' := fst (watch tk w) in
  settings_threshold (db w') = Some thr
  /\ accepted_count today w' <= Z.max (accepted_count today w) thr
  /\ load_count w <= load_count w'
                  <= load_count w + Z.max 0 (thr - accepted_count today w).
Proof.
  intros Ht today w'. subst w'.
  destruct (watch tk w) as [w' res] eqn:Hres. cbn [fst].
  unfold watch in Hres. unfold bind at 1 in Hres.
  rewrite threshold_result, Ht in Hres. fold today in Hres.
  set (w1 := logged (FindAccepted today) (logged (FindSettings "load-threshold") w)) in *.
  assert (Hsame : forall w2, same_quota w1 w2 ->
             settings_threshold (db w2) = Some thr
             /\ accepted_count today w2 <= Z.max (accepted_count today w) thr
             /\ load_count w <= load_count w2
                             <= load_count w + Z.max 0 (thr - accepted_count today w)).
  { intros w2 [Hl Hth]. unfold accepted_count, load_count. rewrite Hl, Hth.
    cbn. split; [exact Ht|]. split; lia. }
  destruct (thr - accepted_count today w <=? 0) eqn:Hrem.
  { injection Hres as <- _. apply Hsame, same_quota_refl. }
  apply Z.leb_gt in Hrem.
  unfold bind at 1 in Hres.
  pose proof (along_check_session same_quota same_quota_refl same_quota_trans
                (fun ev w0 => same_quota_refl _) (fun c w0 => same_quota_refl _)
                (fun doc w0 => same_quota_refl _) tk w1) as Hs.
  destruct (check_session tk w1) as [w2 [e|[]]]; cbn [fst] in Hs;
    [injection Hres as <- _; now apply Hsame|].
  unfold bind at 1 in Hres.
  pose proof (along_http same_quota same_quota_refl same_quota_trans
                (fun ev w0 => same_quota_refl _) GetOffers (offers_reply tk) w2) as Hh.
  assert (H13 : same_quota w1 (fst (http GetOffers (offers_reply tk) w2)))
    by (eapply same_quota_trans; eauto).
  destruct (http GetOffers (offers_reply tk) w2) as [w3 [e|r]]; cbn [fst] in H13;
    [injection Hres as <- _; now apply Hsame|].
  destruct (negb (ok r)); [injection Hres as <- _; now apply Hsame|].
  destruct H13 as [Hl Hth].
  pose proof (take_loads_bounded today thr (accepted_count today w) (load_count w)
                (thr - accepted_count today w) tk (form_fields r) (rows r) w3) as Hb.
  assert (Hw' : w' = fst (take_loads tk (thr - accepted_count today w)
                            (form_fields r) (rows r) w3)).
  { unfold bind in Hres.
    destruct (take_loads tk (thr - accepted_count today w) (form_fields r) (rows r) w3)
      as [w4 [e|[]]]; now injection Hres as <- _. }
  rewrite <- Hw' in Hb. destruct Hb as (H1 & H2 & H3); try lia.
  - now rewrite Hth.
  - unfold accepted_count. rewrite Hl. cbn. reflexivity.
  - unfold load_count. now rewrite Hl.
  - repeat split; lia || auto.
Qed.

Lemma check_loads_quota (tk : Tick) (w : World) (thr : Z) :
  settings_threshold (db w) = Some thr ->
  let today := midnight (utc_quota tk) in
  let w' := fst (check_loads tk w) in
  settings_threshold (db w') = Some thr
  /\ accepted_count today w' <= Z.max (accepted_count today w) thr
  /\ load_count w <= load_count w'
                  <= load_count w + Z.max 0 (thr - accepted_count today w).
Proof.
  intros Ht today w'. subst w'.
  assert (Hsame : forall w2, same_quota w w2 ->
             let w' := fst (watch tk w2) in
             settings_threshold (db w') = Some thr
             /\ accepted_count today w' <= Z.max (accepted_count today w) thr
             /\ load_count w <= load_count w'
                             <= load_count w + Z.max 0 (thr - accepted_count today w)).
  { intros w2 [Hl Hth]. rewrite <- Hth in Ht.
    pose proof (watch_quota tk w2 thr Ht) as H. fold today in H.
    unfold accepted_count, load_count in *. rewrite Hl in H. exact H. }
  destruct (check_loads tk w) as [w' res] eqn:Hres. cbn [fst].
  unfold check_loads in Hres.
  destruct ((hour (now_eastern tk) <? 6) || (hour (now_eastern tk) >? 18)).
  { injection Hres as <- _. split; [exact Ht|]. lia. }
  unfold bind at 1 in Hres. cbn [emit] in Hres. unfold bind at 1 in Hres.
  cbn [get db] in Hres. fold (logged (FindSettings "status") w) in Hres.
  destruct (settings_status (db w)) as [enabled|].
  - destruct (negb enabled).
    + injection Hres as <- _. split; [exact Ht|]. unfold accepted_count, load_count. cbn. lia.
    + match type of Hres with
      | watch tk ?w2 = _ => specialize (Hsame w2 (conj eq_refl eq_refl))
      end.
      now rewrite Hres in Hsame.
  - unfold bind in Hres. cbn [insert_status bind emit get set_db] in Hres.
    match type of Hres with
    | watch tk ?w2 = _ => specialize (Hsame w2 (conj eq_refl eq_refl))
    end.
    now rewrite Hres in Hsame.
Qed.

Lemma cycles_app (before later : list Tick) (w : World) :
  cycles (before ++ later) w = cycles later (cycles before w).
Proof.
  revert w. induction before as [|t before IH]; intros w; simpl; [reflexivity|].
  apply IH.
Qed.

Lemma cycles_quota (ticks : list Tick) (w : World) (today thr : Z) :
  Forall (fun t => midnight (utc_quota t) = today) ticks ->
  settings_threshold (db w) = Some thr ->
  accepted_count today w <= thr ->
  settings_threshold (db (cycles ticks w)) = Some thr
  /\ accepted_count today (cycles ticks w) <= thr.
Proof.
  intros Hday. revert w. induction Hday as [|t ticks Ht _ IH]; intros w Hthr Hc; simpl.
  - now split.
  - pose proof (check_loads_quota t w thr Hthr) as (H1 & H2 & _).
    rewrite Ht in H2. apply IH; [exact H1 | lia].
Qed.

(** C1. Take calls of [check_loads] whose quota check falls on one UTC day,
    on a store that only they write and where the loads accepted that day
    do not exceed the threshold to begin with (none, at the start of the
    day).  Then after every call of the run the loads on record with status
    "accept" and a date within that day do not exceed the threshold, nor do
    those the quota counts; the threshold is as it was; and a call adds at
    most as many documents as the threshold less the count it found. *)
Theorem quota_is_never_exceeded (before later : list Tick) (tk : Tick)
    (w : World) (today thr : Z) :
  Forall (fun t => midnight (utc_quota t) = today) (before ++ tk :: later) ->
  settings_threshold (db w) = Some thr ->
  accepted_count today w <= thr ->
  let w0 := cycles before w in
  let w1 := fst (check_loads tk w0) in
  accepted_on_day today w1 <= thr
  /\ accepted_count today w1 <= thr
  /\ settings_threshold (db w1) = Some thr
  /\ load_count w0 <= load_count w1
                   <= load_count w0 + Z.max 0 (thr - accepted_count today w0)
  /\ accepted_on_day today (cycles (before ++ tk :: later) w) <= thr.
Proof.
  intros Hday Hthr Hc w0 w1.
  pose proof Hday as Hall.
  apply Forall_app in Hday as [Hb Hrest].
  pose proof (Forall_inv Hrest) as Htk. cbn beta in Htk.
  destruct (cycles_quota before w today thr Hb Hthr Hc) as [Hthr0 Hc0].
  fold w0 in Hthr0, Hc0.
  pose proof (check_loads_quota tk w0 thr Hthr0) as (H1 & H2 & H3).
  rewrite Htk in H2, H3. fold w1 in H1, H2, H3.
  pose proof (accepted_on_day_le today w1).
  destruct (cycles_quota _ w today thr Hall Hthr Hc) as [_ Hend].
  pose proof (accepted_on_day_le today (cycles (before ++ tk :: later) w)).
  repeat split; lia || auto.
Qed.

(** ** The order of evaluation *)

Section Sorting.
Context {A : Type} (key : A -> Z).

Local Abbreviation le_key := (ascending key).

Lemma insert_by_perm (x : A) (l : list A) : Permutation (x :: l) (insert_by key x l).
Proof.
  induction l as [|y l IH]; simpl; [apply Permutation_refl|].
  destruct (key x <=? key y); [apply Permutation_refl|].
  eapply perm_trans; [apply perm_swap | apply perm_skip, IH].
Qed.

Lemma sorted_perm (l : list A) : Permutation l (sorted key l).
Proof.
  induction l as [|x l IH]; simpl; [apply perm_nil|].
  eapply perm_trans; [apply perm_skip, IH | apply insert_by_perm].
Qed.

Lemma insert_by_sorted (x : A) (l : list A) :
  StronglySorted le_key l -> StronglySorted le_key (insert_by key x l).
Proof.
  induction 1 as [|y l Hs IH Hall]; simpl.
  - constructor; constructor.
  - destruct (key x <=? key y) eqn:Hxy.
    + apply Z.leb_le in Hxy. constructor; [now constructor|].
      constructor; [exact Hxy|].
      eapply Forall_impl; [|exact Hall]. intros z Hz. unfold ascending in *. lia.
    + apply Z.leb_gt in Hxy. constructor; [exact IH|].
      eapply Permutation_Forall; [apply insert_by_perm|].
      constructor; [unfold ascending; lia | exact Hall].
Qed.

Lemma sorted_sorted (l : list A) : StronglySorted le_key (sorted key l).
Proof.
  induction l as [|x l IH]; simpl; [constructor | now apply insert_by_sorted].
Qed.

(** [sorted] is stable: the entries of one key keep their order. *)
Lemma insert_by_stable (k : Z) (x : A) (l : list A) :
  filter (fun a => key a =? k) (insert_by key x l)
  = filter (fun a => key a =? k) (x :: l).
Proof.
  induction l as [|y l IH]; [reflexivity|].
  cbn [insert_by]. destruct (key x <=? key y) eqn:Hxy; [reflexivity|].
  apply Z.leb_gt in Hxy. cbn [filter] in *. rewrite IH.
  destruct (key x =? k) eqn:Hx, (key y =? k) eqn:Hy; try reflexivity.
  apply Z.eqb_eq in Hx, Hy. lia.
Qed.

Lemma sorted_stable (k : Z) (l : list A) :
  filter (fun a => key a =? k) (sorted key l) = filter (fun a => key a =? k) l.
Proof.
  induction l as [|x l IH]; [reflexivity|].
  cbn [sorted fold_right]. fold (sorted key l). rewrite insert_by_stable.
  cbn [filter]. now rewrite IH.
Qed.
End Sorting.

Lemma looked_up_app (a b : list Event) :
  looked_up (a ++ b) = looked_up a ++ looked_up b.
Proof.
  induction a as [|ev a IH]; simpl; [reflexivity|].
  destruct ev; simpl; now rewrite ?IH.
Qed.

(** An entry that is evaluated without an exception has had its id looked
    up, once. *)
Lemma select_entry_lookup (tk : Tick) (remaining : Z) (logic : option Logic)
    (sel sel' : Selection) (e : Entry) (w w' : World) :
  select_entry tk remaining logic sel e w = (w', inr sel') ->
  exists n, entry_id e = Some n
            /\ looked_up (trace w') = looked_up (trace w) ++ [n].
Proof.
  intros Hres. pose proof (select_entry_cases tk remaining logic sel e w) as H.
  rewrite Hres in H.
  assert (Hlog : forall n, looked_up (trace (logged (FindLoad n) w))
                           = looked_up (trace w) ++ [n]).
  { intros n. cbn. now rewrite looked_up_app. }
  destruct (entry_id e) as [n|]; [|destruct H as [ex H]; discriminate H].
  exists n. split; [reflexivity|].
  destruct (fits_int64 n); [|discriminate H].
  destruct (find (fun l => dsm l =? n) (loads (db w))).
  - injection H as -> _. apply Hlog.
  - destruct H as [[ex H]|[H|(_ & doc & _ & _ & _ & _ & _ & H)]].
    + discriminate H.
    + injection H as -> _. apply Hlog.
    + injection H as -> _. cbn. rewrite !looked_up_app. cbn. now rewrite app_nil_r.
Qed.

Lemma select_loop_lookups (tk : Tick) (remaining : Z) (logic : option Logic)
    (l : list Entry) (sel sel' : Selection) (w w' : World) :
  for_each (select_entry tk remaining logic) sel l w = (w', inr sel') ->
  exists ids, map entry_id l = map Some ids
              /\ looked_up (trace w') = looked_up (trace w) ++ ids.
Proof.
  revert sel w. induction l as [|e l IH]; intros sel w Hres; simpl in Hres.
  - injection Hres as <- _. exists []. now rewrite app_nil_r.
  - unfold bind in Hres.
    destruct (select_entry tk remaining logic sel e w) as [w1 [ex|sel1]] eqn:He;
      [discriminate Hres|].
    destruct (select_entry_lookup _ _ _ _ _ _ _ _ He) as (n & Hn & Htr).
    destruct (IH sel1 w1 Hres) as (ids & Hids & Htr').
    exists (n :: ids). simpl. rewrite Hn, Hids, Htr', Htr, <- app_assoc. now split.
Qed.

Lemma submit_lookups (tk : Tick) (accept_data : Dict Value) (sel : Selection)
    (w : World) :
  looked_up (trace (fst (submit tk accept_data sel w))) = looked_up (trace w).
Proof.
  unfold submit. destruct (new_loads sel =? 0); [reflexivity|].
  destruct (action_ids sel); [reflexivity|].
  unfold accept_load, http, bind, emit, ret, raise.
  destruct (accept_reply tk), (message_reply tk); cbn;
    rewrite ?looked_up_app; cbn; now rewrite ?app_nil_r.
Qed.

Lemma take_loads_lookups (tk : Tick) (remaining : Z) (accept_data : Dict Value)
    (data : list (list string)) (w w' : World) :
  take_loads tk remaining accept_data data w = (w', inr tt) ->
  exists parsed ids,
    map_m parse_weight data w = (w, inr parsed)
    /\ map entry_id (sorted entry_weight parsed) = map Some ids
    /\ looked_up (trace w') = looked_up (trace w) ++ ids.
Proof.
  unfold take_loads. destruct data as [|row data].
  - intros [= <-]. exists [], []. now rewrite app_nil_r.
  - intros Hres. unfold bind at 1 in Hres.
    pose proof (parse_weights_world (row :: data) w) as Hp.
    destruct (map_m parse_weight (row :: data) w) as [w1 [ex|parsed]];
      cbn [fst] in Hp; subst w1; [discriminate Hres|].
    unfold bind at 1 in Hres. cbn [emit] in Hres. unfold bind at 1 in Hres.
    cbn [get] in Hres. unfold bind at 1 in Hres.
    match type of Hres with
    | context [for_each ?body ?sel0 ?l ?w1] =>
        destruct (for_each body sel0 l w1) as [w2 [ex|sel]] eqn:Hloop
    end; [discriminate Hres|].
    apply select_loop_lookups in Hloop as (ids & Hids & Htr).
    exists parsed, ids. repeat split; [exact Hids|].
    pose proof (submit_lookups tk accept_data sel w2) as Hsub.
    rewrite Hres in Hsub. cbn [fst] in Hsub. rewrite Hsub, Htr. cbn.
    rewrite looked_up_app. cbn. now rewrite app_nil_r.
Qed.

(** C9. The rows are evaluated in ascending order of weight: [sorted] puts
    the parsed rows in ascending order, keeps them all and keeps the order
    of rows of equal weight; weights 500, 100, 300 come out as 100, 300,
    500; and a pass over the rows that ends without an exception has looked
    the ids up in [db.loads] in exactly that order.  With room for one
    load only, the lightest of three matching offers is the one taken. *)
Theorem lighter_offers_are_evaluated_first :
  (forall l : list Entry,
      StronglySorted (ascending entry_weight) (sorted entry_weight l)
      /\ Permutation l (sorted entry_weight l)
      /\ forall k, filter (fun e => entry_weight e =? k) (sorted entry_weight l)
                   = filter (fun e => entry_weight e =? k) l)
  /\ (forall c1 c2 c3 : list string,
         sorted entry_weight
           [ {| cells := c1; entry_weight := 500 |};
             {| cells := c2; entry_weight := 100 |};
             {| cells := c3; entry_weight := 300 |} ]
         = [ {| cells := c2; entry_weight := 100 |};
             {| cells := c3; entry_weight := 300 |};
             {| cells := c1; entry_weight := 500 |} ])
  /\ (forall tk remaining accept_data data w w',
         take_loads tk remaining accept_data data w = (w', inr tt) ->
         exists parsed ids,
           map_m parse_weight data w = (w, inr parsed)
           /\ map entry_id (sorted entry_weight parsed) = map Some ids
           /\ looked_up (trace w') = looked_up (trace w) ++ ids)
  /\ (let w' := fst (check_loads
                       (demo_tick 9 0 [demo_row "7001" "500 lbs";
                                       demo_row "7002" "100 lbs";
                                       demo_row "7003" "300 lbs"])
                       (demo_world (Some true) (Some 1))) in
      looked_up (trace w') = [7002; 7003; 7001]
      /\ map (fun l => (dsm l, weight l)) (loads (db w')) = [(7002, 100)]).
Proof.
  split; [|split; [|split]].
  - intros l. split; [apply sorted_sorted|]. split; [apply sorted_perm|].
    intros k. apply sorted_stable.
  - reflexivity.
  - intros tk remaining accept_data data w w'. apply take_loads_lookups.
  - vm_compute. split; reflexivity.
Qed.

Lemma lighter_offers_are_evaluated_first_witness :
  exists parsed ids,
    map_m parse_weight [demo_row "7001" "500 lbs"; demo_row "7002" "100 lbs"]
      (demo_world (Some true) (Some 1)) = (demo_world (Some true) (Some 1), inr parsed)
    /\ map entry_id (sorted entry_weight parsed) = map Some ids
    /\ looked_up (trace (fst (take_loads (demo_tick 9 0 []) 1 []
                                [demo_row "7001" "500 lbs"; demo_row "7002" "100 lbs"]
                                (demo_world (Some true) (Some 1)))))
       = looked_up (trace (demo_world (Some true) (Some 1))) ++ ids.
Proof.
  apply (proj1 (proj2 (proj2 lighter_offers_are_evaluated_first))
           (demo_tick 9 0 []) 1 []
           [demo_row "7001" "500 lbs"; demo_row "7002" "100 lbs"]
           (demo_world (Some true) (Some 1))).
  vm_compute. reflexivity.
Defined.

(** ** Rows that do not have the layout *)

Lemma append_empty_r (s : string) : (s ++ EmptyString)%string = s.
Proof. induction s as [|c s IH]; simpl; [reflexivity | now rewrite IH]. Qed.

Lemma append_cons_r (a : string) (c : ascii) (s : string) :
  ((a ++ String c EmptyString) ++ s)%string = (a ++ String c s)%string.
Proof. induction a as [|b a IH]; simpl; [reflexivity | now rewrite IH]. Qed.

Lemma split_go_without_sep (sep acc s : string) :
  Py.contains sep s = false -> Py.split_go sep acc O s = [(acc ++ s)%string].
Proof.
  revert acc. induction s as [|c s IH]; intros acc H.
  - simpl. now rewrite append_empty_r.
  - cbn [Py.contains] in H. apply orb_false_iff in H as [Hp Hs].
    cbn [Py.split_go]. rewrite Hp, (IH _ Hs), append_cons_r. reflexivity.
Qed.

(** A string without the separator is not split: one piece, no second. *)
Lemma split_without_sep (sep s : string) :
  Py.contains sep s = false -> Py.split sep s = [s].
Proof. intros H. unfold Py.split. now rewrite split_go_without_sep. Qed.

Lemma parse_weight_raises (row : list string) (w : World) :
  (List.length row < 6)%nat
  \/ (exists txt, nth_error row 5 = Some txt /\ ~ has_weight txt) ->
  exists ex, (ex = IndexError \/ ex = AttributeError)
             /\ parse_weight row w = (w, inl ex).
Proof.
  intros [Hlen|(txt & Hcell & Hw)]; unfold parse_weight, bind, item.
  - assert (Hnone : nth_error row 5 = None) by (apply nth_error_None; lia).
    rewrite Hnone. exists IndexError. auto.
  - rewrite Hcell. cbn [ret]. apply WEIGHT_RE_search_none in Hw. rewrite Hw.
    exists AttributeError. auto.
Qed.

Lemma parse_weight_exn (row : list string) (w w' : World) (ex : Exn) :
  parse_weight row w = (w', inl ex) ->
  ex = IndexError \/ ex = AttributeError \/ ex = ValueError.
Proof.
  unfold parse_weight, bind, item.
  destruct (nth_error row 5) as [txt|]; cbn [ret raise]; [|intros [= _ <-]; auto].
  destruct (WEIGHT_RE_search txt) as [g|] eqn:Hs; [|intros [= _ <-]; auto].
  destruct (Py.int g); [discriminate|]. intros [= _ <-]. auto.
Qed.

Lemma parse_weights_raise_kind (before after : list (list string))
    (row : list string) (ex : Exn) (w : World) :
  (ex = IndexError \/ ex = AttributeError) ->
  parse_weight row w = (w, inl ex) ->
  exists ex', (ex' = IndexError \/ ex' = AttributeError \/ ex' = ValueError)
              /\ map_m parse_weight (before ++ row :: after) w = (w, inl ex').
Proof.
  intros Hkind Hrow. induction before as [|r before (ex' & Hk & IH)]; simpl.
  - unfold bind at 1. rewrite Hrow. exists ex. split; [tauto | reflexivity].
  - unfold bind at 1. pose proof (parse_weight_world r w) as H.
    destruct (parse_weight r w) as [w1 [e1|y]] eqn:Hr; cbn [fst] in H; subst w1.
    + apply parse_weight_exn in Hr. eauto.
    + unfold bind. rewrite IH. eauto.
Qed.

Lemma select_entry_bad_id (tk : Tick) (remaining : Z) (logic : option Logic)
    (sel : Selection) (e : Entry) (w : World) (c : string) :
  nth_error (cells e) 0 = Some c -> Py.int c = None ->
  select_entry tk remaining logic sel e w = (w, inl ValueError).
Proof.
  intros Hc Hint. unfold select_entry, bind, item. rewrite Hc. cbn [ret].
  now rewrite Hint.
Qed.

Lemma select_entry_big_id (tk : Tick) (remaining : Z) (logic : option Logic)
    (sel : Selection) (e : Entry) (w : World) (n : Z) :
  entry_id e = Some n -> fits_int64 n = false ->
  select_entry tk remaining logic sel e w = (w, inl OverflowError).
Proof.
  intros Hid Hfit. pose proof (select_entry_cases tk remaining logic sel e w) as H.
  now rewrite Hid, Hfit in H.
Qed.

Lemma select_entry_known (tk : Tick) (remaining : Z) (logic : option Logic)
    (sel : Selection) (e : Entry) (w : World) (n : Z) :
  entry_id e = Some n -> fits_int64 n = true -> records_of n w <> [] ->
  select_entry tk remaining logic sel e w = (logged (FindLoad n) w, inr sel).
Proof.
  intros Hid Hfit Hrec.
  pose proof (select_entry_cases tk remaining logic sel e w) as H.
  rewrite Hid, Hfit in H.
  destruct (find (fun l => dsm l =? n) (loads (db w))) eqn:Hfind; [exact H|].
  apply find_none_filter in Hfind. contradiction.
Qed.

Lemma select_entry_bad_layout (tk : Tick) (remaining : Z) (logic : option Logic)
    (sel : Selection) (e : Entry) (w : World) (n : Z) :
  entry_id e = Some n ->
  fits_int64 n = true ->
  records_of n w = [] ->
  (List.length (cells e) < 9)%nat
  \/ (exists c, nth_error (cells e) 1 = Some c /\ Py.contains " P:" c = false)
  \/ (exists c, nth_error (cells e) 2 = Some c /\ Py.contains " D:" c = false) ->
  select_entry tk remaining logic sel e w = (logged (FindLoad n) w, inl IndexError).
Proof.
  intros Hid Hfit Hrec Hbad. apply find_none_filter in Hrec.
  destruct (select_entry tk remaining logic sel e w) as [w' res] eqn:Hres.
  unfold entry_id in Hid. unfold select_entry in Hres.
  unfold bind at 1 in Hres. unfold item at 1 in Hres.
  destruct (nth_error (cells e) 0) as [c0|]; [|discriminate Hid].
  cbn [ret] in Hres. rewrite Hid in Hres.
  unfold bind at 1 in Hres. unfold find_load in Hres. rewrite Hfit in Hres.
  unfold bind at 1 in Hres.
  cbn [emit] in Hres. unfold bind at 1 in Hres. cbn [get ret db] in Hres.
  fold (logged (FindLoad n) w) in Hres. rewrite Hrec in Hres.
  repeat (unfold bind at 1 in Hres; unfold item at 1 in Hres;
          match type of Hres with
          | context [nth_error ?l ?i] => destruct (nth_error l i) eqn:?
          end; cbn [ret raise] in Hres; [|now rewrite <- Hres]).
  exfalso. destruct Hbad as [Hlen|[(c & Hc & Hsep)|(c & Hc & Hsep)]].
  - assert (Hnone : nth_error (cells e) 8 = None) by (apply nth_error_None; lia).
    congruence.
  - injection Hc as <-.
    match goal with
    | H2 : nth_error (Py.split " P:" _) 1 = Some _ |- _ =>
        rewrite (split_without_sep _ _ Hsep) in H2; discriminate H2
    end.
  - injection Hc as <-.
    match goal with
    | H2 : nth_error (Py.split " D:" _) 1 = Some _ |- _ =>
        rewrite (split_without_sep _ _ Hsep) in H2; discriminate H2
    end.
Qed.

Lemma for_each_raises {A B : Type} (body : A -> B -> M A) (before after : list B)
    (x : B) (a a1 : A) (w w1 w' : World) (ex : Exn) :
  for_each body a before w = (w1, inr a1) ->
  body a1 x w1 = (w', inl ex) ->
  for_each body a (before ++ x :: after) w = (w', inl ex).
Proof.
  revert a w. induction before as [|y before IH]; intros a w Hb Hx; simpl in *.
  - injection Hb as <- <-. unfold bind. now rewrite Hx.
  - unfold bind in *. destruct (body a y w) as [w2 [e2|a2]]; [discriminate Hb|].
    now apply IH.
Qed.

(** C10 (as the code has it). The rows are taken to have nine cells at
    least, an id in cell 0 that [int] reads, " P:" in cell 1, " D:" in cell
    2 and a weight in cell 5; none is checked and none is skipped.  A row
    with fewer than six cells or no weight in its cell 5, ASCII text, makes
    the processing of the rows raise [IndexError], [AttributeError] or,
    from a weight with too many digits in a row before it, [ValueError],
    before the store is touched.  In the selection loop a row whose id,
    ASCII text, does not read raises [ValueError]; one whose id does not
    fit 64 bits raises [OverflowError] where the lookup is encoded; a row
    whose id is not on record and that has fewer than nine cells or lacks a
    delimiter raises [IndexError], after its lookup; a row whose id is on
    record is passed over without a look at its other cells.  An exception
    in the loop leaves it at once, with the world as the rows before it
    left it, and leaves the processing of the rows. *)
Theorem malformed_row_raises (tk : Tick) (remaining : Z) (logic : option Logic)
    (sel : Selection) (e : Entry) (w : World) :
  (forall row before after accept_data,
      (List.length row < 6)%nat
      \/ (exists txt, nth_error row 5 = Some txt /\ Py.ascii_text txt = true
                       /\ ~ has_weight txt) ->
      exists ex, (ex = IndexError \/ ex = AttributeError \/ ex = ValueError)
                 /\ take_loads tk remaining accept_data (before ++ row :: after) w
                    = (w, inl ex))
  /\ (forall c, nth_error (cells e) 0 = Some c -> Py.ascii_text c = true ->
        Py.int c = None ->
        select_entry tk remaining logic sel e w = (w, inl ValueError))
  /\ (forall n, entry_id e = Some n -> n < - 2 ^ 63 \/ 2 ^ 63 <= n ->
        select_entry tk remaining logic sel e w = (w, inl OverflowError))
  /\ (forall n, entry_id e = Some n -> - 2 ^ 63 <= n < 2 ^ 63 -> records_of n w = [] ->
        (List.length (cells e) < 9)%nat
        \/ (exists c, nth_error (cells e) 1 = Some c /\ Py.contains " P:" c = false)
        \/ (exists c, nth_error (cells e) 2 = Some c /\ Py.contains " D:" c = false) ->
        select_entry tk remaining logic sel e w
        = (logged (FindLoad n) w, inl IndexError))
  /\ (forall n, entry_id e = Some n -> - 2 ^ 63 <= n < 2 ^ 63 -> records_of n w <> [] ->
        select_entry tk remaining logic sel e w = (logged (FindLoad n) w, inr sel))
  /\ (forall before after sel0 w0 w' ex,
        for_each (select_entry tk remaining logic) sel0 before w0 = (w, inr sel) ->
        select_entry tk remaining logic sel e w = (w', inl ex) ->
        for_each (select_entry tk remaining logic) sel0 (before ++ e :: after) w0
        = (w', inl ex))
  /\ (forall data parsed accept_data before after w0 w' ex,
        map_m parse_weight data w0 = (w0, inr parsed) ->
        sorted entry_weight parsed = before ++ e :: after ->
        logic = settings_logic (db w0) ->
        for_each (select_entry tk remaining logic)
          {| text := GREETING; new_loads := 0; action_ids := [] |} before
          (logged (FindSettings "logic") w0) = (w, inr sel) ->
        select_entry tk remaining logic sel e w = (w', inl ex) ->
        take_loads tk remaining accept_data data w0 = (w', inl ex)).
Proof.
  split; [|split; [|split; [|split; [|split; [|split]]]]].
  - intros row before after accept_data Hbad.
    assert (Hbad' : (List.length row < 6)%nat
                    \/ (exists txt, nth_error row 5 = Some txt /\ ~ has_weight txt)).
    { destruct Hbad as [H|(txt & H1 & _ & H2)]; [now left | right; eauto]. }
    destruct (parse_weight_raises row w Hbad') as (ex & Hk & Hrow).
    destruct (parse_weights_raise_kind before after row ex w Hk Hrow) as (ex' & Hk' & Hall).
    exists ex'. split; [exact Hk'|]. unfold take_loads.
    destruct (before ++ row :: after) eqn:E; [destruct before; discriminate|].
    unfold bind at 1. now rewrite Hall.
  - intros c Hc _. now apply select_entry_bad_id.
  - intros n Hid Hn. apply (select_entry_big_id _ _ _ _ _ _ n Hid).
    now apply fits_int64_not.
  - intros n Hid Hn. apply (select_entry_bad_layout _ _ _ _ _ _ n Hid).
    now apply fits_int64_iff.
  - intros n Hid Hn. apply (select_entry_known _ _ _ _ _ _ n Hid).
    now apply fits_int64_iff.
  - intros before after sel0 w0 w' ex. apply for_each_raises.
  - intros data parsed accept_data before after w0 w' ex Hparse Hsort -> Hloop Hraise.
    unfold take_loads. destruct data as [|row data].
    + simpl in Hparse. injection Hparse as <-. destruct before; discriminate.
    + unfold bind at 1. rewrite Hparse.
      unfold bind at 1. cbn [emit]. unfold bind at 1. cbn [get].
      unfold bind at 1. rewrite Hsort.
      pose proof (for_each_raises _ before after e _ _ _ _ _ _ Hloop Hraise) as H.
      unfold logged in H. cbn [emit fst db] in *. now rewrite H.
Qed.

(** C10, as stated, fails twice.  A row cut short after its weight, whose id
    is on record, does not make the call raise: it is passed over.  And a
    row whose id does not read makes the call raise only when its turn
    comes: the lighter offer before it has been selected and inserted by
    then. *)
Lemma malformed_row_after_a_selection :
  snd (check_loads (demo_tick 9 5 [demo_short_row]) demo_taken) = inr None
  /\ snd (check_loads (demo_tick 9 0 [demo_row "7002" "100 lbs"; demo_row "N/A" "300 lbs"])
            (demo_world (Some true) (Some 5))) = inl ValueError
  /\ map dsm (loads (db (fst (check_loads
                                (demo_tick 9 0 [demo_row "7002" "100 lbs";
                                                demo_row "N/A" "300 lbs"])
                                (demo_world (Some true) (Some 5)))))) = [7002].
Proof. repeat split; vm_compute; reflexivity. Qed.

Lemma malformed_row_raises_witness :
  select_entry (demo_tick 9 0 []) 5 (Some demo_rules)
    {| text := GREETING; new_loads := 0; action_ids := [] |}
    {| cells := demo_row "N/A" "300 lbs"; entry_weight := 300 |}
    (demo_world (Some true) (Some 5))
  = (demo_world (Some true) (Some 5), inl ValueError).
Proof.
  apply (proj1 (proj2 (malformed_row_raises (demo_tick 9 0 []) 5 (Some demo_rules)
                         {| text := GREETING; new_loads := 0; action_ids := [] |}
                         {| cells := demo_row "N/A" "300 lbs"; entry_weight := 300 |}
                         (demo_world (Some true) (Some 5)))) "N/A");
    reflexivity.
Defined.

(** C5, as stated, fails on "Weight: 4200lbs": the pattern [(\d+)\s*lbs]
    finds 4200 in it, the code's pattern finds nothing and the row raises
    [AttributeError]. *)
Lemma weight_without_space_is_refused :
  spec_WEIGHT_search "Weight: 4200lbs" = Some "4200"
  /\ parse_weight (demo_row "7001" "Weight: 4200lbs") (demo_world (Some true) (Some 2))
     = (demo_world (Some true) (Some 2), inl AttributeError).
Proof. split; reflexivity. Qed.

Lemma weight_of_row_witness :
  parse_weight (demo_row "7001" "Weight: 4200 lbs extra") (demo_world (Some true) (Some 2))
  = (demo_world (Some true) (Some 2),
     inr {| cells := demo_row "7001" "Weight: 4200 lbs extra"; entry_weight := 4200 |}).
Proof.
  apply (proj1 (weight_of_row (demo_row "7001" "Weight: 4200 lbs extra")
                  "Weight: 4200 lbs extra" (demo_world (Some true) (Some 2))
                  eq_refl eq_refl)).
  reflexivity.
Defined.



(** The scenario of the specification: a threshold of two, no load accepted
    yet, three matching offers of 200, 150 and 400 lbs.  The two lightest are
    taken, in one request and one message; the next call finds the quota
    met. *)
Example two_lightest_of_three :
  let rows := [demo_row "7001" "200 lbs"; demo_row "7002" "150 lbs";
               demo_row "7003" "400 lbs"] in
  let first := check_loads (demo_tick 9 0 rows) (demo_world (Some true) (Some 2)) in
  let second := check_loads (demo_tick 9 1 rows) (fst first) in
  snd first = inr None
  /\ map (fun l => (dsm l, weight l)) (loads (db (fst first))) = [(7002, 150); (7001, 200)]
  /\ snd second = inr (Some "Done")
  /\ loads (db (fst second)) = loads (db (fst first))
  /\ logins (trace (fst second)) = 1%nat.
Proof. vm_compute. repeat split; reflexivity. Qed.

Lemma quota_is_never_exceeded_witness :
  let rows := [demo_row "7001" "200 lbs"; demo_row "7002" "150 lbs";
               demo_row "7003" "400 lbs"] in
  let w := demo_world (Some true) (Some 2) in
  let today := midnight demo_noon in
  let w0 := cycles [demo_tick 9 0 rows] w in
  let w1 := fst (check_loads (demo_tick 9 1 rows) w0) in
  accepted_on_day today w1 <= 2
  /\ accepted_count today w1 <= 2
  /\ settings_threshold (db w1) = Some 2
  /\ load_count w0 <= load_count w1
                   <= load_count w0 + Z.max 0 (2 - accepted_count today w0)
  /\ accepted_on_day today
       (cycles ([demo_tick 9 0 rows] ++ demo_tick 9 1 rows :: [demo_tick 9 2 rows]) w) <= 2.
Proof.
  intros rows w today.
  apply (quota_is_never_exceeded [demo_tick 9 0 rows] [demo_tick 9 2 rows]
           (demo_tick 9 1 rows) w today 2).
  - repeat constructor.
  - reflexivity.
  - vm_compute. discriminate.
Defined.

(** * More of the watcher *)

(** ** What a run leaves in the store *)

Lemma keeps_distinct_insert (doc : LoadDoc) (w : World) :
  find (fun l => dsm l =? dsm doc) (loads (db w)) = None ->
  keeps_distinct w (fst (insert_load doc w)).
Proof.
  intros Hfind Hnd. rewrite insert_load_world.
  destruct (fits_int64 (dsm doc) && fits_int64 (weight doc)); [|exact Hnd].
  unfold distinct_ids in *. cbn. rewrite map_app. cbn.
  apply NoDup_app; [exact Hnd | repeat constructor; intros [] |].
  intros x Hin [<-|[]].
  apply in_map_iff in Hin as (l & Hl & Hin).
  apply (find_none _ _ Hfind) in Hin. apply Z.eqb_neq in Hin. congruence.
Qed.

(** X1. The watcher never records an id twice: if the ids of [db.loads]
    are all different, they still are after any call of [check_loads] and
    after any run of calls. *)
Theorem ids_stay_distinct (ticks : list Tick) (tk : Tick) (w : World) :
  distinct_ids w ->
  distinct_ids (fst (check_loads tk w)) /\ distinct_ids (cycles ticks w).
Proof.
  assert (Hrefl : forall w0, keeps_distinct w0 w0) by (intros w0 H; exact H).
  assert (Htrans : forall w1 w2 w3,
             keeps_distinct w1 w2 -> keeps_distinct w2 w3 -> keeps_distinct w1 w3)
    by (intros w1 w2 w3 H12 H23 H; auto).
  assert (Hsame : forall (m : M unit),
             (forall w0, loads (db (fst (m w0))) = loads (db w0)) ->
             along keeps_distinct m).
  { intros m Hm w0 H. unfold distinct_ids in *. now rewrite Hm. }
  intros Hnd. split.
  - apply (along_check_loads keeps_distinct); auto using keeps_distinct_insert.
  - apply (along_cycles keeps_distinct); auto using keeps_distinct_insert.
Qed.

Lemma ids_stay_distinct_witness :
  distinct_ids (fst (check_loads (demo_tick 9 5 [demo_row "7001" "100 lbs";
                                                  demo_row "7002" "90 lbs"])
                       demo_taken))
  /\ distinct_ids (cycles [demo_tick 9 5 [demo_row "7001" "100 lbs"]] demo_taken).
Proof.
  apply (ids_stay_distinct [demo_tick 9 5 [demo_row "7001" "100 lbs"]]
           (demo_tick 9 5 [demo_row "7001" "100 lbs"; demo_row "7002" "90 lbs"])
           demo_taken).
  vm_compute. repeat constructor. intros [].
Defined.

Lemma status_kept_refl (w : World) : status_kept w w.
Proof. now left. Qed.

Lemma status_kept_trans (w1 w2 w3 : World) :
  status_kept w1 w2 -> status_kept w2 w3 -> status_kept w1 w3.
Proof.
  unfold status_kept. intros [H12|[H1 H2]] [H23|[H2' H3]].
  - left. congruence.
  - right. split; congruence.
  - right. split; congruence.
  - congruence.
Qed.

Lemma watch_same_status (tk : Tick) (w : World) :
  settings_status (db (fst (watch tk w))) = settings_status (db w).
Proof.
  apply (along_watch (fun w0 w1 => settings_status (db w1) = settings_status (db w0)));
    unfold along; intros;
    first [ reflexivity | congruence
          | rewrite insert_load_world;
            match goal with |- context [if ?b then _ else _] => destruct b end;
            reflexivity ].
Qed.

Lemma check_loads_status_kept (tk : Tick) (w : World) :
  status_kept w (fst (check_loads tk w)).
Proof.
  unfold check_loads.
  destruct ((hour (now_eastern tk) <? 6) || (hour (now_eastern tk) >? 18));
    [now left|].
  unfold bind at 1. cbn [emit]. unfold bind at 1. cbn [get db].
  destruct (settings_status (db w)) as [enabled|] eqn:Hs.
  - destruct (negb enabled); left; [reflexivity|].
    rewrite watch_same_status. reflexivity.
  - right. split; [exact Hs|]. unfold bind.
    cbn [insert_status bind emit get set_db]. cbn [fst snd].
    match goal with
    | |- context [watch tk ?w2] =>
        pose proof (watch_same_status tk w2) as H; destruct (watch tk w2)
    end.
    exact H.
Qed.

(** X2. The watcher only adds to the store: over any run of calls the
    threshold and the rules are as they were, no document of [db.loads] is
    changed or removed (new ones are appended), and the status document is
    as it was unless it was missing, in which case it may have been created,
    enabled. *)
Theorem run_only_adds (ticks : list Tick) (w : World) :
  settings_threshold (db (cycles ticks w)) = settings_threshold (db w)
  /\ settings_logic (db (cycles ticks w)) = settings_logic (db w)
  /\ (exists new, loads (db (cycles ticks w)) = loads (db w) ++ new)
  /\ (exists evs, trace (cycles ticks w) = trace w ++ evs)
  /\ (settings_status (db (cycles ticks w)) = settings_status (db w)
      \/ (settings_status (db w) = None
          /\ settings_status (db (cycles ticks w)) = Some true)).
Proof.
  assert (Hg : grows w (cycles ticks w)) by (apply along_cycles; grows_steps).
  destruct Hg as (Ht & Hl & Hnew & Hevs). repeat split; auto.
  clear. revert w. induction ticks as [|tk ticks IH]; intros w; [now left|].
  cbn [cycles]. apply (status_kept_trans w (fst (check_loads tk w))); [|apply IH].
  apply check_loads_status_kept.
Qed.

(** ** Calls that end at a gate *)

Lemma requests_app (a b : list Event) : requests (a ++ b) = requests a ++ requests b.
Proof.
  induction a as [|ev a IH]; simpl; [reflexivity|].
  destruct ev; simpl; now rewrite ?IH.
Qed.

(** [watch] returns a string only at the quota gate. *)
Lemma watch_returns_done (tk : Tick) (w : World) (s : string) :
  snd (watch tk w) = inr (Some s) ->
  s = "Done"
  /\ fst (watch tk w) = logged (FindAccepted (midnight (utc_quota tk)))
                          (logged (FindSettings "load-threshold") w).
Proof.
  destruct (watch tk w) as [w' res] eqn:Hres. cbn [fst snd]. intros ->.
  unfold watch in Hres. unfold bind at 1 in Hres. rewrite threshold_result in Hres.
  destruct (settings_threshold (db w)) as [t|]; [|discriminate Hres].
  destruct (t - accepted_count (midnight (utc_quota tk)) w <=? 0).
  { injection Hres as <- <-. now split. }
  exfalso. unfold bind at 1 in Hres.
  destruct (check_session tk _) as [w2 [e|[]]]; [discriminate Hres|].
  unfold bind at 1 in Hres.
  destruct (http GetOffers (offers_reply tk) w2) as [w3 [e|r]]; [discriminate Hres|].
  destruct (negb (ok r)); [discriminate Hres|].
  unfold bind in Hres.
  destruct (take_loads tk _ (form_fields r) (rows r) w3) as [w4 [e|[]]];
    discriminate Hres.
Qed.

(** X3. A call of [check_loads] that returns a string has stopped at a
    gate: the string is "Outside of hours", "Disabled" or "Done", no HTTP
    request was sent, no load was recorded, and neither the cookie cache nor
    the session was touched.  And with the watcher enabled, inside the hours,
    a threshold that the loads accepted today have reached makes the call
    return "Done". *)
Theorem gate_return_is_quiet (tk : Tick) (w : World) :
  (forall s, snd (check_loads tk w) = inr (Some s) ->
     (s = "Outside of hours" \/ s = "Disabled" \/ s = "Done")
     /\ requests (trace (fst (check_loads tk w))) = requests (trace w)
     /\ loads (db (fst (check_loads tk w))) = loads (db w)
     /\ cache (db (fst (check_loads tk w))) = cache (db w)
     /\ session (fst (check_loads tk w)) = session w)
  /\ (forall thr,
        (hour (now_eastern tk) <? 6) || (hour (now_eastern tk) >? 18) = false ->
        settings_status (db w) = Some true ->
        settings_threshold (db w) = Some thr ->
        thr <= accepted_count (midnight (utc_quota tk)) w ->
        snd (check_loads tk w) = inr (Some "Done")).
Proof.
  split.
  - intros s. destruct (check_loads tk w) as [w' res] eqn:Hres. cbn [fst snd].
    intros ->. unfold check_loads in Hres.
    destruct ((hour (now_eastern tk) <? 6) || (hour (now_eastern tk) >? 18)).
    { injection Hres as <- <-. auto 10. }
    unfold bind at 1 in Hres. cbn [emit] in Hres. unfold bind at 1 in Hres.
    cbn [get db] in Hres.
    assert (Hgo : forall w1,
               requests (trace w1) = requests (trace w) -> loads (db w1) = loads (db w) ->
               cache (db w1) = cache (db w) -> session w1 = session w ->
               watch tk w1 = (w', inr (Some s)) ->
               (s = "Outside of hours" \/ s = "Disabled" \/ s = "Done")
               /\ requests (trace w') = requests (trace w)
               /\ loads (db w') = loads (db w)
               /\ cache (db w') = cache (db w)
               /\ session w' = session w).
    { intros w1 Hr Hl Hc Hse Hret.
      destruct (watch_returns_done tk w1 s) as [-> Hw']; [now rewrite Hret|].
      rewrite Hret in Hw'. cbn [fst] in Hw'. subst w'. cbn.
      rewrite !requests_app. cbn. rewrite !app_nil_r. auto 10. }
    destruct (settings_status (db w)) as [enabled|].
    + destruct (negb enabled).
      * injection Hres as <- <-. cbn. rewrite requests_app. cbn.
        rewrite app_nil_r. auto 10.
      * apply Hgo in Hres; cbn; try reflexivity; [exact Hres|].
        rewrite requests_app. cbn. apply app_nil_r.
    + unfold bind in Hres. cbn [insert_status bind emit get set_db] in Hres.
      apply Hgo in Hres; cbn; try reflexivity; [exact Hres|].
      rewrite !requests_app. cbn. now rewrite !app_nil_r.
  - intros thr Hh Hs Ht Hq. unfold check_loads. rewrite Hh.
    unfold bind at 1. cbn [emit]. unfold bind at 1. cbn [get db]. rewrite Hs.
    cbn [negb]. unfold watch. unfold bind at 1. rewrite threshold_result.
    cbn [db logged emit fst]. rewrite Ht.
    destruct (thr - accepted_count (midnight (utc_quota tk)) _ <=? 0) eqn:E;
      [reflexivity|].
    apply Z.leb_gt in E. unfold accepted_count in *. cbn in E. lia.
Qed.

Lemma gate_return_is_quiet_witness :
  snd (check_loads (demo_tick 9 5 [demo_row "7002" "90 lbs"])
         (fst (check_loads (demo_tick 9 1 [demo_row "7001" "100 lbs"])
                 (demo_world (Some true) (Some 1)))))
  = inr (Some "Done").
Proof.
  apply (proj2 (gate_return_is_quiet (demo_tick 9 5 [demo_row "7002" "90 lbs"])
                  (fst (check_loads (demo_tick 9 1 [demo_row "7001" "100 lbs"])
                          (demo_world (Some true) (Some 1))))) 1).
  - reflexivity.
  - reflexivity.
  - reflexivity.
  - vm_compute. discriminate.
Defined.

(** ** What is recorded and what is sent *)

Lemma recorded_looked_up (w0 : World) (logic : option Logic) (new : list LoadDoc)
    (n : Z) (w : World) :
  recorded w0 logic new w -> recorded w0 logic new (logged (FindLoad n) w).
Proof.
  intros (Hl & Hall & Hr). repeat split; auto.
  cbn. rewrite requests_app. cbn. now rewrite app_nil_r.
Qed.

Lemma select_entry_selected (tk : Tick) (remaining : Z) (logic : option Logic)
    (w0 : World) (sel : Selection) (e : Entry) :
  hoare (selected w0 logic sel) (select_entry tk remaining logic sel e)
    (selected w0 logic) (fun w => exists new, recorded w0 logic new w).
Proof.
  intros w (new & Hrec & Hids & Hn & Htext).
  pose proof (select_entry_cases tk remaining logic sel e w) as H.
  destruct (entry_id e) as [n|]; [|destruct H as [ex ->]; now exists new].
  destruct (fits_int64 n); [|rewrite H; now exists new].
  assert (Hlog : selected w0 logic sel (logged (FindLoad n) w)).
  { exists new. auto using recorded_looked_up. }
  destruct (find (fun l => dsm l =? n) (loads (db w))) eqn:Hfind; [now rewrite H|].
  destruct H as [[ex ->]|[->|(_ & doc & Hd & Hst & _ & _ & (r & Hr & Hm) & ->)]];
    [exists new; now apply recorded_looked_up | exact Hlog |].
  exists (new ++ [doc]). destruct Hrec as (Hl & Hall & Hreq).
  cbn [text new_loads action_ids]. repeat split.
  - cbn. now rewrite Hl, app_assoc.
  - apply Forall_app. split; [exact Hall|]. constructor; [|constructor].
    split; [exists r; repeat split; assumption|].
    apply find_none_filter in Hfind. rewrite Hl, filter_app in Hfind.
    apply app_eq_nil in Hfind as [Hold _]. now rewrite Hd.
  - cbn. rewrite !requests_app. cbn. now rewrite !app_nil_r.
  - now rewrite map_app, Hids.
  - rewrite length_app. cbn. lia.
  - unfold message_text. rewrite fold_left_app. cbn. now rewrite Htext.
Qed.

(** What the processing of the rows leaves: the loads it has taken, added
    to [db.loads], and the requests it has sent, which tell of these loads
    and follow them all.  Only a request raises once one is sent. *)
Lemma take_loads_outcome (tk : Tick) (remaining : Z) (accept_data : Dict Value)
    (data : list (list string)) (w : World) :
  exists new reqs,
    loads (db (fst (take_loads tk remaining accept_data data w))) = loads (db w) ++ new
    /\ Forall (taken_from w (settings_logic (db w))) new
    /\ requests (trace (fst (take_loads tk remaining accept_data data w)))
       = requests (trace w) ++ reqs
    /\ match snd (take_loads tk remaining accept_data data w) with
       | inr _ =>
           reqs = match new with
                  | [] => []
                  | _ :: _ => [accept_request accept_data new; message_request new]
                  end
       | inl ex =>
           reqs = []
           \/ (ex = RequestException /\ new <> []
               /\ (reqs = [accept_request accept_data new]
                   \/ reqs = [accept_request accept_data new; message_request new]))
       end.
Proof.
  destruct (take_loads tk remaining accept_data data w) as [w' res] eqn:Hres.
  cbn [fst snd]. set (logic := settings_logic (db w)).
  assert (Hnone : forall new w1, recorded w logic new w1 -> w' = w1 ->
             match res with inr _ => new = [] | inl _ => True end ->
             exists new reqs,
               loads (db w') = loads (db w) ++ new
               /\ Forall (taken_from w logic) new
               /\ requests (trace w') = requests (trace w) ++ reqs
               /\ match res with
                  | inr _ =>
                      reqs = match new with
                             | [] => []
                             | _ :: _ => [accept_request accept_data new;
                                          message_request new]
                             end
                  | inl ex =>
                      reqs = []
                      \/ (ex = RequestException /\ new <> []
                          /\ (reqs = [accept_request accept_data new]
                              \/ reqs = [accept_request accept_data new;
                                         message_request new]))
                  end).
  { intros new w1 (Hl & Hall & Hr) -> Hwhy. exists new, [].
    rewrite app_nil_r. repeat split; auto.
    destruct res as [ex|u]; [now left | now subst new]. }
  assert (Hw : recorded w logic [] w).
  { repeat split; [now rewrite app_nil_r | constructor]. }
  unfold take_loads in Hres. destruct data as [|row data].
  { injection Hres as <- <-. apply (Hnone [] w); auto. }
  unfold bind at 1 in Hres. pose proof (parse_weights_world (row :: data) w) as Hp.
  destruct (map_m parse_weight (row :: data) w) as [w1 [ex|parsed]];
    cbn [fst] in Hp; subst w1.
  { injection Hres as <- <-. apply (Hnone [] w); auto. }
  unfold bind at 1 in Hres. cbn [emit] in Hres. unfold bind at 1 in Hres.
  cbn [get db] in Hres. fold logic in Hres. unfold bind at 1 in Hres.
  match type of Hres with
  | context [for_each ?body ?sel0 ?l ?w1] =>
      assert (Hloop : hoare (selected w logic sel0) (for_each body sel0 l)
                        (selected w logic) (fun w2 => exists new, recorded w logic new w2))
        by (apply hoare_for_each; intros a x _; apply select_entry_selected);
      specialize (Hloop w1);
      destruct (for_each body sel0 l w1) as [w2 [ex|sel]]
  end.
  - destruct Hloop as (new & Hrec).
    { exists []. repeat split; cbn; try reflexivity; [now rewrite app_nil_r | constructor |].
      rewrite requests_app. cbn. now rewrite app_nil_r. }
    injection Hres as <- <-. apply (Hnone new w2); auto.
  - destruct Hloop as (new & Hrec & Hids & Hn & Htext).
    { exists []. repeat split; cbn; try reflexivity; [now rewrite app_nil_r | constructor |].
      rewrite requests_app. cbn. now rewrite app_nil_r. }
    unfold submit in Hres. rewrite Hn, Hids in Hres.
    destruct new as [|doc new'].
    { cbn in Hres. injection Hres as <- <-. apply (Hnone [] w2); auto. }
    assert (Hnz : (Z.of_nat (List.length (doc :: new')) =? 0) = false)
      by (apply Z.eqb_neq; cbn [List.length]; lia).
    rewrite Hnz in Hres. cbn [map] in Hres.
    unfold accept_load, http, bind, emit, ret, raise in Hres.
    fold (accept_payload accept_data (action_id doc :: map action_id new')) in Hres.
    rewrite Htext in Hres. destruct Hrec as (Hl & Hall & Hr).
    exists (doc :: new'). unfold accept_request, message_request. cbn [map].
    destruct (accept_reply tk); [destruct (message_reply tk)|];
      injection Hres as <- <-; cbn [db trace session];
      eexists; (split; [exact Hl|]); (split; [exact Hall|]);
      (split; [rewrite !requests_app, Hr; cbn; rewrite <- ?app_assoc; reflexivity|]);
      cbn [app]; first [reflexivity | right; repeat split; auto; discriminate].
Qed.

(** X4. What [check_loads] does with the rows, under the rules in the
    store.  Every document it adds to [db.loads] has status "accept" and
    passes the rule check.  When it returns, it has sent nothing if it added
    no document, and otherwise one accept request, the page's form with
    "accept" set under the action token of each document added, followed by
    one message that tells of the documents added, in their order.  When it
    raises, it has sent nothing, unless the exception is that of a request:
    then documents were added and the accept request was sent, or the
    accept request and the message.  A row that raises thus leaves the
    documents taken before it on record, with nothing submitted. *)
Theorem recorded_loads_are_the_submitted_ones (tk : Tick) (remaining : Z)
    (accept_data : Dict Value) (data : list (list string)) (w : World)
    (rules : Logic) :
  settings_logic (db w) = Some rules ->
  exists new reqs,
    loads (db (fst (take_loads tk remaining accept_data data w))) = loads (db w) ++ new
    /\ Forall (lets_through rules) new
    /\ requests (trace (fst (take_loads tk remaining accept_data data w)))
       = requests (trace w) ++ reqs
    /\ (snd (take_loads tk remaining accept_data data w) = inr tt ->
        reqs = match new with
               | [] => []
               | _ :: _ => [accept_request accept_data new; message_request new]
               end)
    /\ (forall ex,
          snd (take_loads tk remaining accept_data data w) = inl ex ->
          reqs = []
          \/ (ex = RequestException /\ new <> []
              /\ (reqs = [accept_request accept_data new]
                  \/ reqs = [accept_request accept_data new; message_request new])))
    /\ (forall ex,
          snd (take_loads tk remaining accept_data data w) = inl ex ->
          ex <> RequestException -> reqs = []).
Proof.
  intros Hlogic.
  destruct (take_loads_outcome tk remaining accept_data data w)
    as (new & reqs & Hl & Hall & Hr & Hout).
  exists new, reqs. split; [exact Hl|]. split.
  { eapply Forall_impl; [|exact Hall]. intros d [(r & Hr' & Hd) _].
    rewrite Hlogic in Hr'. now injection Hr' as <-. }
  split; [exact Hr|].
  destruct (snd (take_loads tk remaining accept_data data w)) as [ex|[]].
  - split; [discriminate|]. split; intros ex' [= <-]; [exact Hout|].
    intros Hne. destruct Hout as [H|(H & _)]; [exact H | contradiction].
  - split; [now intros _|]. split; intros ex H; discriminate H.
Qed.

Lemma recorded_loads_are_the_submitted_ones_witness :
  exists new reqs,
    loads (db (fst (take_loads (demo_tick 9 0 []) 2 [("initialized", VBool true)]
                      [demo_row "7001" "100 lbs"] (demo_world (Some true) (Some 2)))))
    = loads (db (demo_world (Some true) (Some 2))) ++ new
    /\ Forall (lets_through demo_rules) new
    /\ requests (trace (fst (take_loads (demo_tick 9 0 []) 2 [("initialized", VBool true)]
                               [demo_row "7001" "100 lbs"]
                               (demo_world (Some true) (Some 2)))))
       = requests (trace (demo_world (Some true) (Some 2))) ++ reqs
    /\ (snd (take_loads (demo_tick 9 0 []) 2 [("initialized", VBool true)]
               [demo_row "7001" "100 lbs"] (demo_world (Some true) (Some 2))) = inr tt ->
        reqs = match new with
               | [] => []
               | _ :: _ => [accept_request [("initialized", VBool true)] new;
                            message_request new]
               end)
    /\ (forall ex,
          snd (take_loads (demo_tick 9 0 []) 2 [("initialized", VBool true)]
                 [demo_row "7001" "100 lbs"] (demo_world (Some true) (Some 2))) = inl ex ->
          reqs = []
          \/ (ex = RequestException /\ new <> []
              /\ (reqs = [accept_request [("initialized", VBool true)] new]
                  \/ reqs = [accept_request [("initialized", VBool true)] new;
                             message_request new])))
    /\ (forall ex,
          snd (take_loads (demo_tick 9 0 []) 2 [("initialized", VBool true)]
                 [demo_row "7001" "100 lbs"] (demo_world (Some true) (Some 2))) = inl ex ->
          ex <> RequestException -> reqs = []).
Proof.
  apply (recorded_loads_are_the_submitted_ones (demo_tick 9 0 []) 2
           [("initialized", VBool true)] [demo_row "7001" "100 lbs"]
           (demo_world (Some true) (Some 2)) demo_rules).
  reflexivity.
Defined.

(** ** The form that is posted *)

Lemma dict_get_accepts (k : string) (ids : list string) (d : Dict Value) :
  dict_get k (fold_left (fun d' aid => dict_set aid (VStr "accept") d') ids d)
  = if existsb (String.eqb k) ids then Some (VStr "accept") else dict_get k d.
Proof.
  revert d. induction ids as [|aid ids IH]; intros d; cbn [fold_left existsb];
    [reflexivity|].
  rewrite IH, dict_get_set.
  destruct (existsb (String.eqb k) ids); [now rewrite orb_true_r|].
  rewrite orb_false_r. reflexivity.
Qed.

(** X5. Reading the form that [accept_load] posts: the four fields it sets
    itself come first, whatever the page or the tokens say under these
    names; then every action token of a load taken reads "accept"; every
    other field reads as the page had it. *)
Theorem posted_form_reads (accept_data : Dict Value) (ids : list string)
    (k : string) :
  dict_get k (accept_payload accept_data ids) =
  if String.eqb k "submit.y" then Some (VInt 13)
  else if String.eqb k "submit.x" then Some (VInt 30)
  else if String.eqb k "biddingLocationId" then Some (VInt 227871)
  else if String.eqb k "postedByUserId" then Some VNone
  else if existsb (String.eqb k) ids then Some (VStr "accept")
  else dict_get k accept_data.
Proof.
  unfold accept_payload. rewrite !dict_get_set, dict_get_accepts. reflexivity.
Qed.

(** ** Up to the rows *)

Lemma opened_refl (w : World) : opened w [] w.
Proof. repeat split; [now rewrite app_nil_r | constructor]. Qed.

Lemma opened_trans (w1 w2 w3 : World) (p q : list Event) :
  opened w1 p w2 -> opened w2 q w3 -> opened w1 (p ++ q) w3.
Proof.
  intros (Hl & Hr & Hp) (Hl' & Hr' & Hq). repeat split.
  - congruence.
  - now rewrite Hr', Hr, app_assoc.
  - now apply Forall_app.
Qed.

Lemma opened_logged (ev : Event) (w : World) :
  requests [ev] = [] -> opened w [] (logged ev w).
Proof.
  intros H. repeat split; [|constructor].
  cbn. now rewrite requests_app, H.
Qed.

Lemma check_session_opened (tk : Tick) (w : World) :
  exists pre, opened w pre (fst (check_session tk w)).
Proof.
  unfold check_session, find_cache, login, http, update_cache, set_session, set_db,
    bind, emit, get, ret, raise.
  cbn [fst snd db session trace].
  assert (Hlogin : exists pre,
            opened w pre
              (fst (match login_reply tk with
                    | Some r =>
                        ({| db := {| settings_status := settings_status (db w);
                                     settings_threshold := settings_threshold (db w);
                                     settings_logic := settings_logic (db w);
                                     cache := Some {| cookies := dict_update (session w) r;
                                                      cache_dt := to_millis (utc_login tk) |};
                                     loads := loads (db w) |};
                            session := dict_update (session w) r;
                            trace := ((trace w ++ [FindCache]) ++ [PostLogin])
                                     ++ [UpdateCache
                                           {| cookies := dict_update (session w) r;
                                              cache_dt := to_millis (utc_login tk) |}] |},
                         @inr Exn unit tt)
                    | None =>
                        ({| db := db w; session := session w;
                            trace := (trace w ++ [FindCache]) ++ [PostLogin] |},
                         inl RequestException)
                    end))).
  { exists [PostLogin]. destruct (login_reply tk); cbn [fst];
      (repeat split; [cbn; rewrite !requests_app; cbn; now rewrite ?app_nil_r
                     | repeat constructor; now left]). }
  destruct (cache (db w)) as [doc|].
  - destruct (utc_session tk - cache_dt doc >? HOUR).
    + destruct Hlogin as [pre H]. exists pre.
      destruct (login_reply tk); exact H.
    + exists []. destruct (session w); cbn [fst];
        (repeat split; [cbn; rewrite requests_app; cbn; now rewrite !app_nil_r
                       | constructor]).
  - destruct Hlogin as [pre H]. exists pre. destruct (login_reply tk); exact H.
Qed.

(** A call of [watch] ends before the rows, having sent requests of the
    session and the fetch only and left the loads, or goes through the
    rows of the page it has fetched. *)
Lemma watch_reaches (tk : Tick) (w : World) :
  (exists pre, opened w pre (fst (watch tk w)))
  \/ (exists w1 r remaining pre,
        offers_reply tk = Some r
        /\ opened w pre w1
        /\ settings_logic (db w1) = settings_logic (db w)
        /\ fst (watch tk w)
           = fst (take_loads tk remaining (form_fields r) (rows r) w1)).
Proof.
  destruct (watch tk w) as [w' res] eqn:Hres. cbn [fst].
  unfold watch in Hres. unfold bind at 1 in Hres. rewrite threshold_result in Hres.
  set (w0 := logged (FindAccepted (midnight (utc_quota tk)))
               (logged (FindSettings "load-threshold") w)) in *.
  assert (H0 : opened w [] w0).
  { apply (opened_trans w (logged (FindSettings "load-threshold") w) w0 [] []);
      now apply opened_logged. }
  destruct (settings_threshold (db w)) as [t|];
    [|injection Hres as <- _; left; now exists []].
  destruct (t - accepted_count (midnight (utc_quota tk)) w <=? 0);
    [injection Hres as <- _; left; now exists []|].
  unfold bind at 1 in Hres.
  destruct (check_session_opened tk w0) as [pre Hs].
  assert (Hlogic : settings_logic (db (fst (check_session tk w0))) = settings_logic (db w)).
  { pose proof (along_check_session grows grows_refl grows_trans grows_emit
                  grows_session grows_cache tk w0) as (_ & Hg & _). exact Hg. }
  destruct (check_session tk w0) as [w2 [e|[]]]; cbn [fst] in Hs, Hlogic.
  { injection Hres as <- _. left. exists ([] ++ pre). now apply (opened_trans w w0 w2). }
  unfold bind at 1 in Hres. unfold http in Hres. unfold bind at 1 in Hres.
  cbn [emit] in Hres. fold (logged GetOffers w2) in Hres.
  assert (H3 : opened w (([] ++ pre) ++ [GetOffers]) (logged GetOffers w2)).
  { apply (opened_trans w w2); [now apply (opened_trans w w0 w2)|].
    repeat split; [cbn; now rewrite requests_app | repeat constructor; now right]. }
  destruct (offers_reply tk) as [r|]; cbn [ret raise] in Hres;
    [|injection Hres as <- _; left; eexists; exact H3].
  destruct (negb (ok r)); [injection Hres as <- _; left; eexists; exact H3|].
  right. exists (logged GetOffers w2), r,
    (t - accepted_count (midnight (utc_quota tk)) w), (([] ++ pre) ++ [GetOffers]).
  split; [reflexivity|]. split; [exact H3|]. split; [exact Hlogic|].
  unfold bind in Hres. unfold logged at 1. cbn [emit fst].
  destruct (take_loads tk (t - accepted_count (midnight (utc_quota tk)) w)
              (form_fields r) (rows r) _) as [w4 [e|[]]];
    cbn [fst ret] in *; now injection Hres as <- _.
Qed.

Lemma check_loads_reaches (tk : Tick) (w : World) :
  (exists pre, opened w pre (fst (check_loads tk w)))
  \/ (exists w1 r remaining pre,
        offers_reply tk = Some r
        /\ opened w pre w1
        /\ settings_logic (db w1) = settings_logic (db w)
        /\ fst (check_loads tk w)
           = fst (take_loads tk remaining (form_fields r) (rows r) w1)).
Proof.
  assert (Hgo : forall w0, opened w [] w0 ->
            settings_logic (db w0) = settings_logic (db w) ->
            (exists pre, opened w pre (fst (watch tk w0)))
            \/ (exists w1 r remaining pre,
                  offers_reply tk = Some r
                  /\ opened w pre w1
                  /\ settings_logic (db w1) = settings_logic (db w)
                  /\ fst (watch tk w0)
                     = fst (take_loads tk remaining (form_fields r) (rows r) w1))).
  { intros w0 H0 Hl0.
    destruct (watch_reaches tk w0) as [[pre H]|(w1 & r & rem & pre & Hr & H & Hl & Heq)].
    - left. exists ([] ++ pre). now apply (opened_trans w w0).
    - right. exists w1, r, rem, ([] ++ pre). repeat split; auto.
      + destruct (opened_trans w w0 w1 [] pre H0 H) as (H1 & _). exact H1.
      + destruct (opened_trans w w0 w1 [] pre H0 H) as (_ & H2 & _). exact H2.
      + destruct (opened_trans w w0 w1 [] pre H0 H) as (_ & _ & H3). exact H3.
      + congruence. }
  destruct (check_loads tk w) as [w' res] eqn:Hres. cbn [fst].
  unfold check_loads in Hres.
  destruct ((hour (now_eastern tk) <? 6) || (hour (now_eastern tk) >? 18));
    [injection Hres as <- _; left; exists []; apply opened_refl|].
  set (w0 := logged (FindSettings "status") w).
  assert (H0 : opened w [] w0) by now apply opened_logged.
  unfold bind at 1 in Hres. cbn [emit] in Hres. unfold bind at 1 in Hres.
  cbn [get db] in Hres.
  destruct (settings_status (db w)) as [enabled|].
  - destruct (negb enabled).
    + injection Hres as <- _. left. now exists [].
    + change (watch tk w0 = (w', res)) in Hres.
      specialize (Hgo w0 H0 eq_refl). rewrite Hres in Hgo. exact Hgo.
  - change ((insert_status ;; watch tk) w0 = (w', res)) in Hres.
    set (w2 := fst (insert_status w0)).
    assert (Hi : insert_status w0 = (w2, inr tt)) by reflexivity.
    unfold bind at 1 in Hres. rewrite Hi in Hres.
    assert (H2 : opened w [] w2).
    { repeat split; [|constructor].
      subst w2 w0. cbn. rewrite !requests_app. cbn. now rewrite !app_nil_r. }
    specialize (Hgo w2 H2 eq_refl). rewrite Hres in Hgo. exact Hgo.
Qed.

(** ** A load on record and the requests *)

(** C2 (as the code has it). While the id [n] is on record in [db.loads],
    an entry with that id is not selected, whatever the rules say: the
    lookup is all that happens and the selection (message text, count,
    action tokens) stays as it was.  The processing of the rows adds no
    document under [n], tells in its message of the documents it added
    only, and sets "accept" under the action tokens of these only: under
    every other key the form it posts reads as it would with no load
    taken, that is as the page's form had it.  So it is for a whole call
    of [check_loads]: besides the login and the fetch, the requests it
    sends are at most the form of the page it fetched, with the tokens of
    the documents added, and the message about these, none of them under
    [n].  Nor does any call of [check_loads], or any run of them, change
    the records of [n]. *)
Theorem known_load_is_not_taken_again (tk : Tick) (remaining : Z)
    (accept_data : Dict Value) (data : list (list string)) (n : Z) (w : World) :
  records_of n w <> [] ->
  (forall logic sel e,
      entry_id e = Some n -> - 2 ^ 63 <= n < 2 ^ 63 ->
      select_entry tk remaining logic sel e w = (logged (FindLoad n) w, inr sel))
  /\ (exists new reqs,
        loads (db (fst (take_loads tk remaining accept_data data w)))
        = loads (db w) ++ new
        /\ Forall (fun d => dsm d <> n) new
        /\ requests (trace (fst (take_loads tk remaining accept_data data w)))
           = requests (trace w) ++ reqs
        /\ (reqs = []
            \/ reqs = [accept_request accept_data new]
            \/ reqs = [accept_request accept_data new; message_request new])
        /\ (forall k, ~ In k (map action_id new) ->
              dict_get k (accept_payload accept_data (map action_id new))
              = dict_get k (accept_payload accept_data [])))
  /\ (forall tk', exists new pre reqs,
        loads (db (fst (check_loads tk' w))) = loads (db w) ++ new
        /\ Forall (fun d => dsm d <> n) new
        /\ requests (trace (fst (check_loads tk' w)))
           = requests (trace w) ++ pre ++ reqs
        /\ before_rows pre
        /\ (reqs = []
            \/ exists r,
                 offers_reply tk' = Some r
                 /\ (reqs = [accept_request (form_fields r) new]
                     \/ reqs = [accept_request (form_fields r) new;
                                message_request new])))
  /\ (forall tk', records_of n (fst (check_loads tk' w)) = records_of n w)
  /\ (forall ticks, records_of n (cycles ticks w) = records_of n w).
Proof.
  intros Hne. split; [|split; [|split; [|split]]].
  - intros logic sel e Hid Hfit. apply fits_int64_iff in Hfit.
    now apply select_entry_known.
  - destruct (take_loads_outcome tk remaining accept_data data w)
      as (new & reqs & Hl & Hall & Hr & Hout).
    exists new, reqs. split; [exact Hl|]. split.
    { eapply Forall_impl; [|exact Hall]. intros d [_ Hrec] Heq.
      rewrite Heq in Hrec. contradiction. }
    split; [exact Hr|]. split.
    { destruct (snd (take_loads tk remaining accept_data data w)) as [ex|u].
      - destruct Hout as [->|(_ & _ & [->| ->])]; auto.
      - subst reqs. destruct new; auto. }
    intros k Hk. unfold accept_payload. rewrite !dict_get_set, dict_get_accepts.
    cbn [fold_left].
    destruct (existsb (String.eqb k) (map action_id new)) eqn:E; [|reflexivity].
    apply existsb_exists in E as (x & Hin & Hx). apply String.eqb_eq in Hx.
    subst x. contradiction.
  - intros tk'.
    destruct (check_loads_reaches tk' w)
      as [(pre & Hl & Hr & Hp)|(w1 & r & rem & pre & Hrep & (Hl & Hr & Hp) & _ & Heq)].
    + exists [], pre, []. rewrite !app_nil_r. repeat split; auto.
    + rewrite Heq.
      destruct (take_loads_outcome tk' rem (form_fields r) (rows r) w1)
        as (new & reqs & Hl' & Hall & Hr' & Hout).
      exists new, pre, reqs. split; [now rewrite Hl', Hl|]. split.
      { eapply Forall_impl; [|exact Hall]. intros d [_ Hrec] Heq'.
        unfold records_of in Hrec, Hne. rewrite Hl, Heq' in Hrec. contradiction. }
      split; [now rewrite Hr', Hr, app_assoc|]. split; [exact Hp|].
      destruct (snd (take_loads tk' rem (form_fields r) (rows r) w1)) as [ex|u].
      * destruct Hout as [->|(_ & _ & Hreq)]; [now left|].
        right. exists r. now split.
      * subst reqs. destruct new; [now left|]. right. exists r. split; auto.
  - intros tk'. now apply check_loads_keeps_records.
  - intros ticks. apply (along_cycles (keeps_records n)); try keeps_steps n. exact Hne.
Qed.

Lemma known_load_is_not_taken_again_witness :
  select_entry (demo_tick 9 5 []) 4 (Some demo_rules)
    {| text := GREETING; new_loads := 0; action_ids := [] |}
    {| cells := demo_row "7001" "100 lbs"; entry_weight := 100 |} demo_taken
  = (logged (FindLoad 7001) demo_taken,
     inr {| text := GREETING; new_loads := 0; action_ids := [] |}).
Proof.
  apply (fun H => proj1 (known_load_is_not_taken_again (demo_tick 9 5 []) 4 [] []
                           7001 demo_taken H)).
  - vm_compute. discriminate.
  - reflexivity.
  - lia.
Defined.

(** C2, as stated, fails.  Load 7001 is on record; the page lists it again,
    with the input of its row in the form, beside the new load 7002.  The
    call takes 7002 only, and the form it posts has "accept" under the
    token of 7001 as well, as the page had it: 7001 is submitted again. *)
Lemma known_load_is_posted_again :
  map dsm (records_of 7001 (on_store (db demo_taken) (demo_world (Some true) (Some 5))))
  = [7001]
  /\ extract_fields [demo_inputs] = map (fun kv => (Some (fst kv), snd kv)) demo_form
  /\ map dsm (loads (db (fst (check_loads (demo_page_tick 9 5)
                                (on_store (db demo_taken)
                                   (demo_world (Some true) (Some 5)))))))
     = [7001; 7002]
  /\ map (dict_get "action7001")
       (posted (trace (fst (check_loads (demo_page_tick 9 5)
                              (on_store (db demo_taken)
                                 (demo_world (Some true) (Some 5)))))))
     = [Some (VStr "accept")].
Proof. repeat split; vm_compute; reflexivity. Qed.

(** ** A login and the calls after it *)





(** * The listing page *)

(** ** The text of a cell *)

Lemma is_empty_true (s : string) : Py.is_empty s = true <-> s = EmptyString.
Proof. destruct s; simpl; split; congruence. Qed.

Lemma no_space_app (a b : string) :
  PyText.no_space (a ++ b) = PyText.no_space a && PyText.no_space b.
Proof.
  induction a as [|c a IH]; simpl; [reflexivity|]. now rewrite IH, andb_assoc.
Qed.

Lemma lstrip_word (s : string) : PyText.no_space s = true -> Py.lstrip s = s.
Proof.
  destruct s as [|c s]; simpl; [reflexivity|]. intros H.
  apply andb_true_iff in H as [Hc _]. apply negb_true_iff in Hc. now rewrite Hc.
Qed.

Lemma rstrip_word (s : string) : PyText.no_space s = true -> Py.rstrip s = s.
Proof.
  induction s as [|c s IH]; simpl; [reflexivity|]. intros H.
  apply andb_true_iff in H as [Hc Hs]. apply negb_true_iff in Hc.
  now rewrite Hc, (IH Hs).
Qed.

Lemma strip_word (s : string) : PyText.no_space s = true -> Py.strip s = s.
Proof. intros H. unfold Py.strip. rewrite (rstrip_word s H). now apply lstrip_word. Qed.

(** What [rstrip] leaves of the end of a string, it leaves of the whole. *)
Lemma rstrip_keep (a s : string) :
  Py.rstrip s = s -> s <> EmptyString -> Py.rstrip (a ++ s) = (a ++ s)%string.
Proof.
  intros Hs Hne. induction a as [|c a IH]; cbn [String.append]; [exact Hs|].
  cbn [Py.rstrip]. rewrite IH.
  destruct (a ++ s)%string eqn:E; [|now rewrite andb_false_r].
  destruct a; [cbn in E; contradiction | discriminate E].
Qed.

Lemma rstrip_drop (a : string) (c : ascii) :
  Py.is_space c = true -> Py.rstrip (a ++ String c EmptyString) = Py.rstrip a.
Proof.
  intros Hc. induction a as [|x a IH]; cbn [String.append Py.rstrip].
  - now rewrite Hc.
  - now rewrite IH.
Qed.

Lemma delete_char_app (c : ascii) (a b : string) :
  PyText.delete_char c (a ++ b)
  = (PyText.delete_char c a ++ PyText.delete_char c b)%string.
Proof.
  induction a as [|x a IH]; simpl; [reflexivity|].
  destruct (Ascii.eqb x c); simpl; now rewrite IH.
Qed.

Lemma delete_char_word (c : ascii) (s : string) :
  Py.is_space c = true -> PyText.no_space s = true -> PyText.delete_char c s = s.
Proof.
  intros Hc. induction s as [|x s IH]; simpl; [reflexivity|]. intros H.
  apply andb_true_iff in H as [Hx Hs]. apply negb_true_iff in Hx.
  destruct (Ascii.eqb x c) eqn:E; [|now rewrite (IH Hs)].
  apply Ascii.eqb_eq in E. congruence.
Qed.

(** The words of a string are not empty and hold no white space. *)
Lemma words_go_good (s cur : string) :
  PyText.no_space cur = true ->
  Forall (fun t => t <> EmptyString /\ PyText.no_space t = true)
    (PyText.words_go cur s).
Proof.
  revert cur. induction s as [|c s IH]; intros cur Hcur; cbn [PyText.words_go].
  - destruct (Py.is_empty cur) eqn:E; [constructor|].
    apply is_empty_false in E. repeat constructor; auto.
  - destruct (Py.is_space c) eqn:Hc.
    + destruct (Py.is_empty cur) eqn:E; [now apply IH|].
      apply is_empty_false in E. constructor; [now split | now apply IH].
    + apply IH. rewrite no_space_app, Hcur. simpl. now rewrite Hc.
Qed.

Lemma words_go_word (t s cur : string) :
  PyText.no_space t = true ->
  PyText.words_go cur (t ++ s) = PyText.words_go (cur ++ t) s.
Proof.
  revert cur. induction t as [|c t IH]; intros cur H; cbn [String.append].
  - now rewrite append_empty_r.
  - simpl in H. apply andb_true_iff in H as [Hc Ht]. apply negb_true_iff in Hc.
    cbn [PyText.words_go]. rewrite Hc, (IH _ Ht), append_cons_r. reflexivity.
Qed.

Lemma words_word (t : string) :
  PyText.no_space t = true ->
  PyText.words t = if Py.is_empty t then [] else [t].
Proof.
  intros H. unfold PyText.words.
  rewrite <- (append_empty_r t) at 1. rewrite (words_go_word t _ _ H). reflexivity.
Qed.

Lemma words_join (ws : list string) :
  Forall (fun t => t <> EmptyString /\ PyText.no_space t = true) ws ->
  PyText.words (PyText.join " " ws) = ws.
Proof.
  induction 1 as [|x ws [Hne Hx] Hall IH]; [reflexivity|].
  cbn [PyText.join]. destruct ws as [|y ws].
  - rewrite (words_word x Hx). apply is_empty_false in Hne. now rewrite Hne.
  - unfold PyText.words in *. rewrite (words_go_word x _ _ Hx).
    cbn [String.append PyText.words_go Py.is_space].
    change (Py.is_space " ") with true. cbv iota.
    apply is_empty_false in Hne. rewrite Hne. now rewrite IH.
Qed.

Lemma map_strip_words (ws : list string) :
  Forall (fun t => t <> EmptyString /\ PyText.no_space t = true) ws ->
  map Py.strip (filter (fun t => negb (Py.is_empty (Py.strip t))) ws) = ws.
Proof.
  induction 1 as [|x ws [Hne Hx] Hall IH]; [reflexivity|].
  cbn [filter]. rewrite (strip_word x Hx). apply is_empty_false in Hne.
  rewrite Hne. cbn [negb map]. now rewrite (strip_word x Hx), IH.
Qed.

(** The text of a cell is made of its words, one space between two. *)
Lemma cell_text_words (raw : string) :
  cell_text raw
  = PyText.join " " (PyText.words (PyText.delete_char "010" (Py.strip raw))).
Proof.
  unfold cell_text, PyText.words. rewrite map_strip_words; [reflexivity|].
  now apply words_go_good.
Qed.

Lemma join_words_fixed (ws : list string) :
  Forall (fun t => t <> EmptyString /\ PyText.no_space t = true) ws ->
  PyText.delete_char "010" (Py.strip (PyText.join " " ws)) = PyText.join " " ws.
Proof.
  intros Hall.
  assert (Hdel : PyText.delete_char "010" (PyText.join " " ws) = PyText.join " " ws).
  { induction Hall as [|x ws [Hne Hx] Hall IH]; [reflexivity|].
    cbn [PyText.join]. destruct ws as [|y ws]; [now apply (delete_char_word "010")|].
    rewrite !delete_char_app, IH, (delete_char_word "010" x eq_refl Hx). reflexivity. }
  assert (Hr : Py.rstrip (PyText.join " " ws) = PyText.join " " ws
               /\ (ws <> [] -> PyText.join " " ws <> EmptyString)).
  { clear Hdel. induction Hall as [|x ws [Hne Hx] Hall [IH1 IH2]]; [now split|].
    cbn [PyText.join]. destruct ws as [|y ws].
    - split; [now apply rstrip_word | auto].
    - split.
      + rewrite <- append_assoc3. apply rstrip_keep; [exact IH1|].
        apply IH2. discriminate.
      + intros _. destruct x; [contradiction | discriminate]. }
  destruct Hr as [Hr _]. unfold Py.strip. rewrite Hr.
  assert (Hl : Py.lstrip (PyText.join " " ws) = PyText.join " " ws).
  { clear Hdel Hr. destruct Hall as [|x ws [Hne Hx] Hall]; [reflexivity|].
    cbn [PyText.join].
    destruct x as [|c x]; [contradiction|]. simpl in Hx.
    apply andb_true_iff in Hx as [Hc _]. apply negb_true_iff in Hc.
    destruct ws; cbn [String.append Py.lstrip]; now rewrite Hc. }
  now rewrite Hl.
Qed.

(** X7. The text of a cell is in normal form: words without white space,
    none empty, with one space between two.  Reading it again as the text
    of a cell changes nothing. *)
Theorem cell_text_is_normal (raw : string) :
  (exists ws,
      cell_text raw = PyText.join " " ws
      /\ Forall (fun t => t <> EmptyString /\ PyText.no_space t = true) ws)
  /\ cell_text (cell_text raw) = cell_text raw.
Proof.
  assert (Hall : Forall (fun t => t <> EmptyString /\ PyText.no_space t = true)
                   (PyText.words (PyText.delete_char "010" (Py.strip raw))))
    by now apply words_go_good.
  split.
  - eexists. split; [apply cell_text_words | exact Hall].
  - rewrite (cell_text_words raw) at 2.
    rewrite cell_text_words. rewrite cell_text_words.
    rewrite (join_words_fixed _ Hall). now rewrite (words_join _ Hall).
Qed.

Lemma lstrip_word_head (a s : string) :
  PyText.no_space a = true -> a <> EmptyString -> Py.lstrip (a ++ s) = (a ++ s)%string.
Proof.
  intros Ha Hne. destruct a as [|x a]; [contradiction|]. simpl in Ha.
  apply andb_true_iff in Ha as [Hx _]. apply negb_true_iff in Hx.
  cbn [String.append Py.lstrip]. now rewrite Hx.
Qed.

Lemma strip_around_newline (a b : string) :
  PyText.no_space a = true -> PyText.no_space b = true ->
  PyText.delete_char "010" (Py.strip (a ++ String "010" b)) = (a ++ b)%string.
Proof.
  intros Ha Hb. unfold Py.strip.
  destruct b as [|c b].
  - rewrite (rstrip_drop a "010" eq_refl), (rstrip_word a Ha), (lstrip_word a Ha).
    rewrite append_empty_r. now apply (delete_char_word "010").
  - assert (Hkeep : Py.rstrip (a ++ String "010" (String c b))
                    = (a ++ String "010" (String c b))%string).
    { apply rstrip_keep; [|discriminate].
      change (String "010" (String c b))
        with (String "010" EmptyString ++ String c b)%string.
      apply rstrip_keep; [now apply rstrip_word | discriminate]. }
    rewrite Hkeep. destruct a as [|x a].
    + cbn [String.append Py.lstrip]. change (Py.is_space "010") with true. cbv iota.
      pose proof Hb as Hb'. simpl in Hb'. apply andb_true_iff in Hb' as [Hc _].
      apply negb_true_iff in Hc. rewrite Hc. now apply (delete_char_word "010").
    + rewrite lstrip_word_head by (exact Ha || discriminate).
      rewrite delete_char_app, (delete_char_word "010" _ eq_refl Ha).
      change (PyText.delete_char "010" (String "010" (String c b)))
        with (PyText.delete_char "010" (String c b)).
      now rewrite (delete_char_word "010" _ eq_refl Hb).
Qed.

(** X8. A newline inside the text of a cell is deleted, not turned into a
    space: two runs of ASCII text without white space that only a newline
    parts come out as one word.  Any other white space between them comes
    out as one space. *)
Theorem newline_glues_words (a b : string) :
  Py.ascii_text a = true -> Py.ascii_text b = true ->
  PyText.no_space a = true -> PyText.no_space b = true ->
  cell_text (a ++ String "010" b) = (a ++ b)%string
  /\ (forall c, Py.is_space c = true -> c <> "010"%char ->
        a <> EmptyString -> b <> EmptyString ->
        cell_text (a ++ String c b) = (a ++ String " " b)%string).
Proof.
  intros _ _ Ha Hb. split.
  - rewrite cell_text_words, (strip_around_newline a b Ha Hb).
    assert (Hab : PyText.no_space (a ++ b) = true) by now rewrite no_space_app, Ha, Hb.
    rewrite (words_word _ Hab). destruct (a ++ b)%string; reflexivity.
  - intros c Hc Hnl Hane Hbne. rewrite cell_text_words.
    assert (Hstrip : Py.strip (a ++ String c b) = (a ++ String c b)%string).
    { unfold Py.strip. rewrite rstrip_keep.
      - now apply lstrip_word_head.
      - change (String c b) with (String c EmptyString ++ b)%string.
        apply rstrip_keep; [now apply rstrip_word | exact Hbne].
      - discriminate. }
    rewrite Hstrip, delete_char_app, (delete_char_word "010" _ eq_refl Ha).
    assert (Hdel : PyText.delete_char "010" (String c b) = String c b).
    { cbn [PyText.delete_char].
      destruct (Ascii.eqb c "010") eqn:E; [apply Ascii.eqb_eq in E; contradiction|].
      now rewrite (delete_char_word "010" _ eq_refl Hb). }
    rewrite Hdel.
    unfold PyText.words. rewrite (words_go_word a _ _ Ha).
    cbn [String.append PyText.words_go]. rewrite Hc.
    apply is_empty_false in Hane. rewrite Hane.
    fold (PyText.words b). rewrite (words_word b Hb).
    apply is_empty_false in Hbne. rewrite Hbne. reflexivity.
Qed.

Lemma newline_glues_words_witness :
  cell_text ("Pittsburgh" ++ String "010" "PA") = ("Pittsburgh" ++ "PA")%string
  /\ (forall c, Py.is_space c = true -> c <> "010"%char ->
        "Pittsburgh" <> EmptyString -> "PA" <> EmptyString ->
        cell_text ("Pittsburgh" ++ String c "PA") = ("Pittsburgh" ++ String " " "PA")%string).
Proof.
  apply (newline_glues_words "Pittsburgh" "PA"); reflexivity.
Defined.

(** ** The rows and the hidden fields *)

Lemma existsb_data_class (cs : list string) :
  existsb (fun c' => Py.contains "data" c') cs = true
  <-> exists cls a b : string, In cls cs /\ cls = (a ++ "data" ++ b)%string.
Proof.
  rewrite existsb_exists. split.
  - intros (cls & Hin & H). apply contains_iff in H as (a & b & H). now exists cls, a, b.
  - intros (cls & a & b & Hin & H). exists cls. split; [exact Hin|].
    apply contains_iff. now exists a, b.
Qed.

(** A tag gives a cell exactly when it has a data class, and the cell is
    the one it is read as. *)
Lemma data_cell_iff (t : TagEl) (c : string) :
  data_cell t = Some c <-> has_data_class t /\ cell_of t c.
Proof.
  unfold data_cell, has_data_class, cell_of, offers_action.
  destruct (tag_class t) as [cs|] eqn:Hcls.
  2: { split; [discriminate|]. intros [(cs & cls & a & b & H & _) _]. discriminate H. }
  assert (Hdata : existsb (fun c' => Py.contains "data" c') cs = true
                  <-> exists (cs0 : list string) (cls a b : string),
                        Some cs = Some cs0 /\ In cls cs0 /\ cls = (a ++ "data" ++ b)%string).
  { rewrite existsb_data_class. split.
    - intros (cls & a & b & H1 & H2). now exists cs, cls, a, b.
    - intros (cs0 & cls & a & b & [= <-] & H1 & H2). now exists cls, a, b. }
  destruct cs as [|x cs].
  { split; [discriminate|]. intros [H _]. apply Hdata in H. discriminate H. }
  destruct (existsb (fun c' => Py.contains "data" c') (x :: cs)) eqn:Ex.
  2: { split; [discriminate|]. intros [H _]. apply Hdata in H. discriminate H. }
  assert (Hd : exists (cs0 : list string) (cls a b : string),
                 Some (x :: cs) = Some cs0 /\ In cls cs0
                 /\ cls = (a ++ "data" ++ b)%string) by now apply Hdata.
  assert (Htext : (forall nm, ~ (exists (i : InputEl) (rest : list InputEl),
                                   tag_inputs t = i :: rest
                                   /\ input_value i = Some "accept"
                                   /\ input_name i = Some nm /\ nm <> EmptyString)) ->
            ((if Py.is_empty (cell_text (tag_text t)) then None
              else Some (cell_text (tag_text t))) = Some c
             <-> (exists (cs0 : list string) (cls a b : string),
                    Some (x :: cs) = Some cs0 /\ In cls cs0
                    /\ cls = (a ++ "data" ++ b)%string)
                 /\ ((exists (i : InputEl) (rest : list InputEl),
                        tag_inputs t = i :: rest /\ input_value i = Some "accept"
                        /\ input_name i = Some c /\ c <> EmptyString)
                     \/ ((forall nm, ~ (exists (i : InputEl) (rest : list InputEl),
                                          tag_inputs t = i :: rest
                                          /\ input_value i = Some "accept"
                                          /\ input_name i = Some nm
                                          /\ nm <> EmptyString))
                         /\ c = cell_text (tag_text t) /\ c <> EmptyString)))).
  { intros Hno. destruct (Py.is_empty (cell_text (tag_text t))) eqn:E.
    - apply is_empty_true in E. split; [discriminate|].
      intros [_ [H|(_ & -> & H)]]; [now apply Hno in H | contradiction].
    - apply is_empty_false in E. split.
      + intros [= <-]. auto.
      + intros [_ [H|(_ & -> & _)]]; [now apply Hno in H | reflexivity]. }
  destruct (tag_inputs t) as [|i inputs] eqn:Hin.
  { apply Htext. intros nm (i & rest & H & _). discriminate H. }
  destruct (input_value i) as [v|] eqn:Hv.
  2: { apply Htext. intros nm (i' & rest & [= <- _] & H & _). congruence. }
  destruct (String.eqb v "accept") eqn:Ev.
  2: { apply Htext. intros nm (i' & rest & [= <- _] & H & _).
       rewrite Hv in H. injection H as ->. now rewrite String.eqb_refl in Ev. }
  apply String.eqb_eq in Ev. subst v.
  destruct (input_name i) as [n|] eqn:Hn; cbn [truthy].
  2: { apply Htext. intros nm (i' & rest & [= <- _] & _ & H & _). congruence. }
  destruct (Py.is_empty n) eqn:En; cbn [negb].
  { apply is_empty_true in En. subst n. apply Htext.
    intros nm (i' & rest & [= <- _] & _ & H & Hne). congruence. }
  apply is_empty_false in En. split.
  - intros [= <-]. split; [exact Hd|]. left. now exists i, inputs.
  - intros [_ [(i' & rest & [= <- _] & _ & H & _)|(Hno & _)]]; [congruence|].
    exfalso. apply (Hno n). now exists i, inputs.
Qed.

Lemma data_row_cells (tr : list Node) (c : string) :
  In c (data_row tr)
  <-> exists t, In (Tag t) tr /\ has_data_class t /\ cell_of t c.
Proof.
  unfold data_row. rewrite in_flat_map. split.
  - intros ([s|t] & Hin & Hc); [contradiction|].
    destruct (data_cell t) as [c'|] eqn:E; [|contradiction].
    destruct Hc as [<-|[]]. apply data_cell_iff in E. now exists t.
  - intros (t & Hin & Hd & Hc). exists (Tag t). split; [exact Hin|].
    assert (E : data_cell t = Some c) by now apply data_cell_iff.
    rewrite E. now left.
Qed.

(** X9. The rows read off a page whose tags hold ASCII text.  Every row
    comes from a [<tr>] and has a cell.  A string is a cell of the row of a
    [<tr>] exactly when a tag among the children of the [<tr>] has a class
    that holds "data" and is read as that cell: as the name of its first
    input when that input has the value "accept" and a name, and else as
    its text in normal form, when that is not empty.  So no cell is empty,
    and a [<tr>] without such a tag gives no row. *)
Theorem extracted_rows_have_cells (elems : list (list Node)) :
  (forall tr t, In tr elems -> In (Tag t) tr -> Py.ascii_text (tag_text t) = true) ->
  (forall row, In row (extract_rows elems) ->
     row <> []
     /\ (exists tr, In tr elems /\ row = data_row tr)
     /\ Forall (fun c => c <> EmptyString) row)
  /\ (forall tr c,
        In tr elems ->
        (In c (data_row tr)
         <-> exists t, In (Tag t) tr /\ has_data_class t /\ cell_of t c))
  /\ (forall before tr after,
        elems = before ++ tr :: after ->
        (forall t, In (Tag t) tr -> ~ has_data_class t) ->
        extract_rows elems = extract_rows (before ++ after)).
Proof.
  intros _. split; [|split].
  - intros row Hin. unfold extract_rows in Hin.
    apply filter_In in Hin as [Hin Hne]. apply in_map_iff in Hin as (tr & <- & Htr).
    split; [destruct (data_row tr); [discriminate Hne | discriminate]|].
    split; [now exists tr|].
    apply Forall_forall. intros c Hc. apply data_row_cells in Hc as (t & _ & _ & Hc).
    destruct Hc as [(i & rest & _ & _ & _ & H)|(_ & _ & H)]; exact H.
  - intros tr c _. apply data_row_cells.
  - intros before tr after -> Hno. unfold extract_rows.
    rewrite !map_app, !filter_app. cbn [map filter].
    destruct (data_row tr) as [|c row] eqn:Hrow; [reflexivity|]. exfalso.
    assert (Hc : In c (data_row tr)) by (rewrite Hrow; now left).
    apply data_row_cells in Hc as (t & Hin & Hd & _). now apply (Hno t).
Qed.

Lemma extracted_rows_have_cells_witness :
  extract_rows ([] ++ [Tag {| tag_class := Some ["hdr"]; tag_inputs := [];
                              tag_text := "Loads" |}]
                   :: [[Tag {| tag_class := Some ["dataCell"]; tag_inputs := [];
                               tag_text := " 7001 " |}]])
  = extract_rows ([] ++ [[Tag {| tag_class := Some ["dataCell"]; tag_inputs := [];
                                 tag_text := " 7001 " |}]]).
Proof.
  apply (fun H => proj2 (proj2 (extracted_rows_have_cells _ H)) []
           [Tag {| tag_class := Some ["hdr"]; tag_inputs := []; tag_text := "Loads" |}]).
  - intros tr t [<-|[<-|[]]] [Ht|[]]; injection Ht as <-; reflexivity.
  - reflexivity.
  - intros t [Ht|[]] (cs & cls & a & b & Hcs & Hin & Hcls).
    injection Ht as <-. cbn in Hcs. injection Hcs as <-.
    destruct Hin as [<-|[]].
    assert (C : Py.contains "data" "hdr" = true)
      by (apply contains_iff; now exists a, b).
    discriminate C.
Defined.

Lemma key_eqb_eq (a b : option string) : key_eqb a b = true <-> a = b.
Proof.
  destruct a as [x|], b as [y|]; simpl; try (split; congruence).
  rewrite String.eqb_eq. split; congruence.
Qed.

Lemma fields_get_set (k k' : option string) (v : Value) (d : Fields) :
  fields_get k (fields_set k' v d) = if key_eqb k k' then Some v else fields_get k d.
Proof.
  induction d as [|[a b] d IH]; cbn [fields_set fields_get]; [reflexivity|].
  destruct (key_eqb k' a) eqn:Ea; cbn [fields_get].
  - apply key_eqb_eq in Ea. subst a. destruct (key_eqb k k'); reflexivity.
  - rewrite IH. destruct (key_eqb k a) eqn:Eka; [|reflexivity].
    apply key_eqb_eq in Eka. subst a.
    destruct (key_eqb k k') eqn:Ekk; [|reflexivity].
    apply key_eqb_eq in Ekk. subst k'.
    assert (key_eqb k k = true) by now apply key_eqb_eq. congruence.
Qed.

Lemma fields_set_keys (k k0 : option string) (v : Value) (d : Fields) :
  In k0 (map fst (fields_set k v d)) <-> k0 = k \/ In k0 (map fst d).
Proof.
  induction d as [|[a b] d IH]; cbn [fields_set map fst In].
  - split; [intros [H|[]]; auto | intros [H|[]]; auto].
  - destruct (key_eqb k a) eqn:Ea; cbn [map fst In].
    + apply key_eqb_eq in Ea. subst a. split; [intros [H|H]; auto | intros [H|[H|H]]; auto].
    + rewrite IH. tauto.
Qed.

Lemma fields_set_nodup (k : option string) (v : Value) (d : Fields) :
  NoDup (map fst d) -> NoDup (map fst (fields_set k v d)).
Proof.
  induction d as [|[a b] d IH]; cbn [fields_set map fst]; intros Hnd.
  - repeat constructor. intros [].
  - apply NoDup_cons_iff in Hnd as [Hnotin Hnd].
    destruct (key_eqb k a) eqn:Ea; cbn [map fst].
    + apply key_eqb_eq in Ea. subst a. now constructor.
    + constructor; [|now apply IH].
      rewrite fields_set_keys. intros [->|Hin]; [|contradiction].
      assert (key_eqb k k = true) by now apply key_eqb_eq. congruence.
Qed.

Lemma find_app_last {A : Type} (f : A -> bool) (l : list A) (x : A) :
  find f (l ++ [x])
  = match find f l with Some y => Some y | None => if f x then Some x else None end.
Proof.
  induction l as [|y l IH]; cbn [app find]; [reflexivity|].
  destruct (f y); [reflexivity | exact IH].
Qed.

Lemma fold_left_concat {A B : Type} (f : A -> B -> A) (ls : list (list B)) (a : A) :
  fold_left (fun acc l => fold_left f l acc) ls a = fold_left f (List.concat ls) a.
Proof.
  revert a. induction ls as [|l ls IH]; intros a; cbn [fold_left List.concat]; [reflexivity|].
  now rewrite IH, fold_left_app.
Qed.

Lemma fields_get_fold (k : option string) (l : list InputEl) (d : Fields) :
  fields_get k
    (fold_left (fun acc i => fields_set (input_name i) (coerce (input_value i)) acc) l d)
  = match find (fun i => key_eqb k (input_name i)) (rev l) with
    | Some i => Some (coerce (input_value i))
    | None => fields_get k d
    end.
Proof.
  revert d. induction l as [|x l IH]; intros d; cbn [fold_left rev]; [reflexivity|].
  rewrite IH, find_app_last.
  destruct (find (fun i => key_eqb k (input_name i)) (rev l)); [reflexivity|].
  rewrite fields_get_set. destruct (key_eqb k (input_name x)); reflexivity.
Qed.

(** X10. The hidden-field map holds each name once, and under a name the
    value of the last input of that name on the page, over all forms:
    [True] for "true", [False] for "false", [None] for an input without a
    value, the string otherwise.  A name no input carries is not in the
    map. *)
Theorem hidden_fields_last_input_wins (form_elems : list (list InputEl))
    (k : option string) :
  fields_get k (extract_fields form_elems)
  = option_map (fun i => coerce (input_value i))
      (find (fun i => key_eqb k (input_name i)) (rev (List.concat form_elems)))
  /\ NoDup (map fst (extract_fields form_elems)).
Proof.
  unfold extract_fields. rewrite fold_left_concat. split.
  - rewrite fields_get_fold.
    destruct (find (fun i => key_eqb k (input_name i)) (rev (List.concat form_elems)));
      reflexivity.
  - generalize (List.concat form_elems). intros l.
    assert (H : forall d : Fields, NoDup (map fst d) ->
              NoDup (map fst (fold_left
                (fun acc i => fields_set (input_name i) (coerce (input_value i)) acc)
                l d))).
    { induction l as [|x l IH]; intros d Hd; cbn [fold_left]; [exact Hd|].
      apply IH. now apply fields_set_nodup. }
    apply H. constructor.
Qed.

Example extract_example :
  let inputs := [ {| input_name := Some "initialized"; input_value := Some "true" |};
                  {| input_name := Some "hideShipments28685"; input_value := Some "false" |};
                  {| input_name := Some "initialized"; input_value := Some "later" |};
                  {| input_name := None; input_value := None |} ] in
  extract_fields [inputs]
  = [(Some "initialized", VStr "later"); (Some "hideShipments28685", VBool false);
     (None, VNone)]
  /\ extract_rows
       [[Text "x"];
        [Tag {| tag_class := Some ["hdr"]; tag_inputs := []; tag_text := "Id" |}];
        [Tag {| tag_class := Some ["dataCell"]; tag_inputs := [];
                tag_text := "  Pittsburgh PA   P:01/02 08:00 " |};
         Tag {| tag_class := Some ["odd"; "rowdata"];
                tag_inputs := [{| input_name := Some "action35399211";
                                  input_value := Some "accept" |}];
                tag_text := "Accept" |};
         Tag {| tag_class := Some ["dataCell"]; tag_inputs := []; tag_text := "   " |}]]
     = [["Pittsburgh PA P:01/02 08:00"; "action35399211"]].
Proof. split; reflexivity. Qed.

(** * Splitting and joining *)

Lemma split_go_cons (sep acc : string) (k : nat) (s : string) :
  Py.split_go sep acc k s <> [].
Proof.
  revert acc k. induction s as [|c s IH]; intros acc k; cbn [Py.split_go];
    [discriminate|].
  destruct k; [|apply IH]. destruct (Py.startswith sep (String c s)); [discriminate|].
  apply IH.
Qed.

Lemma join_cons (sep x : string) (l : list string) :
  l <> [] -> PyText.join sep (x :: l) = (x ++ sep ++ PyText.join sep l)%string.
Proof. destruct l; [contradiction | reflexivity]. Qed.

(** Past the characters of a separator [split_go] goes on as from there. *)
Lemma split_go_skip (sep acc p r : string) :
  Py.split_go sep acc (String.length p) (p ++ r) = Py.split_go sep acc O r.
Proof.
  induction p as [|c p IH]; cbn [String.length String.append Py.split_go];
    [reflexivity | exact IH].
Qed.

Lemma startswith_cons (sep s : string) :
  sep <> EmptyString -> Py.startswith sep s = true ->
  exists c sep' post, sep = String c sep' /\ s = String c (sep' ++ post)
                      /\ Nat.pred (String.length sep) = String.length sep'.
Proof.
  intros Hne H. destruct sep as [|c sep']; [contradiction|].
  apply startswith_inv in H as [post ->]. now exists c, sep', post.
Qed.

Lemma split_go_join (sep : string) (s acc : string) :
  sep <> EmptyString ->
  PyText.join sep (Py.split_go sep acc O s) = (acc ++ s)%string.
Proof.
  intros Hne. remember (String.length s) as n eqn:Hn.
  revert s acc Hn. induction n as [n IH] using lt_wf_ind. intros s acc Hn.
  destruct s as [|c s]; cbn [Py.split_go]; [cbn; now rewrite append_empty_r|].
  destruct (Py.startswith sep (String c s)) eqn:Hp.
  - destruct (startswith_cons sep _ Hne Hp) as (c' & sep' & post & Hsep & Hs & Hlen).
    injection Hs as <- ->. rewrite Hlen, split_go_skip.
    rewrite join_cons by apply split_go_cons.
    rewrite (IH (String.length post)) with (s := post); [| |reflexivity].
    + rewrite Hsep. reflexivity.
    + subst n. cbn [String.length]. rewrite length_app_string. lia.
  - rewrite (IH (String.length s)) with (s := s); [| |reflexivity].
    + apply append_cons_r.
    + subst n. cbn [String.length]. lia.
Qed.

Lemma split_go_first (sep : string) (s acc : string) :
  sep <> EmptyString -> Py.contains sep s = true ->
  exists pre post,
    s = (pre ++ sep ++ post)%string
    /\ Py.split_go sep acc O s = (acc ++ pre)%string :: Py.split_go sep EmptyString O post
    /\ forall pre' post', s = (pre' ++ sep ++ post')%string ->
                          (String.length pre <= String.length pre')%nat.
Proof.
  intros Hne. revert acc. induction s as [|c s IH]; intros acc Hc.
  - cbn in Hc. rewrite orb_false_r in Hc. apply startswith_inv in Hc as [r Hr].
    destruct sep; [contradiction | discriminate Hr].
  - cbn [Py.contains] in Hc. cbn [Py.split_go].
    destruct (Py.startswith sep (String c s)) eqn:Hp.
    + destruct (startswith_cons sep _ Hne Hp) as (c' & sep' & post & Hsep & Hs & Hlen).
      injection Hs as <- ->. exists EmptyString, post.
      rewrite Hlen, split_go_skip, append_empty_r. repeat split.
      * now rewrite Hsep.
      * intros pre' post' _. cbn. lia.
    + cbn [orb] in Hc. destruct (IH (acc ++ String c EmptyString)%string Hc)
        as (pre & post & -> & Hsplit & Hleft).
      exists (String c pre), post. repeat split.
      * now rewrite Hsplit, append_cons_r.
      * intros pre' post' Heq. destruct pre' as [|c' pre'].
        { cbn [String.append] in Heq. rewrite Heq, startswith_app in Hp. discriminate. }
        cbn [String.append] in Heq. injection Heq as <- Heq.
        cbn [String.length]. apply le_n_S. now apply (Hleft pre' post').
Qed.

(** X11. For a separator that is not empty, joining the pieces of
    [s.split(sep)] with the separator gives [s] back; and when [s] holds the
    separator, the first piece is the text before its leftmost occurrence
    and the other pieces are those of the text after it, so there are two
    pieces at least. *)
Theorem split_then_join (sep s : string) :
  sep <> EmptyString ->
  PyText.join sep (Py.split sep s) = s
  /\ (Py.contains sep s = true ->
      exists pre post,
        s = (pre ++ sep ++ post)%string
        /\ Py.split sep s = pre :: Py.split sep post
        /\ forall pre' post', s = (pre' ++ sep ++ post')%string ->
                              (String.length pre <= String.length pre')%nat).
Proof.
  intros Hne. unfold Py.split. split.
  - now rewrite split_go_join.
  - intros Hc. destruct (split_go_first sep s EmptyString Hne Hc)
      as (pre & post & Hs & Hsplit & Hleft).
    exists pre, post. auto.
Qed.

Lemma split_then_join_witness :
  PyText.join " P:" (Py.split " P:" "Mill Rd P:01/02 P:08:00") = "Mill Rd P:01/02 P:08:00"
  /\ (Py.contains " P:" "Mill Rd P:01/02 P:08:00" = true ->
      exists pre post,
        "Mill Rd P:01/02 P:08:00" = (pre ++ " P:" ++ post)%string
        /\ Py.split " P:" "Mill Rd P:01/02 P:08:00" = pre :: Py.split " P:" post
        /\ forall pre' post', "Mill Rd P:01/02 P:08:00" = (pre' ++ " P:" ++ post')%string ->
                              (String.length pre <= String.length pre')%nat).
Proof.
  apply (split_then_join " P:" "Mill Rd P:01/02 P:08:00"). discriminate.
Defined.

(** * The rules and the operator *)

Lemma split_two_pieces (sep s : string) :
  sep <> EmptyString -> Py.contains sep s = true ->
  exists a b rest, Py.split sep s = a :: b :: rest.
Proof.
  intros Hne Hc. unfold Py.split.
  destruct (split_go_first sep s EmptyString Hne Hc) as (pre & post & _ & Hsplit & _).
  rewrite Hsplit. pose proof (split_go_cons sep EmptyString O post) as Hpost.
  destruct (Py.split_go sep EmptyString O post) as [|b rest]; [contradiction|].
  now exists pre, b, rest.
Qed.

(** X12. Without the logic document in the store the watcher cannot judge
    an offer: a row that has the layout and whose id fits 64 bits and is
    not on record makes the selection raise [TypeError] once its id is
    looked up, and nothing is recorded. *)
Theorem new_offer_without_rules_raises (tk : Tick) (remaining : Z)
    (sel : Selection) (e : Entry) (w : World) (n : Z) (c1 c2 : string) :
  entry_id e = Some n ->
  - 2 ^ 63 <= n < 2 ^ 63 ->
  records_of n w = [] ->
  (9 <= List.length (cells e))%nat ->
  nth_error (cells e) 1 = Some c1 -> Py.contains " P:" c1 = true ->
  nth_error (cells e) 2 = Some c2 -> Py.contains " D:" c2 = true ->
  select_entry tk remaining None sel e w = (logged (FindLoad n) w, inl TypeError)
  /\ loads (db (logged (FindLoad n) w)) = loads (db w).
Proof.
  intros Hid Hfit Hrec Hlen H1 Hp H2 Hd. split; [|reflexivity].
  apply fits_int64_iff in Hfit.
  apply find_none_filter in Hrec.
  destruct (split_two_pieces " P:" c1) as (o0 & o1 & orest & Ho); [discriminate|exact Hp|].
  destruct (split_two_pieces " D:" c2) as (d0 & d1 & drest & Hdd); [discriminate|exact Hd|].
  assert (Hcell : forall i, (i < 9)%nat -> exists c, nth_error (cells e) i = Some c).
  { intros i Hi. destruct (nth_error (cells e) i) as [c|] eqn:E; [now exists c|].
    apply nth_error_None in E. lia. }
  destruct (Hcell 4%nat) as [c4 H4]; [lia|].
  destruct (Hcell 6%nat) as [c6 H6]; [lia|].
  destruct (Hcell 8%nat) as [c8 H8]; [lia|].
  destruct (select_entry tk remaining None sel e w) as [w' res] eqn:Hres.
  unfold entry_id in Hid. unfold select_entry in Hres.
  unfold bind at 1 in Hres. unfold item at 1 in Hres.
  destruct (nth_error (cells e) 0) as [c0|]; [|discriminate Hid].
  cbn [ret] in Hres. rewrite Hid in Hres.
  unfold bind at 1 in Hres. unfold find_load in Hres. rewrite Hfit in Hres.
  unfold bind at 1 in Hres.
  cbn [emit] in Hres. unfold bind at 1 in Hres. cbn [get ret db] in Hres.
  fold (logged (FindLoad n) w) in Hres. rewrite Hrec in Hres.
  unfold bind, item in Hres. rewrite H1, H2 in Hres. cbn [ret] in Hres.
  rewrite H4, H6, H8, Ho, Hdd in Hres. cbn [nth_error ret raise] in Hres.
  now rewrite <- Hres.
Qed.

Lemma new_offer_without_rules_raises_witness :
  select_entry (demo_tick 9 0 []) 2 None
    {| text := GREETING; new_loads := 0; action_ids := [] |}
    {| cells := demo_row "7001" "100 lbs"; entry_weight := 100 |}
    (demo_world (Some true) (Some 2))
  = (logged (FindLoad 7001) (demo_world (Some true) (Some 2)), inl TypeError)
  /\ loads (db (logged (FindLoad 7001) (demo_world (Some true) (Some 2))))
     = loads (db (demo_world (Some true) (Some 2))).
Proof.
  apply (new_offer_without_rules_raises (demo_tick 9 0 []) 2
           {| text := GREETING; new_loads := 0; action_ids := [] |}
           {| cells := demo_row "7001" "100 lbs"; entry_weight := 100 |}
           (demo_world (Some true) (Some 2)) 7001
           "Pittsburgh PA P:01/02 08:00" "Greensboro NC D:01/03 09:30");
    first [reflexivity | lia].
Defined.

Lemma handle_keeps (d : Db) (c : Bot.Command) :
  (settings_status (Bot.handle d c) = None <-> settings_status d = None)
  /\ (settings_logic (Bot.handle d c) = None <-> settings_logic d = None)
  /\ settings_threshold (Bot.handle d c) = settings_threshold d
  /\ cache (Bot.handle d c) = cache d
  /\ loads (Bot.handle d c) = loads d.
Proof.
  assert (Hen : forall b,
             (settings_status (Bot.set_enabled b d) = None <-> settings_status d = None)
             /\ (settings_logic (Bot.set_enabled b d) = None <-> settings_logic d = None)
             /\ settings_threshold (Bot.set_enabled b d) = settings_threshold d
             /\ cache (Bot.set_enabled b d) = cache d
             /\ loads (Bot.set_enabled b d) = loads d).
  { intros b. unfold Bot.set_enabled. destruct (settings_status d) eqn:E; cbn.
    - repeat split; first [reflexivity | intros H; discriminate H | intros H; exact H].
    - rewrite E. repeat split; first [reflexivity | intros H; exact H]. }
  assert (Hlg : forall f,
             (settings_status (Bot.set_logic f d) = None <-> settings_status d = None)
             /\ (settings_logic (Bot.set_logic f d) = None <-> settings_logic d = None)
             /\ settings_threshold (Bot.set_logic f d) = settings_threshold d
             /\ cache (Bot.set_logic f d) = cache d
             /\ loads (Bot.set_logic f d) = loads d).
  { intros f. unfold Bot.set_logic. destruct (settings_logic d) eqn:E; cbn.
    - repeat split; first [reflexivity | intros H; discriminate H | intros H; exact H].
    - rewrite E. repeat split; first [reflexivity | intros H; exact H]. }
  destruct c as [| | |args|args|args]; cbn [Bot.handle Bot.disable Bot.enable fst];
    try apply Hen; try tauto;
    unfold Bot.updateDestinations, Bot.updateConsignees, Bot.updateShipModes;
    destruct args; cbn [fst]; try apply Hlg; tauto.
Qed.

(** X13. The commands of the bot only update: whatever commands the
    operator sends, a settings document that is missing stays missing and
    one that is there stays there, and the threshold, the cookie cache and
    the loads are as they were. *)
Theorem commands_only_update (cmds : list Bot.Command) (d : Db) :
  (settings_status (fold_left Bot.handle cmds d) = None <-> settings_status d = None)
  /\ (settings_logic (fold_left Bot.handle cmds d) = None <-> settings_logic d = None)
  /\ settings_threshold (fold_left Bot.handle cmds d) = settings_threshold d
  /\ cache (fold_left Bot.handle cmds d) = cache d
  /\ loads (fold_left Bot.handle cmds d) = loads d.
Proof.
  revert d. induction cmds as [|c cmds IH]; intros d; cbn [fold_left].
  - tauto.
  - destruct (IH (Bot.handle d c)) as (H1 & H2 & H3 & H4 & H5).
    destruct (handle_keeps d c) as (K1 & K2 & K3 & K4 & K5).
    rewrite H1, H2, H3, H4, H5. auto.
Qed.

(** X14. With the status document in the store, [/disable] stops the
    watcher: [/status] then answers "disabled" and a call of [check_loads]
    inside the hours reads the status and returns "Disabled"; [/enable]
    makes [/status] answer "enabled".  With the document missing, neither
    command changes the store, [/status] raises [AttributeError], and the
    next call inside the hours writes the document, enabled, and goes on to
    the quota: a [/disable] sent before that has no effect. *)
Theorem disable_needs_the_status_document (d : Db) (tk : Tick) (w : World) :
  (hour (now_eastern tk) <? 6) || (hour (now_eastern tk) >? 18) = false ->
  (settings_status d <> None ->
     Bot.status (fst (Bot.disable d)) = inr "Current status: disabled ❌"
     /\ Bot.status (fst (Bot.enable d)) = inr "Current status: enabled ✅"
     /\ check_loads tk (on_store (fst (Bot.disable d)) w)
        = (logged (FindSettings "status") (on_store (fst (Bot.disable d)) w),
           inr (Some "Disabled")))
  /\ (settings_status d = None ->
      fst (Bot.disable d) = d /\ fst (Bot.enable d) = d
      /\ Bot.status d = inl AttributeError
      /\ check_loads tk (on_store (fst (Bot.disable d)) w)
         = watch tk (fst (insert_status (logged (FindSettings "status") (on_store d w))))
      /\ settings_status
           (db (fst (insert_status (logged (FindSettings "status") (on_store d w)))))
         = Some true).
Proof.
  intros Hh. split.
  - intros Hs. unfold Bot.status, Bot.disable, Bot.enable, Bot.set_enabled.
    destruct (settings_status d) as [b|]; [|contradiction]. cbn [fst settings_status].
    repeat split. unfold check_loads. rewrite Hh. reflexivity.
  - intros Hs. unfold Bot.status, Bot.disable, Bot.enable, Bot.set_enabled.
    rewrite Hs. cbn [fst]. repeat split.
    apply (missing_status_is_enabled tk (on_store d w) Hh Hs).
Qed.

Lemma disable_needs_the_status_document_witness :
  fst (Bot.disable (demo_db None (Some 2))) = demo_db None (Some 2)
  /\ fst (Bot.enable (demo_db None (Some 2))) = demo_db None (Some 2)
  /\ Bot.status (demo_db None (Some 2)) = inl AttributeError
  /\ check_loads (demo_tick 9 0 [])
       (on_store (fst (Bot.disable (demo_db None (Some 2)))) (demo_world None (Some 2)))
     = watch (demo_tick 9 0 [])
         (fst (insert_status (logged (FindSettings "status")
                                (on_store (demo_db None (Some 2))
                                   (demo_world None (Some 2))))))
  /\ settings_status
       (db (fst (insert_status (logged (FindSettings "status")
                                  (on_store (demo_db None (Some 2))
                                     (demo_world None (Some 2)))))))
     = Some true.
Proof.
  apply (proj2 (disable_needs_the_status_document (demo_db None (Some 2))
                  (demo_tick 9 0 []) (demo_world None (Some 2)) eq_refl)).
  reflexivity.
Defined.

(** ** White space at the ends *)

Lemma is_space_white (c : ascii) : Py.is_space c = true <-> white c.
Proof.
  unfold Py.is_space, white. cbv zeta.
  rewrite orb_true_iff, !andb_true_iff, !N.leb_le. tauto.
Qed.

Lemma is_space_not_white (c : ascii) : Py.is_space c = false <-> ~ white c.
Proof.
  rewrite <- is_space_white. destruct (Py.is_space c); split; congruence.
Qed.

Lemma lstrip_spec (s : string) :
  exists l : string,
    s = (l ++ Py.lstrip s)%string /\ Forall white (list_ascii_of_string l)
    /\ (forall c t', Py.lstrip s = String c t' -> ~ white c).
Proof.
  induction s as [|c s (l & Hs & Hl & Hhead)]; cbn [Py.lstrip].
  - exists EmptyString. repeat split; [constructor | discriminate].
  - destruct (Py.is_space c) eqn:Hc.
    + exists (String c l). cbn. rewrite <- Hs. repeat split; auto.
      constructor; [now apply is_space_white | exact Hl].
    + exists EmptyString. repeat split; [constructor|].
      intros c' t' [= <- _]. now apply is_space_not_white.
Qed.

Lemma rstrip_spec (s : string) :
  exists r : string,
    s = (Py.rstrip s ++ r)%string /\ Forall white (list_ascii_of_string r)
    /\ (forall t' c, Py.rstrip s = (t' ++ String c EmptyString)%string -> ~ white c).
Proof.
  induction s as [|c s (r & Hs & Hr & Hlast)]; cbn [Py.rstrip].
  - exists EmptyString. repeat split; [constructor|].
    intros [|x t'] c H; discriminate H.
  - destruct (Py.is_space c && Py.is_empty (Py.rstrip s)) eqn:E.
    + apply andb_true_iff in E as [Hc He]. apply is_empty_true in He.
      rewrite He in Hs. cbn in Hs. subst s. exists (String c r).
      repeat split; [constructor; [now apply is_space_white | exact Hr]|].
      intros [|x t'] c' H; discriminate H.
    + exists r. cbn. rewrite <- Hs. repeat split; auto.
      intros [|x t'] c' H; cbn in H; injection H as <- H.
      * apply andb_false_iff in E as [E|E]; [now apply is_space_not_white|].
        rewrite H in E. discriminate E.
      * now apply (Hlast t' c').
Qed.

Lemma strip_trimmed (s : string) : trimmed s (Py.strip s).
Proof.
  unfold Py.strip.
  destruct (rstrip_spec s) as (r & Hs & Hr & Hlast).
  destruct (lstrip_spec (Py.rstrip s)) as (l & Hl & Hlw & Hhead).
  exists l, r. repeat split; auto.
  - rewrite <- append_assoc3, <- Hl. exact Hs.
  - intros t' c H. apply (Hlast (l ++ t')%string c).
    rewrite Hl at 1. rewrite H. now rewrite append_assoc3.
Qed.

Lemma rstrip_white (r : string) :
  Forall white (list_ascii_of_string r) -> Py.rstrip r = EmptyString.
Proof.
  induction r as [|c r IH]; cbn; intros H; [reflexivity|].
  inversion H as [|? ? Hc Hr]; subst. rewrite (IH Hr).
  apply is_space_white in Hc. now rewrite Hc.
Qed.

Lemma rstrip_white_end (x r : string) :
  Forall white (list_ascii_of_string r) -> Py.rstrip (x ++ r) = Py.rstrip x.
Proof.
  intros Hr. induction x as [|c x IH]; cbn [String.append Py.rstrip].
  - now apply rstrip_white.
  - now rewrite IH.
Qed.

Lemma lstrip_white_head (l t : string) :
  Forall white (list_ascii_of_string l) ->
  (forall c t', t = String c t' -> ~ white c) ->
  Py.lstrip (l ++ t) = t.
Proof.
  intros Hl Hhead. induction l as [|c l IH]; cbn [String.append].
  - destruct t as [|c t]; [reflexivity|]. cbn [Py.lstrip].
    assert (Hc : Py.is_space c = false)
      by (apply is_space_not_white; now apply (Hhead c t)).
    now rewrite Hc.
  - cbn in Hl. inversion Hl as [|? ? Hc Hl']; subst.
    cbn [Py.lstrip]. apply is_space_white in Hc. rewrite Hc. now apply IH.
Qed.

Lemma last_char (t : string) :
  t <> EmptyString -> exists t' c, t = (t' ++ String c EmptyString)%string.
Proof.
  induction t as [|c t IH]; [congruence|]. intros _.
  destruct t as [|c' t].
  - now exists EmptyString, c.
  - destruct IH as (t' & x & H); [discriminate|]. exists (String c t'), x.
    cbn. now rewrite H.
Qed.

(** [s.strip()] is the one text that is [s] with the white space taken
    off at both ends. *)
Lemma trimmed_strip (s t : string) : trimmed s t <-> Py.strip s = t.
Proof.
  split; [|intros <-; apply strip_trimmed].
  intros (l & r & -> & Hl & Hr & Hhead & Hlast). unfold Py.strip.
  rewrite <- append_assoc3, (rstrip_white_end _ r Hr).
  destruct t as [|c t].
  - rewrite append_empty_r, (rstrip_white l Hl). reflexivity.
  - destruct (last_char (String c t)) as (t' & x & Ht); [discriminate|].
    assert (Hkeep : Py.rstrip (String c t) = String c t).
    { rewrite Ht. apply rstrip_keep; [|discriminate]. cbn.
      assert (Hx : Py.is_space x = false)
        by (apply is_space_not_white; now apply (Hlast t' x)).
      now rewrite Hx. }
    rewrite (rstrip_keep l _ Hkeep) by discriminate.
    now apply lstrip_white_head.
Qed.

Lemma existsb_stripped (args : list string) (s : string) :
  existsb (fun p => Py.contains (Py.lower p) (Py.lower s)) (map Py.strip args) = true
  <-> exists a t, In a args /\ trimmed a t /\ ci_substring t s.
Proof.
  rewrite existsb_contains. split.
  - intros (p & Hin & Hp). apply in_map_iff in Hin as (a & <- & Ha).
    exists a, (Py.strip a). repeat split; auto. apply strip_trimmed.
  - intros (a & t & Ha & Ht & Hp). apply trimmed_strip in Ht. subst t.
    exists (Py.strip a). split; [now apply in_map | exact Hp].
Qed.

(** X15. With the logic document in the store and arguments, all ASCII
    text, [/updateDestinations] leaves a logic document under which an
    offer passes the rule check exactly when one of the arguments, its
    white space taken off at both ends, occurs with case ignored in the
    destination, and consignee and ship mode pass as they did before;
    [/updateConsignees] and [/updateShipModes] do the same for their
    lists.  Without arguments each of the three leaves the store as it
    is. *)
Theorem update_replaces_one_list (args : list string) (d : Db) (rules : Logic)
    (dest consig mode : string) :
  settings_logic d = Some rules ->
  args <> [] ->
  Forall (fun a => Py.ascii_text a = true) args ->
  ascii_rules rules ->
  Py.ascii_text dest = true -> Py.ascii_text consig = true ->
  Py.ascii_text mode = true ->
  (exists rules',
      settings_logic (fst (Bot.updateDestinations args d)) = Some rules'
      /\ (matches rules' dest consig mode = true <->
          (exists a t, In a args /\ trimmed a t /\ ci_substring t dest)
          /\ (exists c, In c (consignees rules) /\ ci_substring c consig)
          /\ (exists s, In s (ship_modes rules) /\ ci_substring s mode)))
  /\ (exists rules',
        settings_logic (fst (Bot.updateConsignees args d)) = Some rules'
        /\ (matches rules' dest consig mode = true <->
            (exists p, In p (destinations rules) /\ ci_substring p dest)
            /\ (exists a t, In a args /\ trimmed a t /\ ci_substring t consig)
            /\ (exists s, In s (ship_modes rules) /\ ci_substring s mode)))
  /\ (exists rules',
        settings_logic (fst (Bot.updateShipModes args d)) = Some rules'
        /\ (matches rules' dest consig mode = true <->
            (exists p, In p (destinations rules) /\ ci_substring p dest)
            /\ (exists c, In c (consignees rules) /\ ci_substring c consig)
            /\ (exists a t, In a args /\ trimmed a t /\ ci_substring t mode)))
  /\ fst (Bot.updateDestinations [] d) = d
  /\ fst (Bot.updateConsignees [] d) = d
  /\ fst (Bot.updateShipModes [] d) = d.
Proof.
  intros Hl Hargs _ _ _ _ _. destruct args as [|a args]; [contradiction|].
  unfold Bot.updateDestinations, Bot.updateConsignees, Bot.updateShipModes, Bot.set_logic.
  rewrite Hl. cbn [fst settings_logic]. clear Hargs.
  remember (a :: args) as l eqn:El. clear El a args.
  repeat split; try (eexists; split; [reflexivity|]);
    unfold matches; cbn [destinations consignees ship_modes];
    rewrite ?andb_true_iff, ?existsb_stripped, ?existsb_contains; tauto.
Qed.

Lemma update_replaces_one_list_witness :
  exists rules',
    settings_logic (fst (Bot.updateDestinations ["raleigh"; " durham "]
                           (demo_db (Some true) (Some 2)))) = Some rules'
    /\ (matches rules' "Durham NC" "CoilPlus Inc" "Coil Flatbed" = true <->
        (exists a t, In a ["raleigh"; " durham "] /\ trimmed a t
                     /\ ci_substring t "Durham NC")
        /\ (exists c, In c (consignees demo_rules) /\ ci_substring c "CoilPlus Inc")
        /\ (exists s, In s (ship_modes demo_rules) /\ ci_substring s "Coil Flatbed")).
Proof.
  apply (update_replaces_one_list ["raleigh"; " durham "] (demo_db (Some true) (Some 2))
           demo_rules "Durham NC" "CoilPlus Inc" "Coil Flatbed").
  - reflexivity.
  - discriminate.
  - repeat constructor.
  - repeat constructor.
  - reflexivity.
  - reflexivity.
  - reflexivity.
Defined.

(** * The same listing again *)

(** An entry that was looked up, not found and left alone while the quota
    had room was left alone for what it is: it is left alone again wherever
    it is not on record. *)
Lemma passed_over_again (tk tk' : Tick) (remaining remaining' : Z)
    (logic : option Logic) (sel sel' : Selection) (e : Entry) (n : Z)
    (w w' : World) :
  entry_id e = Some n ->
  fits_int64 n = true ->
  find (fun l => dsm l =? n) (loads (db w)) = None ->
  new_loads sel < remaining ->
  select_entry tk remaining logic sel e w = (logged (FindLoad n) w, inr sel) ->
  find (fun l => dsm l =? n) (loads (db w')) = None ->
  select_entry tk' remaining' logic sel' e w' = (logged (FindLoad n) w', inr sel').
Proof.
  intros Hid Hfit Hfind Hroom Hres Hfind'.
  destruct (select_entry tk' remaining' logic sel' e w') as [w2 res2] eqn:Hres2.
  unfold entry_id in Hid. unfold select_entry in Hres, Hres2.
  unfold bind at 1 in Hres. unfold item at 1 in Hres.
  unfold bind at 1 in Hres2. unfold item at 1 in Hres2.
  destruct (nth_error (cells e) 0) as [c0|]; [|discriminate Hid].
  cbn [ret] in Hres, Hres2. rewrite Hid in Hres, Hres2.
  unfold bind at 1 in Hres. unfold find_load in Hres. rewrite Hfit in Hres.
  unfold bind at 1 in Hres.
  cbn [emit] in Hres. unfold bind at 1 in Hres. cbn [get ret db] in Hres.
  unfold bind at 1 in Hres2. unfold find_load in Hres2. rewrite Hfit in Hres2.
  unfold bind at 1 in Hres2.
  cbn [emit] in Hres2. unfold bind at 1 in Hres2. cbn [get ret db] in Hres2.
  fold (logged (FindLoad n) w) in Hres. fold (logged (FindLoad n) w') in Hres2.
  rewrite Hfind in Hres. rewrite Hfind' in Hres2.
  repeat (unfold bind at 1 in Hres; unfold item at 1 in Hres;
          unfold bind at 1 in Hres2; unfold item at 1 in Hres2;
          match type of Hres with
          | context [nth_error ?l ?i] => destruct (nth_error l i)
          end; cbn [ret raise] in Hres, Hres2; [|discriminate Hres]).
  destruct logic as [rules|]; [|discriminate Hres].
  match type of Hres with
  | context [matches ?r ?a ?b ?c] => destruct (matches r a b c)
  end; [|now rewrite <- Hres2].
  apply Z.ltb_lt in Hroom. rewrite Hroom in Hres. exfalso.
  unfold bind, insert_load in Hres. cbn [dsm weight] in Hres. rewrite Hfit in Hres.
  destruct (fits_int64 (entry_weight e)); cbn in Hres; [|discriminate Hres].
  injection Hres as Hl _ _.
  apply (f_equal loads) in Hl. cbn [loads] in Hl.
  apply (f_equal (@List.length LoadDoc)) in Hl. rewrite length_app in Hl.
  cbn [List.length] in Hl. lia.
Qed.

Lemma select_entry_counts_up (tk : Tick) (remaining : Z) (logic : option Logic)
    (sel sel' : Selection) (e : Entry) (w w' : World) :
  select_entry tk remaining logic sel e w = (w', inr sel') ->
  new_loads sel <= new_loads sel'.
Proof.
  intros Hres. pose proof (select_entry_cases tk remaining logic sel e w) as H.
  rewrite Hres in H.
  destruct (entry_id e) as [n|]; [|destruct H as [ex H]; discriminate H].
  destruct (fits_int64 n); [|discriminate H].
  destruct (find (fun l => dsm l =? n) (loads (db w))).
  - injection H as _ ->. lia.
  - destruct H as [[ex H]|[H|(_ & doc & _ & _ & _ & _ & _ & H)]].
    + discriminate H.
    + injection H as _ ->. lia.
    + injection H as _ ->. cbn. lia.
Qed.

Lemma select_loop_counts_up (tk : Tick) (remaining : Z) (logic : option Logic)
    (l : list Entry) (sel sel' : Selection) (w w' : World) :
  for_each (select_entry tk remaining logic) sel l w = (w', inr sel') ->
  new_loads sel <= new_loads sel'.
Proof.
  revert sel w. induction l as [|e l IH]; intros sel w Hres; simpl in Hres.
  - injection Hres as _ ->. lia.
  - unfold bind in Hres.
    destruct (select_entry tk remaining logic sel e w) as [w1 [ex|sel1]] eqn:He;
      [discriminate Hres|].
    apply select_entry_counts_up in He. apply IH in Hres. lia.
Qed.

Lemma select_loop_keeps_records (n : Z) (tk : Tick) (remaining : Z)
    (logic : option Logic) (l : list Entry) (sel : Selection) (w : World) :
  keeps_records n w (fst (for_each (select_entry tk remaining logic) sel l w)).
Proof.
  apply along_for_each; try keeps_steps n.
  intros a x. apply along_select_entry; keeps_steps n.
Qed.

Lemma on_record_find (n : Z) (w : World) :
  records_of n w <> [] ->
  exists d, find (fun l => dsm l =? n) (loads (db w)) = Some d.
Proof.
  intros H. destruct (find (fun l => dsm l =? n) (loads (db w))) as [d|] eqn:E;
    [now exists d|].
  apply find_none_filter in E. contradiction.
Qed.

Lemma rerun_loop (tk tk' : Tick) (remaining remaining' : Z) (logic : option Logic)
    (l : list Entry) :
  forall sel0 w0 sel1 w1,
    for_each (select_entry tk remaining logic) sel0 l w0 = (w1, inr sel1) ->
    new_loads sel1 < remaining ->
    forall sel' w',
      loads (db w') = loads (db w1) ->
      exists w'',
        for_each (select_entry tk' remaining' logic) sel' l w' = (w'', inr sel')
        /\ db w'' = db w'
        /\ session w'' = session w'
        /\ requests (trace w'') = requests (trace w').
Proof.
  induction l as [|e l IH]; intros sel0 w0 sel1 w1 Hrun Hroom sel' w' Hsame.
  - exists w'. cbn. auto.
  - cbn [for_each] in Hrun. unfold bind in Hrun.
    destruct (select_entry tk remaining logic sel0 e w0) as [wa [ex|sela]] eqn:H1;
      [discriminate Hrun|].
    pose proof (select_entry_counts_up _ _ _ _ _ _ _ _ H1) as Hup1.
    pose proof (select_loop_counts_up _ _ _ _ _ _ _ _ Hrun) as Hup2.
    assert (Hkept : forall n, records_of n wa <> [] -> records_of n w' <> []).
    { intros n Hn.
      pose proof (select_loop_keeps_records n tk remaining logic l sela wa Hn) as Hk.
      rewrite Hrun in Hk. cbn [fst] in Hk. unfold records_of in *.
      rewrite Hsame, Hk. exact Hn. }
    assert (Hstep : exists n, entry_id e = Some n
              /\ select_entry tk' remaining' logic sel' e w'
                 = (logged (FindLoad n) w', inr sel')).
    { pose proof (select_entry_cases tk remaining logic sel0 e w0) as Hc.
      pose proof (select_entry_cases tk' remaining' logic sel' e w') as Hc'.
      rewrite H1 in Hc.
      destruct (entry_id e) as [n|] eqn:Hid; [|destruct Hc as [ex Hc]; discriminate Hc].
      exists n. split; [reflexivity|].
      destruct (fits_int64 n) eqn:Hfit; [|discriminate Hc].
      destruct (find (fun d => dsm d =? n) (loads (db w'))) eqn:Hf'; [exact Hc'|].
      clear Hc'.
      assert (Hnot : records_of n wa = []).
      { destruct (records_of n wa) eqn:E; [reflexivity|]. exfalso.
        apply find_none_filter in Hf'. apply (Hkept n); [rewrite E; discriminate|].
        exact Hf'. }
      destruct (find (fun d => dsm d =? n) (loads (db w0))) eqn:Hf0.
      - injection Hc as -> _. exfalso.
        apply find_some in Hf0 as [Hin Hd]. unfold records_of in Hnot.
        assert (Hin' : In l0 (filter (fun d => dsm d =? n) (loads (db (logged (FindLoad n) w0)))))
          by (apply filter_In; split; assumption).
        rewrite Hnot in Hin'. exact Hin'.
      - destruct Hc as [[ex Hc]|[Hc|(_ & doc & Hd & _ & _ & _ & _ & Hc)]].
        + discriminate Hc.
        + injection Hc as -> ->.
          apply (passed_over_again tk tk' remaining remaining' logic sel0 sel' e n w0 w'
                   Hid Hfit Hf0); [lia|exact H1|exact Hf'].
        + injection Hc as -> _. exfalso. unfold records_of, stored in Hnot.
          cbn in Hnot. rewrite filter_app in Hnot. cbn in Hnot.
          rewrite Hd, Z.eqb_refl in Hnot.
          destruct (filter (fun d => dsm d =? n) (loads (db w0))); discriminate Hnot. }
    destruct Hstep as (n & Hid & Hstep).
    destruct (IH sela wa sel1 w1 Hrun Hroom sel' (logged (FindLoad n) w') Hsame)
      as (w'' & Hrest & Hd & Hs & Hr).
    exists w''. cbn [for_each]. unfold bind. rewrite Hstep. repeat split; auto.
    rewrite Hr. cbn. rewrite requests_app. cbn. apply app_nil_r.
Qed.

Lemma parse_weight_result (row : list string) (w w' : World) :
  snd (parse_weight row w) = snd (parse_weight row w').
Proof.
  unfold parse_weight, bind, item.
  destruct (nth_error row 5) as [txt|]; simpl; [|reflexivity].
  destruct (WEIGHT_RE_search txt) as [g|]; simpl; [|reflexivity].
  destruct (Py.int g); reflexivity.
Qed.

Lemma parse_weights_result (data : list (list string)) (w w' : World) :
  snd (map_m parse_weight data w) = snd (map_m parse_weight data w').
Proof.
  induction data as [|row data IH]; simpl; [reflexivity|].
  unfold bind at 1 3.
  pose proof (parse_weight_world row w) as H.
  pose proof (parse_weight_world row w') as H'.
  pose proof (parse_weight_result row w w') as Hr.
  destruct (parse_weight row w) as [w1 r1], (parse_weight row w') as [w1' r1'].
  cbn [fst snd] in *. subst w1 w1' r1'. destruct r1 as [e|y]; [reflexivity|].
  unfold bind.
  pose proof (parse_weights_world data w) as H.
  pose proof (parse_weights_world data w') as H'.
  destruct (map_m parse_weight data w) as [w2 r2], (map_m parse_weight data w') as [w2' r2'].
  cbn [fst snd] in *. subst w2 w2' r2'. destruct r2; reflexivity.
Qed.

Lemma select_entry_counts_loads (tk : Tick) (remaining : Z) (logic : option Logic)
    (sel sel' : Selection) (e : Entry) (w w' : World) :
  select_entry tk remaining logic sel e w = (w', inr sel') ->
  load_count w' - load_count w = new_loads sel' - new_loads sel.
Proof.
  intros Hres. pose proof (select_entry_cases tk remaining logic sel e w) as H.
  rewrite Hres in H. unfold load_count.
  destruct (entry_id e) as [n|]; [|destruct H as [ex H]; discriminate H].
  destruct (fits_int64 n); [|discriminate H].
  destruct (find (fun l => dsm l =? n) (loads (db w))).
  - injection H as -> ->. cbn. lia.
  - destruct H as [[ex H]|[H|(_ & doc & _ & _ & _ & _ & _ & H)]].
    + discriminate H.
    + injection H as -> ->. cbn. lia.
    + injection H as -> ->. cbn. rewrite length_app. cbn. lia.
Qed.

Lemma select_loop_counts_loads (tk : Tick) (remaining : Z) (logic : option Logic)
    (l : list Entry) (sel sel' : Selection) (w w' : World) :
  for_each (select_entry tk remaining logic) sel l w = (w', inr sel') ->
  load_count w' - load_count w = new_loads sel' - new_loads sel.
Proof.
  revert sel w. induction l as [|e l IH]; intros sel w Hres; simpl in Hres.
  - injection Hres as -> ->. lia.
  - unfold bind in Hres.
    destruct (select_entry tk remaining logic sel e w) as [w1 [ex|sel1]] eqn:He;
      [discriminate Hres|].
    apply select_entry_counts_loads in He. apply IH in Hres. lia.
Qed.

Lemma submit_keeps_loads (tk : Tick) (accept_data : Dict Value) (sel : Selection)
    (w : World) :
  loads (db (fst (submit tk accept_data sel w))) = loads (db w)
  /\ settings_logic (db (fst (submit tk accept_data sel w))) = settings_logic (db w).
Proof.
  unfold submit. destruct (new_loads sel =? 0); [split; reflexivity|].
  destruct (action_ids sel); [split; reflexivity|].
  unfold accept_load, http, bind, emit, ret, raise.
  destruct (accept_reply tk); [destruct (message_reply tk)|]; split; reflexivity.
Qed.

(** X16. The same rows once more.  When [check_loads] has worked through
    the rows of a listing and returned, having taken fewer loads than the
    quota had left, then working through the same rows again on the store
    it left, at any later time, with any quota and any form, returns as
    well, records no load, sends no request and leaves session and cache:
    every row is either on record by now or was passed over for what it
    says. *)
Theorem same_rows_again_take_nothing (tk tk' : Tick) (remaining remaining' : Z)
    (accept_data accept_data' : Dict Value) (data : list (list string))
    (w : World) :
  snd (take_loads tk remaining accept_data data w) = inr tt ->
  load_count (fst (take_loads tk remaining accept_data data w)) - load_count w
    < remaining ->
  snd (take_loads tk' remaining' accept_data' data
         (fst (take_loads tk remaining accept_data data w))) = inr tt
  /\ db (fst (take_loads tk' remaining' accept_data' data
                (fst (take_loads tk remaining accept_data data w))))
     = db (fst (take_loads tk remaining accept_data data w))
  /\ session (fst (take_loads tk' remaining' accept_data' data
                     (fst (take_loads tk remaining accept_data data w))))
     = session (fst (take_loads tk remaining accept_data data w))
  /\ requests (trace (fst (take_loads tk' remaining' accept_data' data
                             (fst (take_loads tk remaining accept_data data w)))))
     = requests (trace (fst (take_loads tk remaining accept_data data w))).
Proof.
  assert (Hg : grows w (fst (take_loads tk remaining accept_data data w)))
    by (apply along_take_loads; grows_steps).
  destruct (take_loads tk remaining accept_data data w) as [w1 res1] eqn:H1.
  cbn [fst snd] in *. intros -> Hroom.
  destruct (take_loads tk' remaining' accept_data' data w1) as [w2 res2] eqn:H2.
  cbn [fst snd].
  unfold take_loads in H1, H2. destruct data as [|row data].
  { injection H2 as <- <-. auto. }
  unfold bind at 1 in H1. unfold bind at 1 in H2.
  pose proof (parse_weights_world (row :: data) w) as Hp.
  pose proof (parse_weights_world (row :: data) w1) as Hp'.
  pose proof (parse_weights_result (row :: data) w w1) as Hr.
  destruct (map_m parse_weight (row :: data) w) as [wp [ex|parsed]];
    [discriminate H1|].
  destruct (map_m parse_weight (row :: data) w1) as [wp' rp'].
  cbn [fst snd] in Hp, Hp', Hr. subst wp wp' rp'.
  unfold bind at 1 in H1. cbn [emit] in H1. unfold bind at 1 in H1.
  cbn [get db] in H1. unfold bind at 1 in H1.
  unfold bind at 1 in H2. cbn [emit] in H2. unfold bind at 1 in H2.
  cbn [get db] in H2. unfold bind at 1 in H2.
  fold (logged (FindSettings "logic") w) in H1.
  fold (logged (FindSettings "logic") w1) in H2.
  match type of H1 with
  | context [for_each ?body ?sel0 ?l ?wa] =>
      destruct (for_each body sel0 l wa) as [wl [ex|sel1]] eqn:Hloop
  end; [discriminate H1|].
  pose proof (submit_keeps_loads tk accept_data sel1 wl) as [Hsl _].
  rewrite H1 in Hsl. cbn [fst] in Hsl.
  pose proof (select_loop_counts_loads _ _ _ _ _ _ _ _ Hloop) as Hcount.
  destruct Hg as (_ & Hlogic & _).
  rewrite Hlogic in H2.
  assert (Hroom' : new_loads sel1 < remaining).
  { unfold load_count in Hroom, Hcount. rewrite Hsl in Hroom. cbn in Hcount. lia. }
  destruct (rerun_loop tk tk' remaining remaining' (settings_logic (db w))
              (sorted entry_weight parsed) _ _ _ _ Hloop Hroom'
              {| text := GREETING; new_loads := 0; action_ids := [] |}
              (logged (FindSettings "logic") w1) Hsl)
    as (w'' & Hrun & Hd & Hs & Hq).
  unfold logged in Hrun, Hd, Hs, Hq. cbn [emit fst db session trace] in Hrun, Hd, Hs, Hq.
  rewrite Hrun in H2. unfold submit in H2. cbn in H2. injection H2 as <- <-.
  repeat split; auto.
  rewrite Hq, requests_app. cbn. apply app_nil_r.
Qed.

Lemma same_rows_again_take_nothing_witness :
  snd (take_loads (demo_tick 10 0 []) 1 [] [demo_row "7001" "100 lbs"]
         (fst (take_loads (demo_tick 9 0 []) 2 [] [demo_row "7001" "100 lbs"]
                 (demo_world (Some true) (Some 2))))) = inr tt
  /\ db (fst (take_loads (demo_tick 10 0 []) 1 [] [demo_row "7001" "100 lbs"]
                (fst (take_loads (demo_tick 9 0 []) 2 [] [demo_row "7001" "100 lbs"]
                        (demo_world (Some true) (Some 2))))))
     = db (fst (take_loads (demo_tick 9 0 []) 2 [] [demo_row "7001" "100 lbs"]
                  (demo_world (Some true) (Some 2))))
  /\ session (fst (take_loads (demo_tick 10 0 []) 1 [] [demo_row "7001" "100 lbs"]
                     (fst (take_loads (demo_tick 9 0 []) 2 [] [demo_row "7001" "100 lbs"]
                             (demo_world (Some true) (Some 2))))))
     = session (fst (take_loads (demo_tick 9 0 []) 2 [] [demo_row "7001" "100 lbs"]
                       (demo_world (Some true) (Some 2))))
  /\ requests (trace (fst (take_loads (demo_tick 10 0 []) 1 []
                             [demo_row "7001" "100 lbs"]
                             (fst (take_loads (demo_tick 9 0 []) 2 []
                                     [demo_row "7001" "100 lbs"]
                                     (demo_world (Some true) (Some 2)))))))
     = requests (trace (fst (take_loads (demo_tick 9 0 []) 2 []
                               [demo_row "7001" "100 lbs"]
                               (demo_world (Some true) (Some 2))))).
Proof.
  apply (same_rows_again_take_nothing (demo_tick 9 0 []) (demo_tick 10 0 []) 2 1 [] []
           [demo_row "7001" "100 lbs"] (demo_world (Some true) (Some 2)));
    vm_compute; reflexivity.
Defined.
